(** * molex-ftp: the reply framer, the command/reply correlator, passive-mode
    decoding, transfers, login and the directory helpers, embedded from
    the JavaScript sources.

    Strings are [string] (sequences of 8-bit character codes).  The
    integer that [parseInt] reads is a [Z], [NaN] is [None] in an
    [option Z]; a number of any size that the sources read or compute is
    a [double], which holds an integer below 2^53 and is followed no
    further.  Promises are identifiers; every call of a promise's
    [resolve] or [reject] is appended to a log, and the outcome of a
    promise is the first entry of the log that names it. *)

From Stdlib Require Import ZArith List String Ascii Bool Lia Arith.
From Stdlib Require Import Numbers.DecimalString.
Import ListNotations.

Open Scope list_scope.
Open Scope string_scope.

(* ================================================================== *)
(** ** JavaScript string primitives used by the sources *)
(* ================================================================== *)

Module JS.

Definition CR : ascii := "013"%char.
Definition LF : ascii := "010"%char.
Definition CRLF : string := String CR (String LF EmptyString).
Definition QUOTE : ascii := "034"%char.

Definition nonEmpty (s : string) : bool :=
  match s with EmptyString => false | String _ _ => true end.

(** [s.startsWith(p)] *)
Fixpoint startsWith (s p : string) {struct p} : bool :=
  match p with
  | EmptyString => true
  | String a p' =>
      match s with
      | EmptyString => false
      | String b s' => Ascii.eqb a b && startsWith s' p'
      end
  end.

(** [s.includes(sub)] *)
Fixpoint includes (s sub : string) : bool :=
  startsWith s sub ||
  match s with
  | EmptyString => false
  | String _ s' => includes s' sub
  end.

(** [s.charAt(i)]: a one-character string, or the empty string out of range. *)
Definition charAt (s : string) (i : nat) : string :=
  match String.get i s with
  | Some c => String c EmptyString
  | None => EmptyString
  end.

(** [s.substring(a, b)]: both indices are clamped to [0, length] and swapped
    when [a > b]. *)
Definition clamp (len : nat) (i : Z) : nat := Nat.min (Z.to_nat i) len.

Definition substring (s : string) (a b : Z) : string :=
  let len := String.length s in
  let a' := clamp len a in
  let b' := clamp len b in
  String.substring (Nat.min a' b') (Nat.max a' b' - Nat.min a' b') s.

(** [s.substring(a)] *)
Definition substringFrom (s : string) (a : Z) : string :=
  substring s a (Z.of_nat (String.length s)).

(** [s.lastIndexOf(c)] for a one-character needle; [-1] when absent. *)
Fixpoint lastIndexOf_from (c : ascii) (s : string) (i found : Z) : Z :=
  match s with
  | EmptyString => found
  | String d s' =>
      lastIndexOf_from c s' (i + 1) (if Ascii.eqb d c then i else found)
  end.

Definition lastIndexOf (s : string) (c : ascii) : Z :=
  lastIndexOf_from c s 0 (-1).

(** [s.split(sep)] for a non-empty separator: the pieces between the
    non-overlapping occurrences of [sep], scanned from the left.  [skip]
    counts the characters of a separator just matched that are still to
    be passed over. *)
Definition cons_head (c : ascii) (l : list string) : list string :=
  match l with
  | [] => [String c EmptyString]
  | x :: xs => String c x :: xs
  end.

Fixpoint split_from (sep : string) (skip : nat) (s : string) : list string :=
  match s with
  | EmptyString => [EmptyString]
  | String c s' =>
      match skip with
      | S k => split_from sep k s'
      | O =>
          if startsWith s sep
          then EmptyString :: split_from sep (String.length sep - 1) s'
          else cons_head c (split_from sep 0 s')
      end
  end.

Definition split (s sep : string) : list string := split_from sep 0 s.

(** [a.pop()]: the last element (if any) and the array without it. *)
Fixpoint pop {A : Type} (l : list A) : option A * list A :=
  match l with
  | [] => (None, [])
  | [x] => (Some x, [])
  | x :: xs => let (r, xs') := pop xs in (r, x :: xs')
  end.

(** White space skipped by [parseInt]: TAB, LF, VT, FF, CR, SP and NBSP. *)
Definition isWhiteSpace (c : ascii) : bool :=
  let n := nat_of_ascii c in
  ((9 <=? n)%nat && (n <=? 13)%nat) || (n =? 32)%nat || (n =? 160)%nat.

Fixpoint trimStart (s : string) : string :=
  match s with
  | EmptyString => EmptyString
  | String c s' => if isWhiteSpace c then trimStart s' else s
  end.

Definition isDigit (c : ascii) : bool :=
  let n := nat_of_ascii c in (48 <=? n)%nat && (n <=? 57)%nat.

(** Value of a character as a digit in radix up to 36. *)
Definition digitValue (c : ascii) : option Z :=
  let n := nat_of_ascii c in
  if (48 <=? n)%nat && (n <=? 57)%nat then Some (Z.of_nat (n - 48))
  else if (97 <=? n)%nat && (n <=? 122)%nat then Some (Z.of_nat (n - 87))
  else if (65 <=? n)%nat && (n <=? 90)%nat then Some (Z.of_nat (n - 55))
  else None.

(** The longest prefix of digits of the radix, read as a number; [acc] is
    [None] until a digit has been read. *)
Fixpoint readDigits (radix : Z) (acc : option Z) (s : string) : option Z :=
  match s with
  | EmptyString => acc
  | String c s' =>
      match digitValue c with
      | Some d =>
          if (d <? radix)%Z
          then readDigits radix
                 (Some (radix * match acc with Some a => a | None => 0 end + d)%Z) s'
          else acc
      | None => acc
      end
  end.

(** An optional sign at the head of a string. *)
Definition signOf (s : string) : Z * string :=
  match s with
  | String c r =>
      if Ascii.eqb c "-"%char then ((-1)%Z, r)
      else if Ascii.eqb c "+"%char then (1%Z, r)
      else (1%Z, s)
  | EmptyString => (1%Z, s)
  end.

(** An optional [0x] or [0X] at the head of a string selects radix 16. *)
Definition radixOf (s : string) : Z * string :=
  match s with
  | String z (String x r) =>
      if Ascii.eqb z "0"%char && (Ascii.eqb x "x"%char || Ascii.eqb x "X"%char)
      then (16%Z, r) else (10%Z, s)
  | _ => (10%Z, s)
  end.

(** [parseInt(s)] without a radix argument: leading white space, an
    optional sign, an optional [0x]/[0X] prefix, then the longest run of
    digits of the radix; [None] is [NaN]. *)
Definition parseInt (s : string) : option Z :=
  let '(sign, s2) := signOf (trimStart s) in
  let '(radix, s3) := radixOf s2 in
  option_map (Z.mul sign) (readDigits radix None s3).

(** The number read so far, zero before the first digit. *)
Definition accValue (acc : option Z) : Z :=
  match acc with Some a => a | None => 0%Z end.

(** Exactly three decimal digits. *)
Definition threeDigits (s : string) : bool :=
  match s with
  | String a (String b (String c EmptyString)) =>
      isDigit a && isDigit b && isDigit c
  | _ => false
  end.

(** A number interpolated into a template string. *)
Definition showNumber (n : option Z) : string :=
  match n with
  | None => "NaN"
  | Some z => NilZero.string_of_int (Z.to_int z)
  end.

(** Comparisons of a possibly-[NaN] number with an integer constant: every
    comparison with [NaN] is false. *)
Definition geN (n : option Z) (k : Z) : bool :=
  match n with Some z => (k <=? z)%Z | None => false end.
Definition ltN (n : option Z) (k : Z) : bool :=
  match n with Some z => (z <? k)%Z | None => false end.
Definition eqN (n : option Z) (k : Z) : bool :=
  match n with Some z => (z =? k)%Z | None => false end.

(** *** Numbers as doubles

    A JavaScript number is a double: it holds an integer exactly, and a
    template string prints it in plain decimal, as long as the absolute
    value of the integer is below 2^53.  [parseInt] above gives the
    integer that is written, which is the number the program gets for
    the three characters of a reply code; where the sources read or
    compute a number of any size, the number they get is a [double].
    From 2^53 on a double rounds, and what comes of it is not followed
    here: [Unfollowed] stands for a number about which nothing is
    said. *)
Definition safe (z : Z) : bool := (Z.abs z <? 2 ^ 53)%Z.

Inductive double : Type :=
| Whole (z : Z)     (* the integer [z], of absolute value below 2^53 *)
| NotANumber        (* [NaN] *)
| Unfollowed.       (* an integer of absolute value 2^53 or more has
                       come into the computation *)

Definition toDouble (n : option Z) : double :=
  match n with
  | None => NotANumber
  | Some z => if safe z then Whole z else Unfollowed
  end.

(** [a * k] and [a + b]. *)
Definition mulD (a : double) (k : Z) : double :=
  match a with
  | Whole z => toDouble (Some (z * k)%Z)
  | NotANumber => NotANumber
  | Unfollowed => Unfollowed
  end.

Definition addD (a b : double) : double :=
  match a, b with
  | Whole x, Whole y => toDouble (Some (x + y)%Z)
  | NotANumber, _ => NotANumber
  | _, NotANumber => NotANumber
  | _, _ => Unfollowed
  end.

End JS.

(* ================================================================== *)
(** ** lib/utils.js *)
(* ================================================================== *)

Module Utils.

Fixpoint backslashesToSlashes (s : string) : string :=
  match s with
  | EmptyString => EmptyString
  | String c s' =>
      String (if Ascii.eqb c "\"%char then "/"%char else c)
             (backslashesToSlashes s')
  end.

Fixpoint collapseSlashes (s : string) : string :=
  match s with
  | EmptyString => EmptyString
  | String c s' =>
      if Ascii.eqb c "/"%char
      then match s' with
           | String d _ =>
               if Ascii.eqb d "/"%char then collapseSlashes s'
               else String c (collapseSlashes s')
           | EmptyString => String c EmptyString
           end
      else String c (collapseSlashes s')
  end.

(** [path.replace(/\\/g, '/').replace(/\/+/g, '/')] *)
Definition normalizePath (path : string) : string :=
  collapseSlashes (backslashesToSlashes path).

Definition getParentDir (filePath : string) : string :=
  let normalized := normalizePath filePath in
  let lastSlash := JS.lastIndexOf normalized "/"%char in
  if (lastSlash <=? 0)%Z then "/"
  else JS.substring normalized 0 lastSlash.

Definition maskPassword (command : string) : string :=
  if JS.startsWith command "PASS " then "PASS ********" else command.

End Utils.

(* ================================================================== *)
(** ** The reply framer: the ['data'] handler of the control socket *)
(* ================================================================== *)

Module Framer.
Import JS.

(** One ['data'] event: [this.buffer += data], split on CRLF, keep the last
    piece as the new buffer, and hand every non-empty complete line on.
    The result is the lines handed on, in order, and the new buffer. *)
Definition frame (buffer data : string) : list string * string :=
  let buffer := buffer ++ data in
  let lines := split buffer CRLF in
  let '(last, lines) := pop lines in
  (filter nonEmpty lines, match last with Some b => b | None => EmptyString end).

(** A sequence of ['data'] events, starting from a given carry-over buffer. *)
Fixpoint feed (buffer : string) (chunks : list string) : list string * string :=
  match chunks with
  | [] => ([], buffer)
  | data :: rest =>
      let '(lines, buffer') := frame buffer data in
      let '(lines', buffer'') := feed buffer' rest in
      ((lines ++ lines')%list, buffer'')
  end.

Definition joinChunks (chunks : list string) : string :=
  fold_right String.append EmptyString chunks.

(** The complete pieces of a buffer, and the piece that is carried over. *)
Definition complete (s : string) : list string := snd (pop (split s CRLF)).

Definition carry (s : string) : string :=
  match fst (pop (split s CRLF)) with Some b => b | None => EmptyString end.

(** The reading "a chunk containing no terminator yields zero lines and is
    retained", at any buffer the framer can have reached. *)
Definition terminatorFreeChunkIsSilent : Prop :=
  forall chunks chunk,
    includes chunk CRLF = false ->
    frame (snd (feed EmptyString chunks)) chunk
    = ([], snd (feed EmptyString chunks) ++ chunk).

End Framer.


(* ================================================================== *)
(** ** The client: listeners, timers, promises and the event loop *)
(* ================================================================== *)

Module Client.
Import JS.

(** What [_sendCommand] resolves with: [{ code, message, raw }]. *)
Record response : Type := mkResponse {
  code : option Z;
  message : string;
  raw : string
}.

Inductive value : Type :=
| VResponse (r : response)
| VBuffer (b : string)        (* Buffer.concat(chunks) *)
| VText (s : string)          (* Buffer.concat(chunks).toString('utf8') *)
| VUndefined.

(** A call of [resolve(v)] or of [reject(e)]; an error is its message. *)
Inductive settlement : Type :=
| Resolve (v : value)
| Reject (msg : string).

(** The three texts of the transfer code: the single-file client
    (release 1.0), the first text of lib/commands.js (release 2.1) and its
    second text (release 2.2). *)
Inductive release : Type := R1_0 | R2_1 | R2_2.

Inductive kind : Type := Upload | Download | List.

(** The closure of one transfer: what the callbacks on its data socket and
    its final handler share. *)
Record transfer : Type := mkTransfer {
  t_release : release;
  t_kind : kind;
  t_path : string;            (* remotePath, or path for a listing *)
  t_data : string;            (* the buffer to upload *)
  t_promise : nat;            (* the promise the method returns *)
  t_chunks : list string;     (* chunks *)
  t_commandSent : bool;       (* commandSent *)
  t_dataWritten : list string (* written to the data socket *)
}.

(** Listeners on the ['response'] event.  Each is a closure created once,
    named by what it captured: the promise (and timer) of its command, or
    the data socket of its transfer. *)
Inductive listener : Type :=
| responseHandler (promise timeoutId : nat) (allowPreliminary : bool)
| finalHandler (socket : nat).

Definition listener_eqb (a b : listener) : bool :=
  match a, b with
  | responseHandler p t ap, responseHandler p' t' ap' =>
      Nat.eqb p p' && Nat.eqb t t' && Bool.eqb ap ap'
  | finalHandler s, finalHandler s' => Nat.eqb s s'
  | _, _ => false
  end.

(** Callbacks handed to [setTimeout]. *)
Inductive timerAction : Type :=
| commandTimeout (h : listener) (cmdToLog : string) (promise : nat)
| finalTimeout (socket : nat)
| delayedResolve (socket : nat) (result : string).

Record client : Type := mkClient {
  buffer : string;
  connected : bool;
  authenticated : bool;
  commandCount : nat;
  lastCommand : option string;
  listeners : list listener;           (* in registration order *)
  timers : list (nat * timerAction);   (* armed timers *)
  nextTimer : nat;
  nextPromise : nat;
  settled : list (nat * settlement);   (* every resolve/reject call, in order *)
  catchers : list (nat * nat);         (* p.catch(reject): source, target *)
  written : list string;               (* socket.write on the control socket *)
  transfers : list (nat * transfer);   (* data sockets and their closures *)
  nextSocket : nat
}.

Definition setBuffer (b : string) (c : client) : client :=
  mkClient b (connected c) (authenticated c) (commandCount c) (lastCommand c)
    (listeners c) (timers c) (nextTimer c) (nextPromise c) (settled c)
    (catchers c) (written c) (transfers c) (nextSocket c).

Definition setCommand (n : nat) (l : option string) (c : client) : client :=
  mkClient (buffer c) (connected c) (authenticated c) n l
    (listeners c) (timers c) (nextTimer c) (nextPromise c) (settled c)
    (catchers c) (written c) (transfers c) (nextSocket c).

Definition setListeners (ls : list listener) (c : client) : client :=
  mkClient (buffer c) (connected c) (authenticated c) (commandCount c)
    (lastCommand c) ls (timers c) (nextTimer c) (nextPromise c) (settled c)
    (catchers c) (written c) (transfers c) (nextSocket c).

Definition setTimers (ts : list (nat * timerAction)) (n : nat) (c : client)
  : client :=
  mkClient (buffer c) (connected c) (authenticated c) (commandCount c)
    (lastCommand c) (listeners c) ts n (nextPromise c) (settled c)
    (catchers c) (written c) (transfers c) (nextSocket c).

Definition setNextPromise (n : nat) (c : client) : client :=
  mkClient (buffer c) (connected c) (authenticated c) (commandCount c)
    (lastCommand c) (listeners c) (timers c) (nextTimer c) n (settled c)
    (catchers c) (written c) (transfers c) (nextSocket c).

Definition setSettled (l : list (nat * settlement)) (c : client) : client :=
  mkClient (buffer c) (connected c) (authenticated c) (commandCount c)
    (lastCommand c) (listeners c) (timers c) (nextTimer c) (nextPromise c) l
    (catchers c) (written c) (transfers c) (nextSocket c).

Definition setCatchers (l : list (nat * nat)) (c : client) : client :=
  mkClient (buffer c) (connected c) (authenticated c) (commandCount c)
    (lastCommand c) (listeners c) (timers c) (nextTimer c) (nextPromise c)
    (settled c) l (written c) (transfers c) (nextSocket c).

Definition setWritten (l : list string) (c : client) : client :=
  mkClient (buffer c) (connected c) (authenticated c) (commandCount c)
    (lastCommand c) (listeners c) (timers c) (nextTimer c) (nextPromise c)
    (settled c) (catchers c) l (transfers c) (nextSocket c).

Definition setTransfers (l : list (nat * transfer)) (n : nat) (c : client)
  : client :=
  mkClient (buffer c) (connected c) (authenticated c) (commandCount c)
    (lastCommand c) (listeners c) (timers c) (nextTimer c) (nextPromise c)
    (settled c) (catchers c) (written c) l n.

(** *** Promises *)

Definition newPromise (c : client) : nat * client :=
  (nextPromise c, setNextPromise (S (nextPromise c)) c).

(** [resolve] or [reject] of promise [p] is called. *)
Definition settle (p : nat) (s : settlement) (c : client) : client :=
  setSettled (settled c ++ [(p, s)])%list c.

(** The state of a promise: the first call counts, later ones are ignored;
    [None] is a pending promise. *)
Definition outcome (c : client) (p : nat) : option settlement :=
  option_map snd (find (fun e => Nat.eqb (fst e) p) (settled c)).

(** How many times [resolve] or [reject] of [p] has been called. *)
Definition settleCalls (c : client) (p : nat) : nat :=
  List.length (filter (fun e => Nat.eqb (fst e) p) (settled c)).

(** *** The event emitter and timers *)

Fixpoint removeFirst (h : listener) (l : list listener) : list listener :=
  match l with
  | [] => []
  | x :: xs => if listener_eqb x h then xs else x :: removeFirst h xs
  end.

(** [removeListener('response', h)] removes the most recently added
    instance of [h]. *)
Definition removeListener (h : listener) (c : client) : client :=
  setListeners (rev (removeFirst h (rev (listeners c)))) c.

(** [this.on('response', h)] *)
Definition on (h : listener) (c : client) : client :=
  setListeners (listeners c ++ [h])%list c.

Definition setTimeout (a : timerAction) (c : client) : nat * client :=
  (nextTimer c, setTimers (timers c ++ [(nextTimer c, a)])%list (S (nextTimer c)) c).

Definition clearTimeout (id : nat) (c : client) : client :=
  setTimers (filter (fun t => negb (Nat.eqb (fst t) id)) (timers c))
    (nextTimer c) c.

Definition lookup {A : Type} (k : nat) (l : list (nat * A)) : option A :=
  option_map snd (find (fun e => Nat.eqb (fst e) k) l).

Fixpoint update {A : Type} (k : nat) (v : A) (l : list (nat * A))
  : list (nat * A) :=
  match l with
  | [] => []
  | (k', v') :: r =>
      if Nat.eqb k' k then (k, v) :: r else (k', v') :: update k v r
  end.

Definition concatChunks (chunks : list string) : string :=
  fold_right String.append EmptyString chunks.

(** *** [_sendCommand] *)

(** The text of the error a final reply is rejected with. *)
Definition ftpError (code : option Z) (message : string) : string :=
  "FTP Error " ++ showNumber code ++ ": " ++ message.

(** The body of [responseHandler], the listener [_sendCommand] registers. *)
Definition callResponseHandler (p timeoutId : nat) (allowPreliminary : bool)
    (line : string) (c : client) : client :=
  let c := clearTimeout timeoutId c in
  let code := parseInt (substring line 0 3) in
  let message := substringFrom line 4 in
  if String.eqb (charAt line 3) " " then
    if geN code 100 && ltN code 200 && allowPreliminary then c
    else
      let c := clearTimeout timeoutId c in
      let c := removeListener (responseHandler p timeoutId allowPreliminary) c in
      if geN code 200 && ltN code 400
      then settle p (Resolve (VResponse (mkResponse code message line))) c
      else settle p (Reject (ftpError code message)) c
  else c.

Definition _sendCommand (command : string) (allowPreliminary : bool)
    (c : client) : nat * client :=
  let '(p, c) := newPromise c in
  if negb (connected c) then (p, settle p (Reject "Not connected") c)
  else
    let c := setCommand (S (commandCount c)) (Some command) c in
    let cmdToLog :=
      if startsWith command "PASS " then "PASS ********" else command in
    let timeoutId := nextTimer c in
    let h := responseHandler p timeoutId allowPreliminary in
    let '(_, c) :=
      setTimeout (commandTimeout h ("Command timeout: " ++ cmdToLog) p) c in
    let c := on h c in
    (p, setWritten (written c ++ [(command ++ CRLF)%string])%list c).

(** *** Transfers *)

Definition transferCommand (t : transfer) : string :=
  match t_kind t with
  | Upload => "STOR " ++ t_path t
  | Download => "RETR " ++ t_path t
  | List => "LIST " ++ t_path t
  end.

(** The value a transfer resolves with. *)
Definition transferResult (k : kind) (bytes : string) : value :=
  match k with
  | Upload => VUndefined
  | Download => VBuffer bytes
  | List => VText bytes
  end.

(** The error text of [finalHandler] for a reply with code >= 400. *)
Definition finalError (t : transfer) (code : option Z) (line : string)
  : string :=
  match t_release t, t_kind t with
  | R2_1, Upload =>
      "Upload failed - FTP Error " ++ showNumber code ++ ": " ++
      substringFrom line 4 ++ " (path: " ++ t_path t ++ ")"
  | R2_1, _ =>
      "Download failed - FTP Error " ++ showNumber code ++ ": " ++
      substringFrom line 4 ++ " (path: " ++ t_path t ++ ")"
  | _, _ => ftpError code (substringFrom line 4)
  end.

(** The body of [finalHandler], registered when the data socket closes
    (releases 1.0 and 2.1).  The handler of a listing has no branch for
    codes >= 400. *)
Definition callFinalHandler (socket : nat) (line : string) (c : client)
  : client :=
  match lookup socket (transfers c) with
  | None => c
  | Some t =>
      let code := parseInt (substring line 0 3) in
      if eqN code 226 || eqN code 250 then
        let c := removeListener (finalHandler socket) c in
        settle (t_promise t)
          (Resolve (transferResult (t_kind t) (concatChunks (t_chunks t)))) c
      else
        match t_kind t with
        | List => c
        | _ =>
            if geN code 400 then
              let c := removeListener (finalHandler socket) c in
              settle (t_promise t) (Reject (finalError t code line)) c
            else c
        end
  end.

Definition callListener (h : listener) (line : string) (c : client) : client :=
  match h with
  | responseHandler p t ap => callResponseHandler p t ap line c
  | finalHandler s => callFinalHandler s line c
  end.

(** [this.emit('response', line)]: the listeners registered when the event
    is emitted are called in registration order. *)
Definition emit (line : string) (c : client) : client :=
  fold_left (fun c h => callListener h line c) (listeners c) c.

(** The body of the promise a transfer method returns, entered once passive
    mode has given the endpoint: the data socket is created and its
    callbacks are installed. *)
Definition startTransfer (r : release) (k : kind) (path data : string)
    (c : client) : nat * nat * client :=
  let '(p, c) := newPromise c in
  let s := nextSocket c in
  let t := mkTransfer r k path data p [] false [] in
  (p, s, setTransfers (transfers c ++ [(s, t)])%list (S s) c).

(** The connection callback of the data socket.  Releases 1.0 and 2.1 send
    the command through the correlator and forward its rejection; in
    release 2.1 the call is [this.connection.sendCommand], of
    lib/connection.js, which is not among the sources: [_sendCommand] of
    the single-file client, the same function before the code was split
    into lib/, stands for it.  Release 2.2 writes the command line itself
    and registers nothing. *)
Definition onDataConnect (socket : nat) (c : client) : client :=
  match lookup socket (transfers c) with
  | None => c
  | Some t =>
      if t_commandSent t then c
      else
        let t1 := mkTransfer (t_release t) (t_kind t) (t_path t) (t_data t)
                    (t_promise t) (t_chunks t) true
                    (match t_kind t with
                     | Upload => (t_dataWritten t ++ [t_data t])%list
                     | _ => t_dataWritten t
                     end) in
        let c := setTransfers (update socket t1 (transfers c)) (nextSocket c) c in
        match t_release t with
        | R2_2 =>
            (* this.client.socket.write(...); this.client._commandCount++ *)
            let c := setWritten (written c ++ [(transferCommand t ++ CRLF)%string])%list c in
            setCommand (S (commandCount c)) (lastCommand c) c
        | _ =>
            (* sendCommand(..., true).catch(reject) *)
            let '(p, c) := _sendCommand (transferCommand t) true c in
            setCatchers (catchers c ++ [(p, t_promise t)])%list c
        end
  end.

(** The ['data'] callback of the data socket; an upload installs none. *)
Definition onDataChunk (socket : nat) (chunk : string) (c : client) : client :=
  match lookup socket (transfers c) with
  | None => c
  | Some t =>
      match t_kind t with
      | Upload => c
      | _ =>
          let t1 := mkTransfer (t_release t) (t_kind t) (t_path t) (t_data t)
                      (t_promise t) (t_chunks t ++ [chunk])%list
                      (t_commandSent t) (t_dataWritten t) in
          setTransfers (update socket t1 (transfers c)) (nextSocket c) c
      end
  end.

(** The ['error'] callback of the data socket: [reject]. *)
Definition onDataError (socket : nat) (err : string) (c : client) : client :=
  match lookup socket (transfers c) with
  | None => c
  | Some t => settle (t_promise t) (Reject err) c
  end.

(** The ['close'] callback of the data socket. *)
Definition onDataClose (socket : nat) (c : client) : client :=
  match lookup socket (transfers c) with
  | None => c
  | Some t =>
      match t_release t with
      | R2_2 =>
          snd (setTimeout (delayedResolve socket (concatChunks (t_chunks t))) c)
      | _ =>
          let c := on (finalHandler socket) c in
          snd (setTimeout (finalTimeout socket) c)
      end
  end.

(** The callback of a timer that fires. *)
Definition runTimer (a : timerAction) (c : client) : client :=
  match a with
  | commandTimeout h msg p =>
      let c := removeListener h c in
      settle p (Reject msg) c
  | finalTimeout socket =>
      match lookup socket (transfers c) with
      | None => c
      | Some t =>
          let c := removeListener (finalHandler socket) c in
          match t_kind t with
          | Download =>
              if (0 <? List.length (t_chunks t))%nat
              then settle (t_promise t)
                     (Resolve (VBuffer (concatChunks (t_chunks t)))) c
              else c
          | k => settle (t_promise t)
                   (Resolve (transferResult k (concatChunks (t_chunks t)))) c
          end
      end
  | delayedResolve socket result =>
      match lookup socket (transfers c) with
      | None => c
      | Some t =>
          match t_kind t with
          | Download => settle (t_promise t) (Resolve (VBuffer result)) c
          | k => settle (t_promise t)
                   (Resolve (transferResult k (concatChunks (t_chunks t)))) c
          end
      end
  end.

(** *** The event loop *)

Inductive event : Type :=
| Responses (lines : list string)   (* one 'data' event of the control
                                       socket, framed into these lines *)
| TimerFires (id : nat)
| DataConnected (socket : nat)
| DataReceived (socket : nat) (chunk : string)
| DataFailed (socket : nat) (err : string)
| DataClosed (socket : nat).

(** The reactions of [p.catch(reject)]: once the source is rejected the
    target's [reject] is called with the same error; a fulfilled source
    never calls it. *)
Fixpoint runCatchers (l : list (nat * nat)) (c : client) : client :=
  match l with
  | [] => c
  | (src, tgt) :: rest =>
      match outcome c src with
      | Some (Reject e) =>
          let c := setCatchers
                     (filter (fun x => negb (Nat.eqb (fst x) src && Nat.eqb (snd x) tgt))
                             (catchers c)) c in
          runCatchers rest (settle tgt (Reject e) c)
      | Some (Resolve _) =>
          let c := setCatchers
                     (filter (fun x => negb (Nat.eqb (fst x) src && Nat.eqb (snd x) tgt))
                             (catchers c)) c in
          runCatchers rest c
      | None => runCatchers rest c
      end
  end.

Definition microtasks (c : client) : client := runCatchers (catchers c) c.

(** One callback from the event loop's queue.  [Responses] is the
    ['data'] handler of the control socket on a client that has logged
    in, where every line is emitted in turn.  On a client that has not,
    the handler stops at a line with code 220 to log in; that is followed
    by [Login.loop], and the statements about [Responses] are made for
    clients with [authenticated] set. *)
Definition task (e : event) (c : client) : client :=
  match e with
  | Responses lines => fold_left (fun c line => emit line c) lines c
  | TimerFires id =>
      match lookup id (timers c) with
      | None => c
      | Some a => runTimer a (clearTimeout id c)
      end
  | DataConnected s => onDataConnect s c
  | DataReceived s chunk => onDataChunk s chunk c
  | DataFailed s err => onDataError s err c
  | DataClosed s => onDataClose s c
  end.

(** A callback followed by the promise reactions it has made ready. *)
Definition step (e : event) (c : client) : client := microtasks (task e c).

Definition run (es : list event) (c : client) : client :=
  fold_left (fun c e => step e c) es c.

(** The ['data'] handler of the control socket in a session that has
    logged in.  While [authenticated] is false a line with code 220 starts
    the login exchange of [connect], which is outside this model: [None]. *)
Definition isGreeting (line : string) : bool :=
  eqN (parseInt (substring line 0 3)) 220.

Definition onData (data : string) (c : client) : option client :=
  let '(lines, rest) := Framer.frame (buffer c) data in
  if negb (authenticated c) && existsb isGreeting lines then None
  else Some (step (Responses lines) (setBuffer rest c)).

(** A session that has connected and logged in, with nothing pending. *)
Definition session : client :=
  mkClient EmptyString true true 2 (Some "PASS anonymous@") [] [] 0 0 [] [] [] [] 0.

(** *** Vocabulary for the statements *)

(** A connected channel with nothing pending: no listener, no armed timer,
    no promise reaction, and every promise settled so far already created. *)
Definition quiet (c : client) : Prop :=
  connected c = true
  /\ listeners c = []
  /\ timers c = []
  /\ catchers c = []
  /\ (forall e, In e (settled c) -> fst e < nextPromise c).

Definition replyCode (line : string) : option Z := parseInt (substring line 0 3).

Definition replyMessage (line : string) : string := substringFrom line 4.

(** The fourth character is a space: the last line of a reply. *)
Definition terminal (line : string) : bool := String.eqb (charAt line 3) " ".

(** The fourth character is a hyphen: a line of a reply still open. *)
Definition continuation (line : string) : bool := String.eqb (charAt line 3) "-".

Definition preliminary (line : string) : bool :=
  geN (replyCode line) 100 && ltN (replyCode line) 200.

(** The lines that settle a command sent with [allowPreliminary]. *)
Definition resolving (allowPreliminary : bool) (line : string) : bool :=
  terminal line && negb (preliminary line && allowPreliminary).

(** What a settling line settles the command with. *)
Definition verdict (line : string) : settlement :=
  if geN (replyCode line) 200 && ltN (replyCode line) 400
  then Resolve (VResponse (mkResponse (replyCode line) (replyMessage line) line))
  else Reject (ftpError (replyCode line) (replyMessage line)).

(** The text of the error of a command that timed out. *)
Definition timeoutError (command : string) : string :=
  "Command timeout: " ++ Utils.maskPassword command.

(** Events of the control channel alone. *)
Definition controlEvent (e : event) : Prop :=
  match e with
  | Responses _ | TimerFires _ => True
  | _ => False
  end.

Definition armed (t : nat) (c : client) : bool :=
  existsb (fun e => Nat.eqb (fst e) t) (timers c).

(** What the events of the control channel make of one pending command,
    read off the events alone: the first settling line settles it, the
    command's own timer rejects it if it is still armed, and any line at
    all disarms that timer. *)
Fixpoint resolution (allowPreliminary : bool) (timeoutId : nat) (msg : string)
    (isArmed : bool) (es : list event) : option settlement :=
  match es with
  | [] => None
  | Responses lines :: rest =>
      match find (resolving allowPreliminary) lines with
      | Some line => Some (verdict line)
      | None =>
          resolution allowPreliminary timeoutId msg
            (isArmed && match lines with [] => true | _ => false end) rest
      end
  | TimerFires id :: rest =>
      if isArmed && Nat.eqb id timeoutId then Some (Reject msg)
      else resolution allowPreliminary timeoutId msg isArmed rest
  | _ :: rest => resolution allowPreliminary timeoutId msg isArmed rest
  end.

(** The handler of another command, with another timer. *)
Definition otherCommand (p t : nat) (h' : listener) : Prop :=
  exists q t' a', h' = responseHandler q t' a' /\ q <> p /\ t' <> t.

(** The state a pending command is in, as far as the other listeners and
    timers of the channel are concerned: its handler [h] is registered, its
    promise has no settlement yet, every other listener is the handler of
    another command with another timer, and every timer is a command
    timeout, the one numbered [t] being this command's. *)
Definition pendingCommand (p t : nat) (a : bool) (msg : string) (c : client)
  : Prop :=
  let h := responseHandler p t a in
  In h (listeners c)
  /\ (forall h', In h' (listeners c) -> h' <> h -> otherCommand p t h')
  /\ (forall e, In e (settled c) -> fst e <> p)
  /\ (forall id act, In (id, act) (timers c) ->
        (id = t /\ act = commandTimeout h msg p)
        \/ (id <> t /\ exists h' msg' q,
              act = commandTimeout h' msg' q /\ h' <> h /\ q <> p))
  /\ catchers c = [].

(** Settlements are only ever appended: [c'] has those of [c] and more. *)
Definition extends (c c' : client) : Prop :=
  exists l, settled c' = (settled c ++ l)%list.

(** C2 as stated, first half: a second send on a channel with a command
    pending is refused. *)
Definition secondSendIsRefused : Prop :=
  forall c command1 a1 command2 a2,
    quiet c ->
    authenticated c = true ->
    let '(_, c1) := _sendCommand command1 a1 c in
    let '(p2, c2) := _sendCommand command2 a2 c1 in
    exists msg, outcome c2 p2 = Some (Reject msg).

(** C6 as stated: hyphen lines followed by a space line settle the pending
    command exactly once. *)
Definition multilineReplySettlesOnce : Prop :=
  forall c command a lines final,
    quiet c ->
    authenticated c = true ->
    lines <> [] ->
    Forall (fun l => continuation l = true) lines ->
    terminal final = true ->
    let '(p, c1) := _sendCommand command a c in
    settleCalls (run [Responses (lines ++ [final])%list] c1) p = 1.

(** C9 as stated: a line whose first three characters are not a number
    makes the pending command fail. *)
Definition nonNumericLineFails : Prop :=
  forall c command a line,
    quiet c ->
    replyCode line = None ->
    let '(p, c1) := _sendCommand command a c in
    exists msg, outcome (run [Responses [line]] c1) p = Some (Reject msg).

(** C1 as stated: a transfer whose data channel closes without a byte and
    whose control channel then delivers [550 No such file], before the
    timer armed at the close fires, is rejected. *)
Definition emptyTransferWith550Fails : Prop :=
  forall r k path data,
    let '(p, s, c) := startTransfer r k path data session in
    let c' := run [DataConnected s; DataClosed s;
                   Responses ["550 No such file"]] c in
    forall later,
      exists msg, outcome (run later c') p = Some (Reject msg).

End Client.

(* ================================================================== *)
(** ** Passive mode: [_enterPassiveMode] *)
(* ================================================================== *)

Module Passive.
Import JS Client.

(** The outcome of an awaited promise: its value, or the message of the
    error it was rejected with. *)
Inductive result (A : Type) : Type :=
| Ok (a : A)
| Err (msg : string).
Arguments Ok {A} a.
Arguments Err {A} msg.

Record endpoint : Type := mkEndpoint {
  host : string;
  port : double
}.

(** The longest run of decimal digits at the head of a string, and what
    follows it. *)
Fixpoint digitRun (s : string) : string * string :=
  match s with
  | EmptyString => (EmptyString, EmptyString)
  | String c s' =>
      if isDigit c
      then let '(d, r) := digitRun s' in (String c d, r)
      else (EmptyString, s)
  end.

(** [(\d+)] followed by the literal character [stop]. *)
Definition group (stop : ascii) (s : string) : option (string * string) :=
  let '(d, r) := digitRun s in
  match d, r with
  | String _ _, String c r' => if Ascii.eqb c stop then Some (d, r') else None
  | _, _ => None
  end.

(** The pattern [\((\d+),(\d+),(\d+),(\d+),(\d+),(\d+)\)] anchored at the
    head of a string. *)
Definition matchHere (s : string) : option (list string) :=
  match s with
  | String c r0 =>
      if Ascii.eqb c "("%char then
        match group ","%char r0 with
        | Some (g1, r1) =>
        match group ","%char r1 with
        | Some (g2, r2) =>
        match group ","%char r2 with
        | Some (g3, r3) =>
        match group ","%char r3 with
        | Some (g4, r4) =>
        match group ","%char r4 with
        | Some (g5, r5) =>
        match group ")"%char r5 with
        | Some (g6, _) => Some [g1; g2; g3; g4; g5; g6]
        | None => None end
        | None => None end
        | None => None end
        | None => None end
        | None => None end
        | None => None end
      else None
  | EmptyString => None
  end.

(** [message.match(...)]: the leftmost match. *)
Fixpoint matchPassive (s : string) : option (list string) :=
  match matchHere s with
  | Some g => Some g
  | None =>
      match s with
      | EmptyString => None
      | String _ s' => matchPassive s'
      end
  end.

(** The body of [_enterPassiveMode] after [await this._sendCommand('PASV')]
    has given [awaited]. *)
Definition _enterPassiveMode (awaited : result response) : result endpoint :=
  match awaited with
  | Err e => Err e
  | Ok response =>
      match matchPassive (message response) with
      | Some [m1; m2; m3; m4; m5; m6] =>
          Ok (mkEndpoint (m1 ++ "." ++ m2 ++ "." ++ m3 ++ "." ++ m4)
                         (addD (mulD (toDouble (parseInt m5)) 256)
                               (toDouble (parseInt m6))))
      | _ => Err "Failed to parse PASV response"
      end
  end.

(** The six-group pattern written out. *)
Definition sixGroups (g1 g2 g3 g4 g5 g6 : string) : string :=
  "(" ++ g1 ++ "," ++ g2 ++ "," ++ g3 ++ "," ++ g4 ++ "," ++ g5 ++ "," ++ g6 ++ ")".

Fixpoint allDigits (s : string) : bool :=
  match s with
  | EmptyString => true
  | String c s' => isDigit c && allDigits s'
  end.

(** A non-empty string of decimal digits. *)
Definition number (s : string) : bool := nonEmpty s && allDigits s.

(** The value of a string of decimal digits. *)
Fixpoint decimal (acc : Z) (s : string) : Z :=
  match s with
  | EmptyString => acc
  | String c s' => decimal (10 * acc + Z.of_nat (nat_of_ascii c - 48)) s'
  end.

(** The message [s] holds the six-group pattern with the groups [g],
    after [pre] and before [post]. *)
Definition occurrence (s pre : string) (g : list string) (post : string) : Prop :=
  match g with
  | [g1; g2; g3; g4; g5; g6] =>
      s = pre ++ sixGroups g1 g2 g3 g4 g5 g6 ++ post
      /\ forallb number g = true
  | _ => False
  end.

(** The port that six groups of digits stand for, as an integer. *)
Definition portOf (g : list string) : Z :=
  match g with
  | [_; _; _; _; g5; g6] => (decimal 0 g5 * 256 + decimal 0 g6)%Z
  | _ => 0%Z
  end.

(** The host that six groups of digits stand for. *)
Definition hostOf (g : list string) : string :=
  match g with
  | [g1; g2; g3; g4; _; _] => g1 ++ "." ++ g2 ++ "." ++ g3 ++ "." ++ g4
  | _ => EmptyString
  end.

(** The endpoint that six groups of digits stand for. *)
Definition endpointOf (g : list string) : endpoint :=
  mkEndpoint (hostOf g) (Whole (portOf g)).

End Passive.

(* ================================================================== *)
(** ** lib/commands.js: the commands built on [sendCommand] *)
(* ================================================================== *)

Module Commands.
Import JS Utils Client Passive.

(** [{ exists, size, isFile, isDirectory }]; [None] is [null], and a size
    is a number that may be [NaN]. *)
Record info : Type := mkInfo {
  exists_ : bool;
  size_ : option double;
  isFile : option bool;
  isDirectory : option bool
}.

(** [/"(.+)"/]: the text after an opening quote, up to the last quote that
    [.+] can reach ([.] matches no line terminator). *)
Fixpoint beforeLastQuote (s : string) : option string :=
  match s with
  | EmptyString => None
  | String c s' =>
      if Ascii.eqb c LF || Ascii.eqb c CR then None
      else
        match beforeLastQuote s' with
        | Some t => Some (String c t)
        | None => if Ascii.eqb c QUOTE then Some EmptyString else None
        end
  end.

Fixpoint matchQuoted (s : string) : option string :=
  match s with
  | EmptyString => None
  | String c s' =>
      if Ascii.eqb c QUOTE
      then match beforeLastQuote s' with
           | Some (String a t) => Some (String a t)
           | _ => matchQuoted s'
           end
      else matchQuoted s'
  end.

(** [/\.[^./\\]+$/.test(path)]: a dot followed, up to the end, by one or
    more characters none of which is a dot, a slash or a backslash. *)
Fixpoint extensionChars (s : string) : bool :=
  match s with
  | EmptyString => true
  | String c s' =>
      negb (Ascii.eqb c "."%char || Ascii.eqb c "/"%char || Ascii.eqb c "\"%char)
      && extensionChars s'
  end.

Fixpoint hasExtension (s : string) : bool :=
  match s with
  | EmptyString => false
  | String c s' =>
      (Ascii.eqb c "."%char && nonEmpty s' && extensionChars s')
      || hasExtension s'
  end.

Section Layer.

(** The connection and the server behind it, as the command layer sees
    them: [sendCommand] is the awaited outcome of
    [this.connection.sendCommand(command)] (lib/connection.js is not among
    the sources), [listDir] the awaited outcome of [this.list(path)]. *)
Variable world : Type.
Variable sendCommand : string -> world -> result response * world.
Variable listDir : string -> world -> result string * world.

(** The state threaded through a command: the world and the commands sent
    so far, oldest first. *)
Definition state : Type := world * list string.

Definition M (A : Type) : Type := state -> result A * state.

Definition ret {A : Type} (a : A) : M A := fun st => (Ok a, st).

Definition throw {A : Type} (msg : string) : M A := fun st => (Err msg, st).

Definition bind {A B : Type} (m : M A) (k : A -> M B) : M B :=
  fun st =>
    match m st with
    | (Ok a, st') => k a st'
    | (Err e, st') => (Err e, st')
    end.

(** [try { m } catch (err) { handler(err.message) }] *)
Definition tryCatch {A : Type} (m : M A) (handler : string -> M A) : M A :=
  fun st =>
    match m st with
    | (Ok a, st') => (Ok a, st')
    | (Err e, st') => handler e st'
    end.

(** Run [m] and hand its outcome on without throwing. *)
Definition attempt {A : Type} (m : M A) : M (result A) :=
  fun st => let '(r, st') := m st in (Ok r, st').

Local Notation "x <- m ;; k" := (bind m (fun x => k))
  (at level 61, m at next level, right associativity).

Definition send (command : string) : M response :=
  fun st =>
    let '(r, w) := sendCommand command (fst st) in
    (r, (w, (snd st ++ [command])%list)).

Definition awaitList (path : string) : M string :=
  fun st => let '(r, w) := listDir path (fst st) in (r, (w, snd st)).

Definition cd (path : string) : M unit :=
  _ <- send ("CWD " ++ path) ;; ret tt.

Definition pwd : M string :=
  response <- send "PWD" ;;
  ret (match matchQuoted (message response) with
       | Some dir => dir
       | None => "/"
       end).

Definition mkdir (path : string) : M unit :=
  _ <- send ("MKD " ++ path) ;; ret tt.

Definition size (path : string) : M double :=
  response <- send ("SIZE " ++ path) ;;
  ret (toDouble (parseInt (message response))).

(** [path.split('/').pop()] *)
Definition basename (path : string) : string :=
  match fst (pop (split path "/")) with
  | Some b => b
  | None => "undefined"
  end.

Definition stat (path : string) : M info :=
  tryCatch
    (size <- size path ;;
     ret (mkInfo true (Some size) (Some true) (Some false)))
    (fun _ =>
       tryCatch
         (currentDir <- pwd ;;
          _ <- cd path ;;
          _ <- cd currentDir ;;
          ret (mkInfo true None (Some false) (Some true)))
         (fun _ =>
            tryCatch
              (let dir := getParentDir path in
               let basename := basename path in
               listing <- awaitList dir ;;
               let found :=
                 existsb (fun line => includes line basename)
                         (split listing (String LF EmptyString)) in
               ret (mkInfo found None None None))
              (fun _ => ret (mkInfo false None None None)))).

(** The three commands of the directory probe in [stat]. *)
Definition probeDirectory (path : string) : M unit :=
  currentDir <- pwd ;;
  _ <- cd path ;;
  cd currentDir.

(** What [stat] makes of the listing of the parent directory. *)
Definition foundIn (listing path : string) : bool :=
  existsb (fun line => includes line (basename path))
          (split listing (String LF EmptyString)).

Definition exists_at (path : string) : M bool :=
  info <- stat path ;; ret (exists_ info).

(** [ensureDir].  The two texts of lib/commands.js differ in how they
    decide that the path names a file: the first takes the argument
    [isFilePath], the second ([autoDetect]) tests the path for an
    extension.  [fuel] bounds the depth of the recursion on the parent
    directory; [None] is returned when it runs out. *)
Fixpoint ensureDir_fuel (fuel : nat) (autoDetect : bool) (path : string)
    (recursive isFilePath : bool) : M (option unit) :=
  match fuel with
  | O => ret None
  | S fuel' =>
      let isFilePath := if autoDetect then hasExtension path else isFilePath in
      let targetPath := if isFilePath then getParentDir path else path in
      if negb (nonEmpty targetPath) || String.eqb targetPath "."
         || String.eqb targetPath "/"
      then ret (Some tt)
      else
        let normalized := normalizePath targetPath in
        if String.eqb normalized "/" || String.eqb normalized "."
        then ret (Some tt)
        else
          probe <- attempt (cd normalized) ;;
          match probe with
          | Ok _ => ret (Some tt)
          | Err _ =>
              parents <-
                (if recursive then
                   let cut := substring normalized 0
                                (lastIndexOf normalized "/"%char) in
                   let parentDir := if nonEmpty cut then cut else "/" in
                   if negb (String.eqb parentDir "/")
                      && negb (String.eqb parentDir ".")
                   then ensureDir_fuel fuel' autoDetect parentDir true false
                   else ret (Some tt)
                 else ret (Some tt)) ;;
              match parents with
              | None => ret None
              | Some _ =>
                  made <- attempt (mkdir normalized) ;;
                  match made with
                  | Ok _ => ret (Some tt)
                  | Err msg =>
                      if negb (includes msg "550")
                         && negb (includes msg "exists")
                      then throw msg
                      else ret (Some tt)
                  end
              end
          end
  end.

(** A path of length [n] has fewer than [n] ancestors, so this fuel never
    runs out (see [ensureDir_fuel_enough]). *)
Definition ensureDir (autoDetect : bool) (path : string)
    (recursive isFilePath : bool) : M (option unit) :=
  ensureDir_fuel (S (String.length path)) autoDetect path recursive isFilePath.

(** The creation attempts among the commands sent. *)
Definition creations (sent : list string) : list string :=
  filter (fun command => startsWith command "MKD ") sent.

(** The outcomes of [mkdir] after which [ensureDir] carries on: success,
    or an error whose message holds [550] or [exists]. *)
Definition tolerated {A : Type} (r : result A) : bool :=
  match r with
  | Ok _ => true
  | Err msg => includes msg "550" || includes msg "exists"
  end.

Definition missingDirs : list string := ["/a"; "/a/b"; "/a/b/c"].

(** What [ensureDir] ends with after a creation whose outcome it does not
    carry on from: the error of the creation, thrown on. *)
Definition rethrown {A : Type} (r : result A) : result (option unit) :=
  match r with
  | Ok _ => Ok (Some tt)
  | Err msg => Err msg
  end.

End Layer.

(** Two servers without state on which no directory can be entered: on the
    first every other command succeeds, on the second every other command
    is refused with code 421. *)
Definition obligingServer (command : string) (w : unit) : result response * unit :=
  if startsWith command "CWD "
  then (Err "FTP Error 550: No such directory", tt)
  else (Ok (mkResponse (Some 257%Z) "Done" "257 Done"), tt).

Definition refusingServer (command : string) (w : unit) : result response * unit :=
  if startsWith command "CWD "
  then (Err "FTP Error 550: No such directory", tt)
  else (Err "FTP Error 421: Service not available", tt).

(** C8 as stated: whenever the probes of the three directories fail, the
    creation attempts are the three directories, parents first. *)
Definition ensureDirCreatesAllThree : Prop :=
  forall (world : Type)
         (sendCommand : string -> world -> result response * world)
         (autoDetect : bool) (w : world),
    (forall w p, In p missingDirs ->
       exists e w', sendCommand ("CWD " ++ p) w = (Err e, w')) ->
    creations (snd (snd (ensureDir world sendCommand autoDetect "/a/b/c"
                           true false (w, []))))
    = ["MKD /a"; "MKD /a/b"; "MKD /a/b/c"].

End Commands.

(* ================================================================== *)
(** ** lib/utils.js: [parseMdtmResponse] *)
(* ================================================================== *)

Module Mdtm.
Import JS Passive.

(** The six arguments that [parseMdtmResponse] hands to [Date.UTC]; what
    it returns is [new Date(Date.UTC(...))] of them.  [None] is [NaN]. *)
Record utc : Type := mkUtc {
  year : option Z;
  month : option Z;
  day : option Z;
  hour : option Z;
  minute : option Z;
  second : option Z
}.

(** [\d{n}] at the head of a string. *)
Fixpoint digitsHere (n : nat) (s : string) : bool :=
  match n with
  | O => true
  | S n' =>
      match s with
      | String c s' => isDigit c && digitsHere n' s'
      | EmptyString => false
      end
  end.

(** [message.match(/(\d{14})/)]: the leftmost fourteen digits in a row. *)
Fixpoint matchTimestamp (s : string) : option string :=
  if digitsHere 14 s then Some (substring s 0 14)
  else
    match s with
    | EmptyString => None
    | String _ s' => matchTimestamp s'
    end.

Definition subN (a : option Z) (k : Z) : option Z :=
  option_map (fun z => (z - k)%Z) a.

Definition parseMdtmResponse (message : string) : result utc :=
  match matchTimestamp message with
  | None => Err "Failed to parse MDTM response"
  | Some str =>
      let year := parseInt (substring str 0 4) in
      let month := subN (parseInt (substring str 4 6)) 1 in
      let day := parseInt (substring str 6 8) in
      let hour := parseInt (substring str 8 10) in
      let minute := parseInt (substring str 10 12) in
      let second := parseInt (substring str 12 14) in
      Ok (mkUtc year month day hour minute second)
  end.

(** A string without a decimal digit. *)
Fixpoint noDigit (s : string) : bool :=
  match s with
  | EmptyString => true
  | String c s' => negb (isDigit c) && noDigit s'
  end.

(** Decimal digits, exactly [n] of them. *)
Definition digits (n : nat) (s : string) : bool :=
  Nat.eqb (String.length s) n && allDigits s.

End Mdtm.

(* ================================================================== *)
(** ** lib/commands.js: reading a directory listing *)
(* ================================================================== *)

Module Listing.
Import JS.

(** [s.trim()]: white space and line terminators are removed at both
    ends. *)
Fixpoint trimEnd (s : string) : string :=
  match s with
  | EmptyString => EmptyString
  | String c s' =>
      match trimEnd s' with
      | EmptyString => if isWhiteSpace c then EmptyString else String c EmptyString
      | t => String c t
      end
  end.

Definition trim (s : string) : string := trimEnd (trimStart s).

(** [s.split(/\s+/)]: the pieces between the maximal runs of white space;
    [inRun] tells that the character before was white space. *)
Fixpoint splitSpaces_from (inRun : bool) (s : string) : list string :=
  match s with
  | EmptyString => [EmptyString]
  | String c s' =>
      if isWhiteSpace c
      then if inRun then splitSpaces_from true s'
           else EmptyString :: splitSpaces_from true s'
      else cons_head c (splitSpaces_from false s')
  end.

Definition splitSpaces (s : string) : list string := splitSpaces_from false s.

(** [parts[parts.length - 1]]; [splitSpaces] never returns an empty
    array. *)
Definition lastPart (parts : list string) : string := last parts EmptyString.

(** *** The pattern of [listDetailed] *)

(** A pattern is a function of what follows it: [k] is tried on what is
    left of the subject, and the pattern fails where [k] fails on every
    way of matching it. *)
Section Patterns.
Context {A : Type}.

(** [c+] for a class of characters [c]: as many as possible first, then
    fewer. *)
Fixpoint plus (class : ascii -> bool) (k : string -> option A) (s : string)
  : option A :=
  match s with
  | EmptyString => None
  | String c s' =>
      if class c
      then match plus class k s' with
           | Some r => Some r
           | None => k s'
           end
      else None
  end.

(** [c{n}] *)
Fixpoint times (n : nat) (class : ascii -> bool) (k : string -> option A)
    (s : string) : option A :=
  match n with
  | O => k s
  | S n' =>
      match s with
      | EmptyString => None
      | String c s' => if class c then times n' class k s' else None
      end
  end.

(** [(p)]: the text that [p] has matched is handed on with what is left. *)
Definition capture (p : (string -> option A) -> string -> option A)
    (k : string -> string -> option A) (s : string) : option A :=
  p (fun rest =>
       k (String.substring 0 (String.length s - String.length rest) s) rest) s.

(** [$] without the [m] flag: the end of the subject. *)
Definition atEnd (r : A) (s : string) : option A :=
  match s with
  | EmptyString => Some r
  | String _ _ => None
  end.

End Patterns.

(** [[drwxlst-]] *)
Definition permissionChar (c : ascii) : bool :=
  existsb (Ascii.eqb c) ["d"; "r"; "w"; "x"; "l"; "s"; "t"; "-"]%char.

(** [\S] *)
Definition nonSpace (c : ascii) : bool := negb (isWhiteSpace c).

(** [.]: any character but a line terminator. *)
Definition dot (c : ascii) : bool := negb (Ascii.eqb c LF || Ascii.eqb c CR).

(** [\S+\s+\S+\s+\S+] *)
Definition threeWords {A : Type} (k : string -> option A) : string -> option A :=
  plus nonSpace (plus isWhiteSpace (plus nonSpace (plus isWhiteSpace
    (plus nonSpace k)))).

(** [line.match(/^([drwxlst-]{10})\s+(\d+)\s+(\S+)\s+(\S+)\s+(\d+)\s+(\S+\s+\S+\s+\S+)\s+(.+)$/)]:
    the seven groups of the match. *)
Definition matchListLine (line : string) : option (list string) :=
  capture (times 10 permissionChar) (fun perms =>
  plus isWhiteSpace (
  capture (plus isDigit) (fun links =>
  plus isWhiteSpace (
  capture (plus nonSpace) (fun owner =>
  plus isWhiteSpace (
  capture (plus nonSpace) (fun group =>
  plus isWhiteSpace (
  capture (plus isDigit) (fun size =>
  plus isWhiteSpace (
  capture threeWords (fun date =>
  plus isWhiteSpace (
  capture (plus dot) (fun name =>
  atEnd [perms; links; owner; group; size; date; name])))))))))))))
  line.

Inductive entryType : Type := directory | symlink | file | unknown.

(** One object of the array [listDetailed] returns; a field that the
    object does not have is [None]. *)
Record entry : Type := mkEntry {
  name : string;
  type : entryType;
  permissions : option string;
  owner : option string;
  group : option string;
  size : option double;
  date : option string;
  raw : string
}.

(** The callback of [lines.map] in [listDetailed]. *)
Definition parseListLine (line : string) : entry :=
  match matchListLine line with
  | Some [perms; links; owner; group; size; date; name] =>
      mkEntry name
        (if String.eqb (charAt perms 0) "d" then directory
         else if String.eqb (charAt perms 0) "l" then symlink
         else file)
        (Some perms) (Some owner) (Some group)
        (Some (toDouble (parseInt size)))
        (Some date) line
  | _ =>
      let parts := splitSpaces (trim line) in
      mkEntry (lastPart parts) unknown None None None None None line
  end.

(** The lines [listDetailed] keeps of a listing. *)
Definition detailedLines (listing : string) : list string :=
  filter (fun line => nonEmpty (trim line) && negb (startsWith line "total"))
         (split listing (String LF EmptyString)).

(** The entries [listDetailed] returns for a listing. *)
Definition detailedEntries (listing : string) : list entry :=
  filter (fun item =>
            nonEmpty (name item)
            && negb (String.eqb (name item) ".")
            && negb (String.eqb (name item) ".."))
         (map parseListLine (detailedLines listing)).

(** A line is made of its characters and a carriage return. *)
Definition endsWithCR (line : string) : Prop :=
  exists l, line = l ++ String CR EmptyString.

(** A listing of a directory and a file, its lines ended by a carriage
    return and a line feed. *)
Definition crlfListing : string :=
  "total 8" ++ CRLF
  ++ "drwxr-xr-x 2 ftp ftp 4096 Jan 01 2026 docs" ++ CRLF
  ++ "-rw-r--r-- 1 ftp ftp 12 Jan 01 2026 a.txt" ++ CRLF.

(** Non-empty text of one class of characters. *)
Fixpoint allOf (class : ascii -> bool) (s : string) : bool :=
  match s with
  | EmptyString => true
  | String c s' => class c && allOf class s'
  end.

Definition word (class : ascii -> bool) (s : string) : bool :=
  nonEmpty s && allOf class s.

End Listing.

(* ================================================================== *)
(** ** lib/commands.js: removal, permissions and times *)
(* ================================================================== *)

Module FileCommands.
Import JS Utils Client Passive Commands Mdtm Listing.

(** *** [chmod]: the mode *)

(** The argument [mode]: a number or a string.  The numbers are the
    integers that a double holds exactly, those of absolute value below
    2^53; for these [toString(8)] gives the octal digits and a template
    string the plain decimal digits. *)
Inductive mode : Type :=
| NumberMode (n : Z) (held : safe n = true)
| StringMode (s : string).

Definition isOctalDigit (c : ascii) : bool :=
  let n := nat_of_ascii c in (48 <=? n)%nat && (n <=? 55)%nat.

(** [String(mode).replace(/[^0-7]/g, '')] *)
Fixpoint keepOctal (s : string) : string :=
  match s with
  | EmptyString => EmptyString
  | String c s' => if isOctalDigit c then String c (keepOctal s') else keepOctal s'
  end.

(** [/^[0-7]{3,4}$/.test(s)] *)
Definition isOctalMode (s : string) : bool :=
  allOf isOctalDigit s
  && (3 <=? String.length s)%nat && (String.length s <=? 4)%nat.

(** The octal digits of a number that is not negative, the most
    significant first; [fuel] bounds their number. *)
Fixpoint octalDigits (fuel : nat) (n : Z) : string :=
  match fuel with
  | O => EmptyString
  | S fuel' =>
      let d := String (ascii_of_nat (48 + Z.to_nat (n mod 8))) EmptyString in
      if (n <? 8)%Z then d else octalDigits fuel' (n / 8) ++ d
  end.

(** [n.toString(8)] for an integer [n]; a number below [2^k] has at most
    [k] octal digits. *)
Definition toOctal (n : Z) : string :=
  if (n <? 0)%Z
  then "-" ++ octalDigits (S (Z.to_nat (Z.log2 (- n)))) (- n)
  else octalDigits (S (Z.to_nat (Z.log2 n))) n.

(** [`${mode}`] *)
Definition showMode (m : mode) : string :=
  match m with
  | NumberMode n _ => showNumber (Some n)
  | StringMode s => s
  end.

Definition modeString (m : mode) : string :=
  match m with
  | NumberMode n _ => toOctal n
  | StringMode s => keepOctal s
  end.

Definition invalidMode (m : mode) : string :=
  "Invalid chmod mode: " ++ showMode m
  ++ ". Use octal format like '755' or 0755".

(** *** [removeDir]: the lines of a listing *)

(** The lines of the listing that [removeDir] goes through. *)
Definition removalLines (listing : string) : list string :=
  filter (fun line => nonEmpty (trim line))
         (split listing (String LF EmptyString)).

(** The name [removeDir] reads off a line. *)
Definition entryName (line : string) : string :=
  lastPart (splitSpaces (trim line)).

(** The lines [removeDir] passes over. *)
Definition skipped (line : string) : bool :=
  negb (nonEmpty line) || includes line " ." || includes line " .."
  || String.eqb (entryName line) "." || String.eqb (entryName line) "..".

(** [`${path}/${name}`.replace(/\/+/g, '/')] *)
Definition fullPath (path name : string) : string :=
  collapseSlashes (path ++ "/" ++ name).

(** The [DELE] commands for the lines that are not passed over. *)
Definition deletions (path : string) (lines : list string) : list string :=
  map (fun line => "DELE " ++ fullPath path (entryName line))
      (filter (fun line => negb (skipped line)) lines).

Section Layer.

Variable world : Type.
Variable sendCommand : string -> world -> result response * world.
Variable listDir : string -> world -> result string * world.

Local Abbreviation M := (Commands.M world).
Local Abbreviation ret := (Commands.ret world).
Local Abbreviation throw := (Commands.throw world).
Local Abbreviation tryCatch := (Commands.tryCatch world).
Local Abbreviation send := (Commands.send world sendCommand).
Local Abbreviation awaitList := (Commands.awaitList world listDir).

Local Notation "x <- m ;; k" := (Commands.bind world m (fun x => k))
  (at level 61, m at next level, right associativity).

Definition delete (path : string) : M unit :=
  _ <- send ("DELE " ++ path) ;; ret tt.

Definition site (command : string) : M response :=
  send ("SITE " ++ command).

Definition chmod (path : string) (m : mode) : M unit :=
  let modeStr := modeString m in
  if negb (isOctalMode modeStr) then throw (invalidMode m)
  else _ <- send ("SITE CHMOD " ++ modeStr ++ " " ++ path) ;; ret tt.

Definition modifiedTime (path : string) : M utc :=
  response <- send ("MDTM " ++ path) ;;
  match parseMdtmResponse (message response) with
  | Ok date => ret date
  | Err msg => throw msg
  end.

(** [exists] of the single-file client: the path exists when [SIZE]
    succeeds. *)
Definition exists_by_size (path : string) : M bool :=
  tryCatch (_ <- Commands.size world sendCommand path ;; ret true)
           (fun _ => ret false).

Definition listDetailed (path : string) : M (list entry) :=
  listing <- awaitList path ;; ret (detailedEntries listing).

(** [for (const line of lines) { ... }]; [None] is handed on when the
    fuel of a removal in the body has run out. *)
Fixpoint forEach (lines : list string) (body : string -> M (option unit))
  : M (option unit) :=
  match lines with
  | [] => ret (Some tt)
  | line :: rest =>
      r <- body line ;;
      match r with
      | None => ret None
      | Some _ => forEach rest body
      end
  end.

(** The body of the loop of [removeDir] over the lines of the listing;
    [removeDir] is the function itself, for the directories among them. *)
Definition removeEntry (removeDir : string -> bool -> M (option unit))
    (path line : string) : M (option unit) :=
  if negb (nonEmpty line) || includes line " ." || includes line " .."
  then ret (Some tt)
  else
    let parts := splitSpaces (trim line) in
    let name := lastPart parts in
    if String.eqb name "." || String.eqb name ".."
    then ret (Some tt)
    else
      let fullPath := collapseSlashes (path ++ "/" ++ name) in
      let isDir := startsWith line "d" in
      if isDir then removeDir fullPath true
      else
        tryCatch (_ <- delete fullPath ;; ret (Some tt))
                 (fun _ => ret (Some tt)).

(** [removeDir].  [fuel] bounds the depth of the directories entered;
    [None] is returned when it runs out. *)
Fixpoint removeDir_fuel (fuel : nat) (path : string) (recursive : bool)
  : M (option unit) :=
  match fuel with
  | O => ret None
  | S fuel' =>
      if negb recursive
      then _ <- send ("RMD " ++ path) ;; ret (Some tt)
      else
        tryCatch
          (listing <- awaitList path ;;
           let lines := removalLines listing in
           done <- forEach lines (removeEntry (removeDir_fuel fuel') path) ;;
           match done with
           | None => ret None
           | Some _ => _ <- send ("RMD " ++ path) ;; ret (Some tt)
           end)
          (fun msg =>
             throw ("Failed to remove directory " ++ path ++ ": " ++ msg))
  end.

End Layer.

End FileCommands.

(* ================================================================== *)
(** ** Vocabulary for the statements about transfers *)
(* ================================================================== *)

Module TransferTerms.
Import JS Client.

(** The closure of a transfer after [chunks.push(chunk)] for each chunk
    of [more]. *)
Definition pushed (more : list string) (t : transfer) : transfer :=
  mkTransfer (t_release t) (t_kind t) (t_path t) (t_data t) (t_promise t)
    (t_chunks t ++ more)%list (t_commandSent t) (t_dataWritten t).

(** A line with one of the codes the final handler resolves on. *)
Definition completion (line : string) : bool :=
  eqN (replyCode line) 226 || eqN (replyCode line) 250.

(** What the data socket of a download or a listing delivers. *)
Definition received (socket : nat) (chunks : list string) : list event :=
  map (DataReceived socket) chunks.

(** The bytes a transfer of kind [k] has collected from [chunks]: an
    upload installs no ['data'] callback. *)
Definition collected (k : kind) (chunks : list string) : list string :=
  match k with
  | Upload => []
  | _ => chunks
  end.

End TransferTerms.

(* ================================================================== *)
(** ** Vocabulary for the statements about [ensureDir] *)
(* ================================================================== *)

Module EnsureDirTerms.
Import JS Utils Commands.

(** The directory [ensureDir] sets out to ensure: the parent of the path
    when the path is taken for a file, the path itself otherwise. *)
Definition ensureTarget (autoDetect : bool) (path : string) (isFilePath : bool)
  : string :=
  if (if autoDetect then hasExtension path else isFilePath)
  then getParentDir path else path.

(** [q] is [p] cut at one of its slashes. *)
Definition ancestorOf (q p : string) : Prop :=
  exists x, p = q ++ String "/" x.

(** Each path of the list is an ancestor of the one before it. *)
Fixpoint descending (l : list string) : Prop :=
  match l with
  | a :: r =>
      match r with
      | b :: _ => ancestorOf b a /\ descending r
      | [] => True
      end
  | [] => True
  end.

(** [l] begins with [made]. *)
Definition startOf (made l : list string) : Prop :=
  exists rest, l = (made ++ rest)%list.

Definition CWD (path : string) : string := "CWD " ++ path.
Definition MKD (path : string) : string := "MKD " ++ path.

(** What a call of [ensureDir] for the directory [target] has come to,
    [sent] being the commands sent before it: it has sent probes and then
    creations; the probes start with the normalised target and climb; the
    creations retrace the probes from the last one, or from the one before
    it, and retrace them all when the call has succeeded. *)
Definition climbed {world : Type} (sent : list string) (target : string)
    (recursive : bool)
    (out : Passive.result (option unit) * (world * list string)) : Prop :=
  exists probes made,
    snd (snd out) = (sent ++ map CWD probes ++ map MKD made)%list
    /\ descending probes
    /\ (startOf made (rev probes) \/ startOf made (tl (rev probes)))
    /\ (fst out = Passive.Ok (Some tt) ->
        made = rev probes \/ made = tl (rev probes))
    /\ (recursive = false -> List.length probes <= 1)
    /\ (forall p0 rest, probes = p0 :: rest ->
          p0 = normalizePath target /\ p0 <> "/").

End EnsureDirTerms.

(* ================================================================== *)
(** ** The single-file client: [connect] and [close] *)
(* ================================================================== *)

Module Login.
Import JS Client.

(** Where an invocation of an [async] function waits for the promise of
    a command. *)
Inductive continuation : Type :=
| afterUser (rest : list string)
    (* the ['data'] handler, at [await this._sendCommand(`USER ...`)];
       [rest] are the lines its loop has not come to yet *)
| afterPass (rest : list string)
    (* the same handler, at [await this._sendCommand(`PASS ...`)] *)
| afterQuit (closing : nat).
    (* [close], at [await this._sendCommand('QUIT')]; [closing] is the
       promise that [close] has returned *)

(** A client from [connect] on. *)
Record connection : Type := mkConnection {
  theClient : client;
  connecting : nat;                       (* the promise connect returned *)
  waiting : list (nat * continuation);    (* awaited promise, who waits *)
  reacted : nat;       (* the settle calls whose reactions have been run *)
  deadline : bool;     (* the timer of connect has not fired yet *)
  ended : bool         (* socket.end() has been called *)
}.

Definition setClient (c : client) (x : connection) : connection :=
  mkConnection c (connecting x) (waiting x) (reacted x) (deadline x) (ended x).

Definition setWaiting (l : list (nat * continuation)) (x : connection)
  : connection :=
  mkConnection (theClient x) (connecting x) l (reacted x) (deadline x) (ended x).

Definition setReacted (n : nat) (x : connection) : connection :=
  mkConnection (theClient x) (connecting x) (waiting x) n (deadline x) (ended x).

Definition setDeadline (b : bool) (x : connection) : connection :=
  mkConnection (theClient x) (connecting x) (waiting x) (reacted x) b (ended x).

Definition setEnded (b : bool) (x : connection) : connection :=
  mkConnection (theClient x) (connecting x) (waiting x) (reacted x) (deadline x) b.

(** [this.connected = a; this.authenticated = b] *)
Definition setFlags (a b : bool) (c : client) : client :=
  mkClient (buffer c) a b (commandCount c) (lastCommand c)
    (listeners c) (timers c) (nextTimer c) (nextPromise c) (settled c)
    (catchers c) (written c) (transfers c) (nextSocket c).

(** [new FTPClient()] *)
Definition created : client :=
  mkClient EmptyString false false 0 None [] [] 0 0 [] [] [] [] 0.

Section Connect.

(** The arguments of [connect]. *)
Variable user password : string.

(** [connect], up to the end of the executor of its promise: the socket
    is being opened, the handlers are installed and the timer of ten
    seconds is armed. *)
Definition connect : nat * connection :=
  let '(p, c) := newPromise created in
  (p, mkConnection c p [] 0 true false).

(** The loop of the ['data'] handler over the lines of one event.  At a
    line with code 220 on a client that has not logged in, [USER] is sent
    and the handler waits for its promise; the lines left are seen when
    it goes on. *)
Fixpoint loop (lines : list string) (x : connection) : connection :=
  match lines with
  | [] => x
  | line :: rest =>
      if nonEmpty line then
        let c := emit line (theClient x) in
        let code := parseInt (substring line 0 3) in
        if eqN code 220 && negb (authenticated c) then
          let '(p, c) := _sendCommand ("USER " ++ user) false c in
          setWaiting (waiting x ++ [(p, afterUser rest)])%list (setClient c x)
        else loop rest (setClient c x)
      else loop rest x
  end.

(** An [async] function goes on after the promise it waited for has been
    settled with [s]. *)
Definition resume (k : continuation) (s : settlement) (x : connection)
  : connection :=
  match k with
  | afterUser rest =>
      match s with
      | Resolve _ =>
          let '(p, c) := _sendCommand ("PASS " ++ password) false (theClient x) in
          setWaiting (waiting x ++ [(p, afterPass rest)])%list (setClient c x)
      | Reject err =>
          (* catch (err) { reject(err) }, and on with the loop *)
          loop rest (setClient (settle (connecting x) (Reject err) (theClient x)) x)
      end
  | afterPass rest =>
      match s with
      | Resolve _ =>
          (* this.authenticated = true; resolve() *)
          let c := theClient x in
          let c := setFlags (connected c) true c in
          loop rest (setClient (settle (connecting x) (Resolve VUndefined) c) x)
      | Reject err =>
          loop rest (setClient (settle (connecting x) (Reject err) (theClient x)) x)
      end
  | afterQuit closing =>
      (* the error of QUIT is caught; this.socket.end();
         this.connected = false; this.authenticated = false *)
      let c := setFlags false false (theClient x) in
      setEnded true (setClient (settle closing (Resolve VUndefined) c) x)
  end.

Definition stillWaiting (p : nat) (l : list (nat * continuation))
  : list (nat * continuation) :=
  filter (fun h => negb (Nat.eqb (fst h) p)) l.

(** The reactions to the settle calls that have not been looked at yet,
    oldest first; a call on a promise that was settled before has no
    reaction.  [None] when the fuel runs out. *)
Fixpoint drain (fuel : nat) (x : connection) : option connection :=
  match fuel with
  | O => None
  | S fuel' =>
      match nth_error (settled (theClient x)) (reacted x) with
      | None => Some x
      | Some (p, s) =>
          let earlier := firstn (reacted x) (settled (theClient x)) in
          let x1 := setReacted (S (reacted x)) x in
          if existsb (fun e => Nat.eqb (fst e) p) earlier then drain fuel' x1
          else
            match find (fun h => Nat.eqb (fst h) p) (waiting x) with
            | None => drain fuel' x1
            | Some (_, k) =>
                drain fuel' (resume k s (setWaiting (stillWaiting p (waiting x)) x1))
            end
      end
  end.

Fixpoint linesLeft (l : list (nat * continuation)) : nat :=
  match l with
  | [] => 0
  | (_, afterUser rest) :: r => List.length rest + linesLeft r
  | (_, afterPass rest) :: r => List.length rest + linesLeft r
  | (_, afterQuit _) :: r => linesLeft r
  end.

(** Fuel for the reactions after one callback. *)
Definition reactions (x : connection) : nat :=
  let c := theClient x in
  let w := List.length (waiting x) + linesLeft (waiting x) in
  S (List.length (settled c))
  + 4 * (S w) * (S (List.length (listeners c) + w)).

(** The callbacks of the event loop.  The ['error'] event of the socket
    is not among them. *)
Inductive event : Type :=
| Established                    (* the socket has connected *)
| Lines (lines : list string)    (* one ['data'] event, framed into these lines *)
| CommandTimer (id : nat)        (* a timer of [_sendCommand] fires *)
| Deadline                       (* the timer of [connect] fires *)
| SocketClosed                   (* the ['close'] event of the socket *)
| CloseCalled.                   (* [close()] is called *)

(** One callback. *)
Definition task (e : event) (x : connection) : connection :=
  let c := theClient x in
  match e with
  | Established => setClient (setFlags true (authenticated c) c) x
  | Lines lines => loop lines x
  | CommandTimer id => setClient (Client.task (TimerFires id) c) x
  | Deadline =>
      if deadline x
      then setDeadline false
             (setClient (settle (connecting x) (Reject "Connection timeout") c) x)
      else x
  | SocketClosed => setClient (setFlags false false c) x
  | CloseCalled =>
      let '(closing, c) := newPromise c in
      if connected c then
        let '(p, c) := _sendCommand "QUIT" false c in
        setWaiting (waiting x ++ [(p, afterQuit closing)])%list (setClient c x)
      else setClient (settle closing (Resolve VUndefined) c) x
  end.

(** A callback and the reactions it has made ready. *)
Definition step (e : event) (x : connection) : option connection :=
  let x := task e x in drain (reactions x) x.

Fixpoint run (es : list event) (x : connection) : option connection :=
  match es with
  | [] => Some x
  | e :: rest =>
      match step e x with
      | Some x' => run rest x'
      | None => None
      end
  end.

End Connect.

(** A last line of a reply with a code from 200 to 399 that is not
    220. *)
Definition accepted (line : string) : bool :=
  terminal line
  && geN (replyCode line) 200 && ltN (replyCode line) 400
  && negb (isGreeting line).

(** A last line of a reply with a code that is no number from 200 to
    399. *)
Definition refused (line : string) : bool :=
  terminal line
  && negb (geN (replyCode line) 200 && ltN (replyCode line) 400).

(** The callbacks of a login: the socket connects, the greeting comes,
    then the reply to [USER] and the reply to [PASS], each in a ['data']
    event of its own. *)
Definition login (greeting reply1 reply2 : string) : list event :=
  [Established; Lines [greeting]; Lines [reply1]; Lines [reply2]].

(** The promise that a call of [close] on [x] returns. *)
Definition closing (x : connection) : nat := nextPromise (theClient x).

End Login.
(* ================================================================== *)
(** ** lib/commands.js: [stat] over the control channel *)
(* ================================================================== *)

Module StatCall.
Import JS Utils Client Passive Commands.

(** One invocation of [stat], followed through its [await]s on the
    client.  lib/connection.js is not among the sources: as for the
    transfers, [_sendCommand] and [_enterPassiveMode] of the single-file
    client stand for its [sendCommand] and [enterPassiveMode]. *)

(** Where the invocation waits. *)
Inductive continuation : Type :=
| afterSize                        (* [size]: await sendCommand(`SIZE ...`) *)
| afterPwd                         (* [pwd]: await sendCommand('PWD') *)
| afterCd (currentDir : string)    (* [cd(path)]: await sendCommand(`CWD ...`) *)
| afterCdBack                      (* [cd(currentDir)] *)
| afterPasv                        (* [list]: await enterPassiveMode() *)
| afterList.                       (* await this.list(dir): the listing *)

Record call : Type := mkCall {
  theClient : client;
  waiting : option (nat * continuation);   (* awaited promise, and where *)
  reacted : nat;      (* the settle calls whose reactions have been run *)
  returned : option info                   (* what [stat] has resolved with *)
}.

Definition setClient (c : client) (x : call) : call :=
  mkCall c (waiting x) (reacted x) (returned x).

Definition setReacted (n : nat) (x : call) : call :=
  mkCall (theClient x) (waiting x) n (returned x).

(** [{ exists: false, size: null, isFile: null, isDirectory: null }] *)
Definition notFound : info := mkInfo false None None None.

Section Stat.

(** The argument of [stat], and the text of [list] that is used. *)
Variable path : string.
Variable r : release.

(** The invocation waits for the promise [p]. *)
Definition await (p : nat) (k : continuation) (c : client) (x : call) : call :=
  mkCall c (Some (p, k)) (reacted x) (returned x).

(** [return i] *)
Definition finish (i : info) (x : call) : call :=
  mkCall (theClient x) None (reacted x) (Some i).

(** [await sendCommand(command)] *)
Definition command (text : string) (k : continuation) (x : call) : call :=
  let '(p, c) := _sendCommand text false (theClient x) in await p k c x.

(** [await this.list(getParentDir(path))], up to its first [await]. *)
Definition listParent (x : call) : call := command "PASV" afterPasv x.

(** [stat(path)], up to its first [await]. *)
Definition stat (c : client) : call :=
  command ("SIZE " ++ path) afterSize
    (mkCall c None (List.length (settled c)) None).

(** The invocation goes on after the promise it waited for has been
    settled with [s]. *)
Definition resume (k : continuation) (s : settlement) (x : call) : call :=
  match k with
  | afterSize =>
      match s with
      | Resolve (VResponse response) =>
          finish (mkInfo true (Some (toDouble (parseInt (message response))))
                    (Some true) (Some false)) x
      | _ => command "PWD" afterPwd x
      end
  | afterPwd =>
      match s with
      | Resolve (VResponse response) =>
          let currentDir :=
            match matchQuoted (message response) with
            | Some dir => dir
            | None => "/"
            end in
          command ("CWD " ++ path) (afterCd currentDir) x
      | _ => listParent x
      end
  | afterCd currentDir =>
      match s with
      | Resolve _ => command ("CWD " ++ currentDir) afterCdBack x
      | Reject _ => listParent x
      end
  | afterCdBack =>
      match s with
      | Resolve _ => finish (mkInfo true None (Some false) (Some true)) x
      | Reject _ => listParent x
      end
  | afterPasv =>
      match s with
      | Resolve (VResponse response) =>
          match _enterPassiveMode (Ok response) with
          | Ok _ =>
              let '(p, _, c) :=
                startTransfer r List (getParentDir path) EmptyString
                  (theClient x) in
              await p afterList c x
          | Err _ => finish notFound x
          end
      | _ => finish notFound x
      end
  | afterList =>
      match s with
      | Resolve (VText listing) =>
          finish (mkInfo (foundIn listing path) None None None) x
      | _ => finish notFound x
      end
  end.

(** The reactions to the settle calls that have not been looked at yet,
    oldest first; a call on a promise that was settled before has no
    reaction.  [None] when the fuel runs out. *)
Fixpoint drain (fuel : nat) (x : call) : option call :=
  match fuel with
  | O => None
  | S fuel' =>
      match nth_error (settled (theClient x)) (reacted x) with
      | None => Some x
      | Some (p, s) =>
          let earlier := firstn (reacted x) (settled (theClient x)) in
          let x1 := setReacted (S (reacted x)) x in
          if existsb (fun e => Nat.eqb (fst e) p) earlier then drain fuel' x1
          else
            match waiting x with
            | Some (q, k) =>
                if Nat.eqb q p
                then drain fuel'
                       (resume k s
                          (mkCall (theClient x1) None (reacted x1) (returned x1)))
                else drain fuel' x1
            | None => drain fuel' x1
            end
      end
  end.

(** Fuel for the reactions after one callback: the invocation goes
    through its six [await]s at most once each. *)
Definition reactions (x : call) : nat :=
  List.length (settled (theClient x)) + 8.

(** A callback of the client and the reactions it has made ready. *)
Definition step (e : event) (x : call) : option call :=
  let x := setClient (Client.step e (theClient x)) x in
  drain (reactions x) x.

Fixpoint run (es : list event) (x : call) : option call :=
  match es with
  | [] => Some x
  | e :: rest =>
      match step e x with
      | Some x' => run rest x'
      | None => None
      end
  end.

(** The call itself, with the reactions that are ready at once. *)
Definition called (c : client) : option call :=
  let x := stat c in drain (reactions x) x.

End Stat.

(** C10 as stated: whatever the server replies, [stat] resolves, once the
    timers that are armed have been given the time to fire. *)
Definition statResolvesWhateverTheReplies : Prop :=
  forall (path : string) (r : release) (replies : list (list string)),
    exists (ids : list nat) (x0 x : call) (i : info),
      called path r session = Some x0
      /\ run path r (map Responses replies ++ map TimerFires ids)%list x0
         = Some x
      /\ returned x = Some i.

End StatCall.

(* ================================================================== *)
(** ** Facts about [parseInt] *)
(* ================================================================== *)

Module JSFacts.
Import JS.

(** [Some x = Some y] to [x = y], leaving both sides as they are. *)
Ltac some_inj H :=
  match type of H with
  | Some ?x = Some ?y =>
      let E := fresh in
      assert (E : x = y) by congruence; clear H; rename E into H
  end.

Lemma append_assoc (a b c : string) : ((a ++ b) ++ c = a ++ (b ++ c))%string.
Proof. induction a as [|x a IH]; simpl; [reflexivity | now rewrite IH]. Qed.

Lemma append_empty_r (a : string) : (a ++ "")%string = a.
Proof. induction a as [|x a IH]; simpl; [reflexivity | now rewrite IH]. Qed.

Lemma append_length (a b : string) :
  String.length (a ++ b) = String.length a + String.length b.
Proof. induction a as [|x a IH]; simpl; [reflexivity | now rewrite IH]. Qed.

Lemma digitValue_nonneg (c : ascii) (d : Z) : digitValue c = Some d -> (0 <= d)%Z.
Proof.
  unfold digitValue. cbv zeta.
  repeat match goal with |- context [if ?b then _ else _] => destruct b end;
    intros H; inversion H; lia.
Qed.

Lemma digitValue_decimal (c : ascii) (d : Z) :
  digitValue c = Some d -> (d <? 10)%Z = true -> isDigit c = true.
Proof.
  unfold digitValue, isDigit. cbv zeta.
  destruct ((48 <=? nat_of_ascii c)%nat && (nat_of_ascii c <=? 57)%nat) eqn:E1;
    [reflexivity|].
  destruct ((97 <=? nat_of_ascii c)%nat && (nat_of_ascii c <=? 122)%nat) eqn:E2.
  - apply andb_true_iff in E2 as [E2 _]. apply Nat.leb_le in E2.
    intros H Hd. inversion H; subst. apply Z.ltb_lt in Hd. lia.
  - destruct ((65 <=? nat_of_ascii c)%nat && (nat_of_ascii c <=? 90)%nat) eqn:E3;
      [|discriminate].
    apply andb_true_iff in E3 as [E3 _]. apply Nat.leb_le in E3.
    intros H Hd. inversion H; subst. apply Z.ltb_lt in Hd. lia.
Qed.

(** The digits read are bounded by the number of characters available. *)
Lemma readDigits_bound (r : Z) (s : string) :
  (0 < r)%Z ->
  forall acc n,
    (0 <= accValue acc)%Z ->
    readDigits r acc s = Some n ->
    (0 <= n < (accValue acc + 1) * r ^ Z.of_nat (String.length s))%Z.
Proof.
  intros Hr. induction s as [|c s IH]; intros acc n Hacc H.
  - cbn [readDigits] in H. subst acc. cbn [accValue String.length Z.of_nat] in *.
    rewrite Z.pow_0_r. lia.
  - assert (Hpow : (1 <= r ^ Z.of_nat (String.length s))%Z)
      by (pose proof (Z.pow_pos_nonneg r (Z.of_nat (String.length s)) Hr); lia).
    cbn [String.length]. rewrite Nat2Z.inj_succ, Z.pow_succ_r by lia.
    cbn [readDigits] in H. fold (accValue acc) in H.
    set (v := accValue acc) in *. set (P := (r ^ Z.of_nat (String.length s))%Z) in *.
    destruct (digitValue c) as [d|] eqn:Ed.
    + pose proof (digitValue_nonneg _ _ Ed) as Hd.
      destruct (d <? r)%Z eqn:Edr.
      * apply Z.ltb_lt in Edr.
        apply IH in H; [|cbn [accValue]; nia]. cbn [accValue] in H. fold P in H.
        assert ((r * v + d + 1) * P <= (v + 1) * (r * P))%Z by nia. lia.
      * subst acc. cbn [accValue] in v. subst v. nia.
    + subst acc. cbn [accValue] in v. subst v. nia.
Qed.

Lemma readDigits_fresh_bound (r : Z) (s : string) (n : Z) :
  (0 < r)%Z -> readDigits r None s = Some n ->
  (0 <= n < r ^ Z.of_nat (String.length s))%Z.
Proof.
  intros Hr H. apply (readDigits_bound r s Hr None n) in H; cbn [accValue] in *; lia.
Qed.

Lemma trimStart_length (s : string) : String.length (trimStart s) <= String.length s.
Proof.
  induction s as [|c s IH]; cbn [trimStart String.length]; [lia|].
  destruct (isWhiteSpace c); cbn [String.length]; lia.
Qed.

Lemma trimStart_shorter (c : ascii) (s : string) :
  isWhiteSpace c = true ->
  String.length (trimStart (String c s)) <= String.length s.
Proof. intros H. cbn [trimStart]. rewrite H. apply trimStart_length. Qed.

Lemma trimStart_keeps (c : ascii) (s : string) :
  isWhiteSpace c = false -> trimStart (String c s) = String c s.
Proof. intros H. cbn [trimStart]. now rewrite H. Qed.


Lemma signOf_cases (s : string) :
  (fst (signOf s) = (-1)%Z)
  \/ (fst (signOf s) = 1%Z /\ S (String.length (snd (signOf s))) <= String.length s)
  \/ (fst (signOf s) = 1%Z /\ snd (signOf s) = s).
Proof.
  destruct s as [|c r]; cbn [signOf]; [right; right; now split|].
  destruct (Ascii.eqb c "-"%char); [now left|].
  destruct (Ascii.eqb c "+"%char); cbn [fst snd String.length].
  - right; left. split; [reflexivity | lia].
  - right; right. now split.
Qed.

Lemma radixOf_cases (s : string) :
  (fst (radixOf s) = 16%Z /\ String.length (snd (radixOf s)) + 2 <= String.length s)
  \/ (fst (radixOf s) = 10%Z /\ snd (radixOf s) = s).
Proof.
  destruct s as [|z [|x r]]; cbn [radixOf]; try (right; now split).
  destruct (Ascii.eqb z "0"%char && (Ascii.eqb x "x"%char || Ascii.eqb x "X"%char));
    cbn [fst snd String.length]; [left; split; [reflexivity | lia] | right; now split].
Qed.

Lemma readDigits_below (r : Z) (s : string) (k : nat) (n : Z) :
  (0 < r)%Z -> String.length s <= k -> readDigits r None s = Some n ->
  (0 <= n < r ^ Z.of_nat k)%Z.
Proof.
  intros Hr Hk H. apply readDigits_fresh_bound in H; [|exact Hr].
  assert (r ^ Z.of_nat (String.length s) <= r ^ Z.of_nat k)%Z
    by (apply Z.pow_le_mono_r; lia).
  lia.
Qed.

(** Three characters read as a decimal number of at least 100 are three
    digits. *)
Lemma readDigits_three (s : string) (n : Z) :
  String.length s <= 3 -> readDigits 10 None s = Some n -> (100 <= n)%Z ->
  threeDigits s = true.
Proof.
  intros Hlen H Hn.
  destruct s as [|a [|b [|c [|d s]]]];
    try (apply (readDigits_below 10 _ 2) in H; cbn [String.length]; [change (10 ^ Z.of_nat 2)%Z with 100%Z in H|..]; lia).
  - cbn [readDigits] in H.
    destruct (digitValue a) as [da|] eqn:Ea; [|discriminate].
    destruct (da <? 10)%Z eqn:La; [|discriminate].
    destruct (digitValue b) as [db|] eqn:Eb;
      [|apply Z.ltb_lt in La; some_inj H; lia].
    destruct (db <? 10)%Z eqn:Lb; [|apply Z.ltb_lt in La; some_inj H; lia].
    destruct (digitValue c) as [dc|] eqn:Ec;
      [|apply Z.ltb_lt in La, Lb; some_inj H; lia].
    destruct (dc <? 10)%Z eqn:Lc; [|apply Z.ltb_lt in La, Lb; some_inj H; lia].
    cbn [threeDigits].
    now rewrite (digitValue_decimal _ _ Ea La), (digitValue_decimal _ _ Eb Lb),
      (digitValue_decimal _ _ Ec Lc).
  - cbn [String.length] in Hlen. lia.
Qed.

Lemma trimStart_cases (s : string) :
  trimStart s = s \/ S (String.length (trimStart s)) <= String.length s.
Proof.
  destruct s as [|c s]; [now left|].
  destruct (isWhiteSpace c) eqn:E.
  - right. pose proof (trimStart_shorter c s E). cbn [String.length]. lia.
  - left. now apply trimStart_keeps.
Qed.

(** A string of at most three characters that [parseInt] reads as a number
    of at least 100 is three decimal digits. *)
Lemma parseInt_ge_100 (s : string) (n : Z) :
  String.length s <= 3 -> parseInt s = Some n -> (100 <= n)%Z ->
  threeDigits s = true.
Proof.
  intros Hlen H Hn. unfold parseInt in H.
  pose proof (trimStart_length s) as Ht.
  pose proof (signOf_cases (trimStart s)) as Hs.
  destruct (signOf (trimStart s)) as [sign s2]. cbn [fst snd] in Hs.
  pose proof (radixOf_cases s2) as Hr.
  destruct (radixOf s2) as [radix s3]. cbn [fst snd] in Hr.
  destruct (readDigits radix None s3) as [m|] eqn:Em; [|discriminate].
  cbn [option_map] in H. some_inj H. subst n.
  assert (Hradix : (0 < radix)%Z) by (destruct Hr as [[-> _]|[-> _]]; lia).
  pose proof (readDigits_fresh_bound _ _ _ Hradix Em) as Hm.
  destruct Hs as [-> | [[-> Hs2] | [-> ->]]]; [lia | |].
  - exfalso. destruct Hr as [[-> Hr]|[-> ->]].
    + apply (readDigits_below 16 _ 0) in Em; [|lia|lia].
      change (16 ^ Z.of_nat 0)%Z with 1%Z in Em. lia.
    + apply (readDigits_below 10 _ 2) in Em; [|lia|lia].
      change (10 ^ Z.of_nat 2)%Z with 100%Z in Em. lia.
  - destruct Hr as [[-> Hr]|[-> ->]].
    + exfalso. apply (readDigits_below 16 _ 1) in Em; [|lia|lia].
      change (16 ^ Z.of_nat 1)%Z with 16%Z in Em. lia.
    + destruct (trimStart_cases s) as [E|E].
      * rewrite E in Em. apply (readDigits_three s m Hlen Em). lia.
      * exfalso. apply (readDigits_below 10 _ 2) in Em; [|lia|lia].
        change (10 ^ Z.of_nat 2)%Z with 100%Z in Em. lia.
Qed.

Lemma prefix_length (m : nat) (s : string) :
  String.length (String.substring 0 m s) <= m.
Proof.
  revert s. induction m as [|m IH]; intros [|x s];
    cbn [String.substring String.length]; try lia.
  specialize (IH s). lia.
Qed.

Lemma substring_0_3_length (s : string) : String.length (substring s 0 3) <= 3.
Proof.
  unfold substring, clamp. change (Z.to_nat 0) with 0. change (Z.to_nat 3) with 3.
  rewrite Nat.min_0_l, Nat.max_0_l, Nat.sub_0_r.
  pose proof (prefix_length (Nat.min 3 (String.length s)) s). lia.
Qed.

End JSFacts.
Module FramerFacts.
Import JS Framer JSFacts.

Lemma split_crlf_hit (s : string) :
  split (String CR (String LF s)) CRLF = EmptyString :: split s CRLF.
Proof. reflexivity. Qed.

Lemma split_crlf_miss (c : ascii) (s : string) :
  startsWith (String c s) CRLF = false ->
  split (String c s) CRLF = cons_head c (split s CRLF).
Proof. intros H. unfold split. cbn [split_from]. rewrite H. reflexivity. Qed.

Lemma startsWith_crlf_inv (c : ascii) (s : string) :
  startsWith (String c s) CRLF = true ->
  c = CR /\ exists s', s = String LF s'.
Proof.
  unfold CRLF. cbn [startsWith]. intros H. apply andb_true_iff in H as [Hc H].
  apply Ascii.eqb_eq in Hc. destruct s as [|d s']; [discriminate|].
  apply andb_true_iff in H as [Hd _]. apply Ascii.eqb_eq in Hd.
  subst. split; [reflexivity | now exists s'].
Qed.

Lemma split_nonempty (s : string) : split s CRLF <> [].
Proof.
  induction s as [|c s IH]; [discriminate|].
  destruct (startsWith (String c s) CRLF) eqn:E.
  - apply startsWith_crlf_inv in E as [-> [s' ->]]. rewrite split_crlf_hit. discriminate.
  - rewrite (split_crlf_miss _ _ E). destruct (split s CRLF); [contradiction | discriminate].
Qed.

Lemma pop_cons {A : Type} (x : A) (l : list A) :
  l <> [] -> pop (x :: l) = (fst (pop l), x :: snd (pop l)).
Proof.
  intros H. destruct l as [|y l]; [contradiction|].
  change (pop (x :: y :: l)) with (let (r, xs') := pop (y :: l) in (r, x :: xs')).
  destruct (pop (y :: l)); reflexivity.
Qed.

Lemma complete_hit (s : string) :
  complete (String CR (String LF s)) = EmptyString :: complete s.
Proof.
  unfold complete. rewrite split_crlf_hit, pop_cons by apply split_nonempty. reflexivity.
Qed.

Lemma carry_hit (s : string) : carry (String CR (String LF s)) = carry s.
Proof.
  unfold carry. rewrite split_crlf_hit, pop_cons by apply split_nonempty. reflexivity.
Qed.

(** A buffer that splits into one piece is that piece. *)
Lemma split_single (s x : string) : split s CRLF = [x] -> x = s.
Proof.
  revert x. induction s as [|c s IH]; intros x H.
  - now inversion H.
  - destruct (startsWith (String c s) CRLF) eqn:E.
    + apply startsWith_crlf_inv in E as [-> [s' ->]]. rewrite split_crlf_hit in H.
      inversion H as [[H1 H2]]. now apply split_nonempty in H2.
    + rewrite (split_crlf_miss _ _ E) in H.
      destruct (split s CRLF) as [|y [|z l]] eqn:Es; try discriminate.
      * now apply split_nonempty in Es.
      * simpl in H. inversion H. f_equal. now apply IH.
Qed.

Lemma startsWith_app_miss (c d : ascii) (s t : string) :
  startsWith (String c (String d s)) CRLF = false ->
  startsWith (String c (String d s) ++ t) CRLF = false.
Proof. intros H. exact H. Qed.

(** Framing a buffer extended by more data: the complete pieces of the
    buffer stay, the carried piece is framed with the new data. *)
Lemma split_app_bounded (n : nat) :
  forall s t, String.length s <= n ->
    split (s ++ t) CRLF = (complete s ++ split (carry s ++ t) CRLF)%list.
Proof.
  induction n as [n IH] using lt_wf_ind. intros s t Hn.
  destruct s as [|c s]; [reflexivity|].
  destruct (startsWith (String c s) CRLF) eqn:E.
  - apply startsWith_crlf_inv in E as [-> [s' ->]].
    rewrite complete_hit, carry_hit. simpl String.append.
    rewrite split_crlf_hit. simpl in Hn.
    rewrite (IH (String.length s')) by lia. reflexivity.
  - destruct (split s CRLF) as [|x [|y l]] eqn:Es.
    + now apply split_nonempty in Es.
    + apply split_single in Es as Hx. subst x.
      assert (Hs : split (String c s) CRLF = [String c s])
        by (rewrite (split_crlf_miss _ _ E), Es; reflexivity).
      unfold complete, carry. rewrite Hs. reflexivity.
    + destruct s as [|d s]; [discriminate|].
      assert (Hc : complete (String c (String d s)) = cons_head c (complete (String d s))).
      { unfold complete. rewrite (split_crlf_miss _ _ E), Es. cbn [cons_head].
        rewrite (pop_cons (String c x)), (pop_cons x) by discriminate. reflexivity. }
      assert (Hk : carry (String c (String d s)) = carry (String d s)).
      { unfold carry. rewrite (split_crlf_miss _ _ E), Es. cbn [cons_head].
        rewrite (pop_cons (String c x)), (pop_cons x) by discriminate. reflexivity. }
      rewrite Hc, Hk.
      change (String c (String d s) ++ t)%string with (String c (String d s ++ t)).
      rewrite split_crlf_miss by (apply (startsWith_app_miss c d s t E)).
      simpl in Hn. rewrite (IH (String.length (String d s))) by (simpl; lia).
      unfold complete. rewrite Es, (pop_cons x) by discriminate. reflexivity.
Qed.

Lemma split_app (s t : string) :
  split (s ++ t) CRLF = (complete s ++ split (carry s ++ t) CRLF)%list.
Proof. now apply (split_app_bounded (String.length s)). Qed.


Lemma pop_app {A : Type} (l1 l2 : list A) :
  l2 <> [] -> pop (l1 ++ l2)%list = (fst (pop l2), (l1 ++ snd (pop l2))%list).
Proof.
  intros H. induction l1 as [|x l1 IH].
  - simpl. now destruct (pop l2).
  - change ((x :: l1) ++ l2)%list with (x :: (l1 ++ l2))%list.
    rewrite pop_cons, IH; [reflexivity|].
    destruct l1; [assumption | discriminate].
Qed.

Lemma pop_decompose {A : Type} (l : list A) :
  l <> [] -> exists x, fst (pop l) = Some x /\ l = (snd (pop l) ++ [x])%list.
Proof.
  induction l as [|a l IH]; [contradiction|]. intros _.
  destruct l as [|b l].
  - exists a. split; reflexivity.
  - destruct IH as [x [H1 H2]]; [discriminate|].
    exists x. rewrite pop_cons by discriminate. split; [exact H1|].
    cbn [snd]. rewrite H2 at 1. reflexivity.
Qed.

Lemma split_complete_carry (s : string) :
  split s CRLF = (complete s ++ [carry s])%list.
Proof.
  destruct (pop_decompose (split s CRLF) (split_nonempty s)) as [x [H1 H2]].
  unfold complete, carry. rewrite H1. exact H2.
Qed.

Lemma complete_app (s t : string) :
  complete (s ++ t) = (complete s ++ complete (carry s ++ t))%list.
Proof.
  unfold complete at 1. rewrite split_app, pop_app by apply split_nonempty.
  reflexivity.
Qed.

Lemma carry_app (s t : string) : carry (s ++ t) = carry (carry s ++ t).
Proof.
  unfold carry at 1. rewrite split_app, pop_app by apply split_nonempty.
  reflexivity.
Qed.

(** A buffer without a terminator is one piece. *)
Lemma split_no_terminator (s : string) :
  includes s CRLF = false -> split s CRLF = [s].
Proof.
  induction s as [|c s IH]; [reflexivity|].
  cbn [includes]. intros H. apply orb_false_iff in H as [H1 H2].
  rewrite (split_crlf_miss _ _ H1), (IH H2). reflexivity.
Qed.

Lemma string_ind2 (P : string -> Prop) :
  P EmptyString ->
  (forall c, P (String c EmptyString)) ->
  (forall c d s, P s -> P (String d s) -> P (String c (String d s))) ->
  forall s, P s.
Proof.
  intros H0 H1 H2 s.
  assert (H : P s /\ forall c, P (String c s)).
  { induction s as [|d s [IHa IHb]].
    - split; [exact H0 | exact H1].
    - split; [apply IHb | intros c; apply H2; [exact IHa | apply IHb]]. }
  exact (proj1 H).
Qed.

Lemma split_head (d e : ascii) (s x : string) (l : list string) :
  split (String d s) CRLF = String e x :: l -> e = d.
Proof.
  destruct (startsWith (String d s) CRLF) eqn:E.
  - apply startsWith_crlf_inv in E as [-> [s' ->]]. rewrite split_crlf_hit. discriminate.
  - rewrite (split_crlf_miss _ _ E).
    destruct (split s CRLF); cbn [cons_head]; intros H; now inversion H.
Qed.

(** No piece of a split contains the terminator. *)
Lemma pieces_no_terminator (s : string) :
  Forall (fun x => includes x CRLF = false) (split s CRLF).
Proof.
  induction s as [|c|c d s IHs IHd] using string_ind2.
  - repeat constructor.
  - assert (E : startsWith (String c EmptyString) CRLF = false)
      by (unfold CRLF; cbn [startsWith]; apply andb_false_r).
    rewrite (split_crlf_miss _ _ E). cbn [split split_from cons_head].
    constructor; [|constructor]. cbn [includes]. now rewrite E.
  - destruct (startsWith (String c (String d s)) CRLF) eqn:E.
    + apply startsWith_crlf_inv in E as [-> [s' Hs]]. inversion Hs; subst.
      rewrite split_crlf_hit. constructor; [reflexivity | exact IHs].
    + rewrite (split_crlf_miss _ _ E).
      destruct (split (String d s) CRLF) as [|x l] eqn:Es.
      * now apply split_nonempty in Es.
      * inversion IHd as [|? ? Hx Hl]; subst. cbn [cons_head].
        constructor; [|exact Hl].
        cbn [includes]. rewrite Hx, orb_false_r.
        destruct x as [|e x].
        -- unfold CRLF. cbn [startsWith]. now rewrite andb_false_r.
        -- apply split_head in Es. subst e. exact E.
Qed.

Lemma carry_no_terminator (s : string) : includes (carry s) CRLF = false.
Proof.
  pose proof (pieces_no_terminator s) as H.
  rewrite split_complete_carry in H. apply Forall_app in H as [_ H].
  now inversion H.
Qed.

Lemma frame_eq (buffer data : string) :
  frame buffer data
  = (filter nonEmpty (complete (buffer ++ data)), carry (buffer ++ data)).
Proof.
  unfold frame, complete, carry. now destruct (pop (split (buffer ++ data) CRLF)).
Qed.

Lemma frame_no_terminator (buffer data : string) :
  includes (buffer ++ data) CRLF = false ->
  frame buffer data = ([], (buffer ++ data)%string).
Proof.
  intros H. rewrite frame_eq. unfold complete, carry.
  rewrite (split_no_terminator _ H). reflexivity.
Qed.

Lemma feed_frame (chunks : list string) :
  forall buffer, includes buffer CRLF = false ->
    feed buffer chunks = frame buffer (joinChunks chunks).
Proof.
  induction chunks as [|data rest IH]; intros buffer Hb.
  - cbn [feed joinChunks fold_right]. rewrite frame_no_terminator.
    + now rewrite append_empty_r.
    + now rewrite append_empty_r.
  - cbn [feed joinChunks fold_right]. fold (joinChunks rest).
    rewrite (frame_eq buffer data).
    rewrite (IH (carry (buffer ++ data)) (carry_no_terminator _)).
    rewrite !frame_eq, <- append_assoc.
    rewrite (complete_app (buffer ++ data)), (carry_app (buffer ++ data)), filter_app.
    reflexivity.
Qed.

(** C4, as amended: from any carry-over buffer, every way of cutting the
    incoming characters into chunks gives the lines, in the order, and the
    final carry-over that the uncut input gives; and a chunk gives no line
    and is appended to the carry-over whenever the carry-over followed by
    the chunk contains no terminator. *)
Theorem framer_chunking_invariant (buffer : string) (chunks : list string) :
  includes buffer CRLF = false ->
  feed buffer chunks = frame buffer (joinChunks chunks)
  /\ (forall data, includes (buffer ++ data) CRLF = false ->
        frame buffer data = ([], (buffer ++ data)%string)).
Proof.
  intros Hb. split.
  - now apply feed_frame.
  - intros data. apply frame_no_terminator.
Qed.

Lemma framer_chunking_invariant_witness :
  includes "150 Open" CRLF = false
  /\ feed "150 Open" ["ing" ++ String CR ""; String LF "226 Do"; "ne" ++ CRLF]
     = frame "150 Open" ("ing" ++ CRLF ++ "226 Done" ++ CRLF)
  /\ frame "150 Open" "ing" = ([], "150 Opening").
Proof.
  assert (H : includes "150 Open" CRLF = false) by reflexivity.
  destruct (framer_chunking_invariant "150 Open"
              ["ing" ++ String CR ""; String LF "226 Do"; "ne" ++ CRLF] H)
    as [H1 H2].
  split; [exact H | split; [exact H1 | apply H2; reflexivity]].
Defined.

(** C4, counterexample to the second sentence as stated: after the chunk
    ["220 ok" CR], the chunk [LF] contains no terminator and yet completes
    the line ["220 ok"]. *)
Lemma framer_lone_lf_completes_line : ~ terminatorFreeChunkIsSilent.
Proof.
  intros H.
  specialize (H ["220 ok" ++ String CR ""] (String LF "") eq_refl).
  vm_compute in H. discriminate H.
Qed.

End FramerFacts.

(* ================================================================== *)
(** ** Facts about the client *)
(* ================================================================== *)

Module ClientFacts.
Import JS Client.

Ltac fields :=
  cbn [buffer connected authenticated commandCount lastCommand listeners
       timers nextTimer nextPromise settled catchers written transfers
       nextSocket setBuffer setCommand setListeners setTimers setNextPromise
       setSettled setCatchers setWritten setTransfers settle removeListener
       on clearTimeout setTimeout newPromise fst snd] in *.

Lemma listener_eqb_eq (a b : listener) : listener_eqb a b = true <-> a = b.
Proof.
  destruct a as [p t ap|s], b as [p' t' ap'|s']; cbn [listener_eqb];
    split; intros H; try discriminate; try (inversion H; subst).
  - apply andb_true_iff in H as [H Hc]. apply andb_true_iff in H as [Ha Hb].
    apply Nat.eqb_eq in Ha, Hb. apply Bool.eqb_prop in Hc. now subst.
  - now rewrite !Nat.eqb_refl, Bool.eqb_reflx.
  - apply Nat.eqb_eq in H. now subst.
  - now rewrite Nat.eqb_refl.
Qed.

Lemma listener_eqb_neq (a b : listener) : a <> b -> listener_eqb a b = false.
Proof.
  intros H. destruct (listener_eqb a b) eqn:E; [|reflexivity].
  now apply listener_eqb_eq in E.
Qed.

Lemma removeFirst_subset (h x : listener) (l : list listener) :
  In x (removeFirst h l) -> In x l.
Proof.
  induction l as [|y l IH]; cbn [removeFirst]; [easy|].
  destruct (listener_eqb y h); intros H; [now right|].
  destruct H as [H|H]; [now left | right; now apply IH].
Qed.

Lemma removeFirst_keeps (h x : listener) (l : list listener) :
  x <> h -> In x l -> In x (removeFirst h l).
Proof.
  intros Hx. induction l as [|y l IH]; cbn [removeFirst]; [easy|].
  intros [H|H].
  - subst y. rewrite (listener_eqb_neq _ _ Hx). now left.
  - destruct (listener_eqb y h); [exact H | right; now apply IH].
Qed.

Lemma removeListener_subset (h x : listener) (c : client) :
  In x (listeners (removeListener h c)) -> In x (listeners c).
Proof.
  fields. rewrite <- in_rev. intros H. apply removeFirst_subset in H.
  now rewrite <- in_rev in H.
Qed.

Lemma removeListener_keeps (h x : listener) (c : client) :
  x <> h -> In x (listeners c) -> In x (listeners (removeListener h c)).
Proof.
  fields. intros Hx H. rewrite <- in_rev. apply removeFirst_keeps; [exact Hx|].
  now rewrite <- in_rev.
Qed.

(** *** The two behaviours of [responseHandler] *)

Lemma callResponseHandler_waiting (p t : nat) (a : bool) (line : string) (c : client) :
  resolving a line = false ->
  callResponseHandler p t a line c = clearTimeout t c.
Proof.
  unfold resolving, terminal, preliminary, replyCode, callResponseHandler.
  cbv zeta. destruct (String.eqb (charAt line 3) " "); [|reflexivity].
  destruct (geN (parseInt (substring line 0 3)) 100
            && ltN (parseInt (substring line 0 3)) 200), a;
    cbn [andb negb]; intros H; try discriminate H; reflexivity.
Qed.

Lemma callResponseHandler_settling (p t : nat) (a : bool) (line : string) (c : client) :
  resolving a line = true ->
  callResponseHandler p t a line c
  = settle p (verdict line)
      (removeListener (responseHandler p t a) (clearTimeout t (clearTimeout t c))).
Proof.
  unfold resolving, terminal, preliminary, verdict, replyCode, replyMessage,
    callResponseHandler.
  cbv zeta. destruct (String.eqb (charAt line 3) " "); [|discriminate].
  cbn [andb]. intros H.
  destruct (geN (parseInt (substring line 0 3)) 100
            && ltN (parseInt (substring line 0 3)) 200 && a) eqn:E.
  - discriminate H.
  - destruct (geN (parseInt (substring line 0 3)) 200
              && ltN (parseInt (substring line 0 3)) 400); reflexivity.
Qed.

(** *** Settlements are only ever appended *)

Lemma extends_refl (c : client) : extends c c.
Proof. exists []. now rewrite app_nil_r. Qed.

Lemma extends_trans (a b c : client) : extends a b -> extends b c -> extends a c.
Proof.
  intros [l1 H1] [l2 H2]. exists (l1 ++ l2)%list. now rewrite H2, H1, app_assoc.
Qed.

Lemma extends_same (c c' : client) : settled c' = settled c -> extends c c'.
Proof. intros H. exists []. now rewrite app_nil_r. Qed.

Lemma extends_settle (p : nat) (s : settlement) (c c' : client) :
  settled c' = settled c -> extends c (settle p s c').
Proof. intros H. exists [(p, s)]. fields. now rewrite H. Qed.

Lemma extends_callListener (h : listener) (line : string) (c : client) :
  extends c (callListener h line c).
Proof.
  destruct h as [p t a|s]; cbn [callListener].
  - destruct (resolving a line) eqn:E.
    + rewrite callResponseHandler_settling by exact E. now apply extends_settle.
    + rewrite callResponseHandler_waiting by exact E. now apply extends_same.
  - unfold callFinalHandler. destruct (lookup s (transfers c)) as [tr|]; [|apply extends_refl].
    cbv zeta. destruct (eqN _ 226 || eqN _ 250); [now apply extends_settle|].
    destruct (t_kind tr); try apply extends_refl;
      (destruct (geN _ 400); [now apply extends_settle | apply extends_refl]).
Qed.

Lemma extends_fold {A : Type} (f : client -> A -> client) :
  (forall c x, extends c (f c x)) ->
  forall l c, extends c (fold_left f l c).
Proof.
  intros Hf l. induction l as [|x l IH]; intros c; cbn [fold_left].
  - apply extends_refl.
  - eapply extends_trans; [apply Hf | apply IH].
Qed.

Lemma extends_emit (line : string) (c : client) : extends c (emit line c).
Proof.
  unfold emit. generalize (listeners c) as hs. intros hs.
  apply (extends_fold (fun c h => callListener h line c)).
  intros c0 h. apply extends_callListener.
Qed.

Lemma extends_sendCommand (command : string) (a : bool) (c : client) :
  extends c (snd (_sendCommand command a c)).
Proof.
  unfold _sendCommand. cbn [newPromise]. fields.
  destruct (connected c); cbn [negb snd].
  - now apply extends_same.
  - now apply extends_settle.
Qed.

Lemma extends_runTimer (a : timerAction) (c : client) : extends c (runTimer a c).
Proof.
  destruct a as [h msg p|s|s res]; cbn [runTimer].
  - now apply extends_settle.
  - destruct (lookup s (transfers c)) as [tr|]; [|apply extends_refl].
    destruct (t_kind tr); try (now apply extends_settle).
    destruct (0 <? List.length (t_chunks tr))%nat;
      [now apply extends_settle | now apply extends_same].
  - destruct (lookup s (transfers c)) as [tr|]; [|apply extends_refl].
    destruct (t_kind tr); now apply extends_settle.
Qed.

Lemma extends_task (e : event) (c : client) : extends c (task e c).
Proof.
  destruct e as [lines|id|s|s chunk|s err|s]; cbn [task].
  - apply (extends_fold (fun c line => emit line c)). intros; apply extends_emit.
  - destruct (lookup id (timers c)); [|apply extends_refl].
    eapply extends_trans; [|apply extends_runTimer]. now apply extends_same.
  - unfold onDataConnect. destruct (lookup s (transfers c)) as [tr|]; [|apply extends_refl].
    destruct (t_commandSent tr); [apply extends_refl|]. cbv zeta.
    destruct (t_release tr).
    + match goal with |- context [_sendCommand ?x ?y ?z] =>
        pose proof (extends_sendCommand x y z) as H;
        destruct (_sendCommand x y z) as [p c1] end.
      cbn [snd] in H. eapply extends_trans; [|now apply extends_same].
      eapply extends_trans; [|exact H]. now apply extends_same.
    + match goal with |- context [_sendCommand ?x ?y ?z] =>
        pose proof (extends_sendCommand x y z) as H;
        destruct (_sendCommand x y z) as [p c1] end.
      cbn [snd] in H. eapply extends_trans; [|now apply extends_same].
      eapply extends_trans; [|exact H]. now apply extends_same.
    + now apply extends_same.
  - unfold onDataChunk. destruct (lookup s (transfers c)) as [tr|]; [|apply extends_refl].
    destruct (t_kind tr); [apply extends_refl | |]; now apply extends_same.
  - unfold onDataError. destruct (lookup s (transfers c)) as [tr|]; [|apply extends_refl].
    now apply extends_settle.
  - unfold onDataClose. destruct (lookup s (transfers c)) as [tr|]; [|apply extends_refl].
    destruct (t_release tr); now apply extends_same.
Qed.

Lemma extends_runCatchers (l : list (nat * nat)) :
  forall c, extends c (runCatchers l c).
Proof.
  induction l as [|[src tgt] l IH]; intros c; cbn [runCatchers].
  - apply extends_refl.
  - destruct (outcome c src) as [[v|e]|].
    + eapply extends_trans; [|apply IH]. now apply extends_same.
    + eapply extends_trans; [|apply IH]. now apply extends_settle.
    + apply IH.
Qed.

Lemma extends_step (e : event) (c : client) : extends c (step e c).
Proof.
  unfold step, microtasks. eapply extends_trans; [apply extends_task|].
  apply extends_runCatchers.
Qed.

Lemma extends_run (es : list event) (c : client) : extends c (run es c).
Proof.
  unfold run. apply (extends_fold (fun c e => step e c)).
  intros; apply extends_step.
Qed.

Lemma find_app_some {A : Type} (f : A -> bool) (l1 l2 : list A) (x : A) :
  find f l1 = Some x -> find f (l1 ++ l2)%list = Some x.
Proof.
  induction l1 as [|y l1 IH]; cbn [find app]; [discriminate|].
  destruct (f y); [easy | exact IH].
Qed.

(** A settled promise keeps its outcome. *)
Lemma outcome_extends (c c' : client) (p : nat) (s : settlement) :
  extends c c' -> outcome c p = Some s -> outcome c' p = Some s.
Proof.
  intros [l H]. unfold outcome. rewrite H.
  destruct (find (fun e => Nat.eqb (fst e) p) (settled c)) as [e|] eqn:E; [|discriminate].
  intros Hs. now rewrite (find_app_some _ _ l _ E).
Qed.

Lemma outcome_stable (es : list event) (c : client) (p : nat) (s : settlement) :
  outcome c p = Some s -> outcome (run es c) p = Some s.
Proof. apply outcome_extends, extends_run. Qed.

Lemma outcome_fresh (c : client) (p : nat) :
  (forall e, In e (settled c) -> fst e <> p) -> outcome c p = None.
Proof.
  unfold outcome. induction (settled c) as [|x xs IH]; intros H; [reflexivity|].
  cbn [find]. destruct (Nat.eqb (fst x) p) eqn:E.
  - apply Nat.eqb_eq in E. exfalso. apply (H x); [now left | exact E].
  - apply IH. intros e He. apply H. now right.
Qed.

Lemma outcome_settle_fresh (p : nat) (s : settlement) (l : list (nat * settlement)) :
  (forall e, In e l -> fst e <> p) ->
  option_map snd (find (fun e => Nat.eqb (fst e) p) (l ++ [(p, s)])%list) = Some s.
Proof.
  induction l as [|x xs IH]; intros H; cbn [find app fst].
  - now rewrite Nat.eqb_refl.
  - destruct (Nat.eqb (fst x) p) eqn:E.
    + apply Nat.eqb_eq in E. exfalso. apply (H x); [now left | exact E].
    + apply IH. intros e He. apply H. now right.
Qed.


(** *** One pending command among others *)

Section Pending.

Variables (p t : nat) (a : bool) (msg : string).

Lemma armed_clearTimeout_self (c : client) : armed t (clearTimeout t c) = false.
Proof.
  unfold armed. fields. induction (timers c) as [|x xs IH]; [reflexivity|].
  cbn [filter]. destruct (Nat.eqb (fst x) t) eqn:E; cbn [negb]; [exact IH|].
  cbn [existsb]. now rewrite E, IH.
Qed.

Lemma armed_clearTimeout_other (t' : nat) (c : client) :
  t' <> t -> armed t (clearTimeout t' c) = armed t c.
Proof.
  intros Ht. unfold armed. fields. induction (timers c) as [|x xs IH]; [reflexivity|].
  cbn [filter existsb]. destruct (Nat.eqb (fst x) t') eqn:E; cbn [negb].
  - apply Nat.eqb_eq in E. rewrite IH.
    destruct (Nat.eqb (fst x) t) eqn:E'; [|reflexivity].
    apply Nat.eqb_eq in E'. congruence.
  - cbn [existsb]. now rewrite IH.
Qed.

Lemma pending_clearTimeout (x : nat) (c : client) :
  pendingCommand p t a msg c -> pendingCommand p t a msg (clearTimeout x c).
Proof.
  intros (J1 & J2 & J3 & J4 & J5). repeat split; fields; try assumption.
  intros id act H. apply filter_In in H as [H _]. now apply J4.
Qed.

Lemma pending_removeListener (h' : listener) (c : client) :
  h' <> responseHandler p t a ->
  pendingCommand p t a msg c -> pendingCommand p t a msg (removeListener h' c).
Proof.
  intros Hh (J1 & J2 & J3 & J4 & J5). repeat split; try assumption.
  - apply removeListener_keeps; [congruence | exact J1].
  - intros x Hx. apply J2. now apply removeListener_subset in Hx.
Qed.

Lemma pending_settle (q : nat) (s : settlement) (c : client) :
  q <> p ->
  pendingCommand p t a msg c -> pendingCommand p t a msg (settle q s c).
Proof.
  intros Hq (J1 & J2 & J3 & J4 & J5). repeat split; fields; try assumption.
  intros e He. apply in_app_or in He as [He|[He|[]]]; [now apply J3|].
  now subst e.
Qed.

(** The handler of another command leaves this one as it is. *)
Lemma pending_call_other (h' : listener) (line : string) (c : client) :
  otherCommand p t h' ->
  pendingCommand p t a msg c ->
  pendingCommand p t a msg (callListener h' line c)
  /\ armed t (callListener h' line c) = armed t c.
Proof.
  intros (q & t' & a' & -> & Hq & Ht) J. cbn [callListener].
  assert (Hh : responseHandler q t' a' <> responseHandler p t a) by congruence.
  destruct (resolving a' line) eqn:E.
  - rewrite callResponseHandler_settling by exact E. split.
    + apply pending_settle; [exact Hq|]. apply pending_removeListener; [exact Hh|].
      now do 2 apply pending_clearTimeout.
    + change (armed t (clearTimeout t' (clearTimeout t' c)) = armed t c).
      now rewrite !armed_clearTimeout_other.
  - rewrite callResponseHandler_waiting by exact E. split.
    + now apply pending_clearTimeout.
    + now apply armed_clearTimeout_other.
Qed.

(** Its own handler, on a line that does not settle it, only disarms its
    timer. *)
Lemma pending_call_self_waiting (line : string) (c : client) :
  resolving a line = false ->
  pendingCommand p t a msg c ->
  pendingCommand p t a msg (callListener (responseHandler p t a) line c)
  /\ armed t (callListener (responseHandler p t a) line c) = false.
Proof.
  intros E J. cbn [callListener]. rewrite callResponseHandler_waiting by exact E.
  split; [now apply pending_clearTimeout | apply armed_clearTimeout_self].
Qed.

(** Its own handler, on a line that settles it. *)
Lemma pending_call_self_settling (line : string) (c : client) :
  resolving a line = true ->
  pendingCommand p t a msg c ->
  outcome (callListener (responseHandler p t a) line c) p = Some (verdict line).
Proof.
  intros E (J1 & J2 & J3 & J4 & J5). cbn [callListener].
  rewrite callResponseHandler_settling by exact E.
  unfold outcome. fields. now apply outcome_settle_fresh.
Qed.

Lemma outcome_fold_callListener (line : string) (hs : list listener) (c : client)
    (s : settlement) :
  outcome c p = Some s ->
  outcome (fold_left (fun c h => callListener h line c) hs c) p = Some s.
Proof.
  apply outcome_extends.
  apply (extends_fold (fun c h => callListener h line c)).
  intros; apply extends_callListener.
Qed.

Lemma pending_fold (line : string) (hs : list listener) :
  forall c,
    pendingCommand p t a msg c ->
    (forall h', In h' hs -> h' = responseHandler p t a \/ otherCommand p t h') ->
    let c' := fold_left (fun c h => callListener h line c) hs c in
    if resolving a line && existsb (listener_eqb (responseHandler p t a)) hs
    then outcome c' p = Some (verdict line)
    else pendingCommand p t a msg c'
         /\ armed t c'
            = armed t c && negb (existsb (listener_eqb (responseHandler p t a)) hs).
Proof.
  induction hs as [|h' hs IH]; intros c J Hhs; cbn [fold_left existsb].
  - rewrite andb_false_r. cbn [negb]. rewrite andb_true_r. now split.
  - assert (Hrest : forall x, In x hs ->
              x = responseHandler p t a \/ otherCommand p t x)
      by (intros x Hx; apply Hhs; now right).
    destruct (Hhs h' (or_introl eq_refl)) as [-> | Ho].
    + rewrite (proj2 (listener_eqb_eq _ _) eq_refl). cbn [orb negb].
      rewrite andb_true_r, andb_false_r.
      destruct (resolving a line) eqn:E.
      * apply outcome_fold_callListener. now apply pending_call_self_settling.
      * destruct (pending_call_self_waiting line c E J) as [J' A'].
        specialize (IH _ J' Hrest). cbv zeta in IH.
        cbn [andb] in IH. destruct IH as [IH1 IH2]. split; [exact IH1|].
        now rewrite IH2, A'.
    + assert (Hne : listener_eqb (responseHandler p t a) h' = false).
      { apply listener_eqb_neq. destruct Ho as (q & t' & a' & -> & Hq & _). congruence. }
      rewrite Hne. cbn [orb].
      destruct (pending_call_other h' line c Ho J) as [J' A'].
      specialize (IH _ J' Hrest). cbv zeta in IH. now rewrite A' in IH.
Qed.

Lemma pending_emit (line : string) (c : client) :
  pendingCommand p t a msg c ->
  if resolving a line
  then outcome (emit line c) p = Some (verdict line)
  else pendingCommand p t a msg (emit line c) /\ armed t (emit line c) = false.
Proof.
  intros J. pose proof J as (J1 & J2 & _).
  assert (Hin : existsb (listener_eqb (responseHandler p t a)) (listeners c) = true).
  { apply existsb_exists. exists (responseHandler p t a). split; [exact J1|].
    now apply listener_eqb_eq. }
  assert (Hall : forall h', In h' (listeners c) ->
            h' = responseHandler p t a \/ otherCommand p t h').
  { intros h' Hh'.
    destruct (listener_eqb h' (responseHandler p t a)) eqn:E.
    - left. now apply listener_eqb_eq.
    - right. apply J2; [exact Hh'|]. intros ->.
      now rewrite (proj2 (listener_eqb_eq _ _) eq_refl) in E. }
  pose proof (pending_fold line (listeners c) c J Hall) as H. cbv zeta in H.
  rewrite Hin in H. unfold emit. destruct (resolving a line); cbn [andb negb] in H.
  - exact H.
  - destruct H as [H1 H2]. split; [exact H1|]. now rewrite H2, andb_false_r.
Qed.

Lemma outcome_deliver (lines : list string) (c : client) (s : settlement) :
  outcome c p = Some s ->
  outcome (fold_left (fun c line => emit line c) lines c) p = Some s.
Proof.
  apply outcome_extends.
  apply (extends_fold (fun c line => emit line c)). intros; apply extends_emit.
Qed.

Lemma pending_deliver (lines : list string) :
  forall c,
    pendingCommand p t a msg c ->
    let c' := fold_left (fun c line => emit line c) lines c in
    match find (resolving a) lines with
    | Some line => outcome c' p = Some (verdict line)
    | None =>
        pendingCommand p t a msg c'
        /\ armed t c' = armed t c && match lines with [] => true | _ => false end
    end.
Proof.
  induction lines as [|line lines IH]; intros c J; cbn [fold_left find].
  - now rewrite andb_true_r.
  - pose proof (pending_emit line c J) as H.
    destruct (resolving a line).
    + now apply outcome_deliver.
    + destruct H as [J' A']. specialize (IH _ J'). cbv zeta in IH.
      destruct (find (resolving a) lines); [exact IH|].
      destruct IH as [IH1 IH2]. split; [exact IH1|].
      rewrite IH2, A', andb_false_r. reflexivity.
Qed.

Lemma lookup_In {A : Type} (k : nat) (l : list (nat * A)) (v : A) :
  lookup k l = Some v -> In (k, v) l.
Proof.
  unfold lookup. induction l as [|[k' v'] l IH]; cbn [find]; [discriminate|].
  cbn [fst]. destruct (Nat.eqb k' k) eqn:E.
  - apply Nat.eqb_eq in E. subst k'. cbn [option_map snd]. intros H.
    inversion H. now left.
  - intros H. right. now apply IH.
Qed.

Lemma lookup_armed {A : Type} (c : client) :
  armed t c = true -> exists act, lookup t (timers c) = Some act.
Proof.
  unfold armed, lookup. induction (timers c) as [|[k v] l IH]; cbn [existsb find fst];
    [discriminate|].
  destruct (Nat.eqb k t); cbn [orb]; [now exists v | exact IH].
Qed.

Lemma lookup_unarmed (c : client) :
  armed t c = false -> lookup t (timers c) = None.
Proof.
  unfold armed, lookup. induction (timers c) as [|[k v] l IH]; cbn [existsb find fst];
    [reflexivity|].
  destruct (Nat.eqb k t); cbn [orb]; [discriminate | exact IH].
Qed.

(** A timer that fires. *)
Lemma pending_timer (id : nat) (c : client) :
  pendingCommand p t a msg c ->
  let c' := task (TimerFires id) c in
  if armed t c && Nat.eqb id t
  then outcome c' p = Some (Reject msg)
  else pendingCommand p t a msg c' /\ armed t c' = armed t c.
Proof.
  intros J. pose proof J as (J1 & J2 & J3 & J4 & J5). cbn [task]. cbv zeta.
  destruct (Nat.eqb id t) eqn:Eid.
  - apply Nat.eqb_eq in Eid. subst id. destruct (armed t c) eqn:Ea; cbn [andb].
    + destruct (lookup_armed (A:=unit) c Ea) as [act Hact]. rewrite Hact.
      apply lookup_In in Hact. destruct (J4 _ _ Hact) as [[_ ->] | [Hne _]];
        [|congruence].
      cbn [runTimer]. unfold outcome. fields. now apply outcome_settle_fresh.
    + rewrite (lookup_unarmed c Ea). now split.
  - rewrite andb_false_r. apply Nat.eqb_neq in Eid.
    destruct (lookup id (timers c)) as [act|] eqn:Hact; [|now split].
    apply lookup_In in Hact. destruct (J4 _ _ Hact) as [[Heq _] | [_ (h' & msg' & q & -> & Hh & Hq)]];
      [congruence|].
    cbn [runTimer]. split.
    + apply pending_settle; [exact Hq|]. apply pending_removeListener; [exact Hh|].
      now apply pending_clearTimeout.
    + change (armed t (clearTimeout id c) = armed t c).
      now apply armed_clearTimeout_other.
Qed.

Lemma microtasks_quiet (c : client) : catchers c = [] -> microtasks c = c.
Proof. unfold microtasks. now intros ->. Qed.

(** Under the events of the control channel a pending command either
    stays pending or has the outcome [resolution] reads off the events. *)
Lemma pending_run (es : list event) :
  forall c,
    pendingCommand p t a msg c ->
    Forall controlEvent es ->
    match resolution a t msg (armed t c) es with
    | Some s => outcome (run es c) p = Some s
    | None => pendingCommand p t a msg (run es c)
    end.
Proof.
  induction es as [|e es IH]; intros c J Hes.
  - exact J.
  - inversion Hes as [|? ? He Hes']; subst.
    change (run (e :: es) c) with (run es (step e c)).
    destruct e as [lines|id| | | |]; try contradiction; cbn [resolution].
    + pose proof (pending_deliver lines c J) as H. cbv zeta in H.
      unfold step. cbn [task].
      destruct (find (resolving a) lines) as [line|].
      * apply outcome_stable. apply (outcome_extends _ _ _ _ (extends_runCatchers _ _) H).
      * destruct H as [J' A']. rewrite microtasks_quiet by apply J'.
        rewrite <- A'. now apply IH.
    + pose proof (pending_timer id c J) as H. cbv zeta in H. unfold step.
      destruct (armed t c && Nat.eqb id t).
      * apply outcome_stable. apply (outcome_extends _ _ _ _ (extends_runCatchers _ _) H).
      * destruct H as [J' A']. rewrite microtasks_quiet by apply J'.
        rewrite <- A'. now apply IH.
Qed.

Lemma pending_resolution (es : list event) (c : client) :
  pendingCommand p t a msg c ->
  Forall controlEvent es ->
  outcome (run es c) p = resolution a t msg (armed t c) es.
Proof.
  intros J Hes. pose proof (pending_run es c J Hes) as H.
  destruct (resolution a t msg (armed t c) es); [exact H|].
  apply outcome_fresh. apply H.
Qed.

End Pending.

End ClientFacts.

(* ================================================================== *)
(** ** The correlator: [_sendCommand] and its replies *)
(* ================================================================== *)

Module Correlator.
Import JS Client JSFacts ClientFacts.

(** What [_sendCommand] does on a connected channel. *)
Lemma sendCommand_connected (command : string) (a : bool) (c : client) :
  connected c = true ->
  _sendCommand command a c
  = (nextPromise c,
     mkClient (buffer c) (connected c) (authenticated c) (S (commandCount c))
       (Some command)
       (listeners c ++ [responseHandler (nextPromise c) (nextTimer c) a])%list
       (timers c ++ [(nextTimer c,
                      commandTimeout (responseHandler (nextPromise c) (nextTimer c) a)
                        (timeoutError command) (nextPromise c))])%list
       (S (nextTimer c)) (S (nextPromise c)) (settled c) (catchers c)
       (written c ++ [(command ++ CRLF)%string])%list (transfers c) (nextSocket c)).
Proof.
  intros H. destruct c. cbn [connected] in H. subst. reflexivity.
Qed.

Lemma quiet_session : quiet session.
Proof. repeat split. intros e []. Defined.

(** A command sent on a quiet channel is pending, with its timer armed. *)
Lemma sendCommand_pending (command : string) (a : bool) (c : client) :
  quiet c ->
  pendingCommand (nextPromise c) (nextTimer c) a (timeoutError command)
    (snd (_sendCommand command a c))
  /\ armed (nextTimer c) (snd (_sendCommand command a c)) = true.
Proof.
  intros (Hc & Hl & Ht & Hk & Hs). rewrite sendCommand_connected by exact Hc.
  cbn [snd]. unfold pendingCommand, armed. fields. rewrite Hl, Ht, Hk. cbn [app].
  repeat split.
  - now left.
  - intros h' [<-|[]] Hne. now contradiction Hne.
  - intros e He. apply Hs in He. lia.
  - intros id act [H|[]]. inversion H; subst. now left.
  - cbn [existsb fst]. now rewrite Nat.eqb_refl.
Qed.

(** Sending another command leaves a pending command pending. *)
Lemma sendCommand_keeps_pending (p t : nat) (a : bool) (msg : string)
    (command : string) (a' : bool) (c : client) :
  connected c = true -> p < nextPromise c -> t < nextTimer c ->
  pendingCommand p t a msg c ->
  pendingCommand p t a msg (snd (_sendCommand command a' c))
  /\ armed t (snd (_sendCommand command a' c)) = armed t c.
Proof.
  intros Hc Hp Ht (J1 & J2 & J3 & J4 & J5).
  rewrite sendCommand_connected by exact Hc. cbn [snd].
  unfold pendingCommand, armed. fields. repeat split.
  - apply in_or_app. now left.
  - intros h' Hh' Hne. apply in_app_or in Hh' as [Hh'|[<-|[]]]; [now apply J2|].
    exists (nextPromise c), (nextTimer c), a'. repeat split; lia.
  - exact J3.
  - intros id act H. apply in_app_or in H as [H|[H|[]]]; [now apply J4|].
    inversion H; subst. right. split; [lia|].
    eexists _, _, _. split; [reflexivity|]. split; [|lia].
    intros E. inversion E. lia.
  - exact J5.
  - rewrite existsb_app. cbn [existsb fst].
    replace (Nat.eqb (nextTimer c) t) with false
      by (symmetry; apply Nat.eqb_neq; lia).
    now rewrite !orb_false_r.
Qed.

(** Read off a run of ['data'] events only, the resolution is the verdict
    of the first settling line. *)
Lemma resolution_responses (a : bool) (t : nat) (msg : string) (batches : list (list string)) :
  forall b,
    resolution a t msg b (map Responses batches)
    = option_map verdict (find (resolving a) (List.concat batches)).
Proof.
  induction batches as [|lines batches IH]; intros b; cbn [map resolution List.concat].
  - reflexivity.
  - destruct (find (resolving a) lines) as [line|] eqn:E.
    + now rewrite (find_app_some _ _ _ _ E).
    + rewrite IH. f_equal. clear IH. induction lines as [|x xs IHx]; [reflexivity|].
      cbn [find app] in *. destruct (resolving a x); [discriminate | now apply IHx].
Qed.

Lemma controlEvent_responses (batches : list (list string)) :
  Forall controlEvent (map Responses batches).
Proof. induction batches; constructor; [exact I | assumption]. Qed.

Lemma find_none_Forall {A : Type} (f : A -> bool) (l : list A) :
  Forall (fun x => f x = false) l -> find f l = None.
Proof.
  induction 1 as [|x l Hx _ IH]; [reflexivity|]. cbn [find]. now rewrite Hx.
Qed.

Lemma find_first {A : Type} (f : A -> bool) (l : list A) (x : A) (r : list A) :
  Forall (fun y => f y = false) l -> f x = true ->
  find f (l ++ x :: r)%list = Some x.
Proof.
  induction 1 as [|y l Hy _ IH]; intros Hx; cbn [find app].
  - now rewrite Hx.
  - rewrite Hy. now apply IH.
Qed.


Lemma geN_400_not_lt (n : option Z) : geN n 400 = true -> ltN n 400 = false.
Proof.
  destruct n as [z|]; cbn [geN ltN]; [|discriminate].
  intros H. apply Z.leb_le in H. apply Z.ltb_ge. exact H.
Qed.

Lemma waiting_lines (a : bool) (lines : list string) :
  Forall (fun l => terminal l = false \/ (a = true /\ preliminary l = true)) lines ->
  Forall (fun l => resolving a l = false) lines.
Proof.
  apply Forall_impl. intros l [H|[-> H]]; unfold resolving; rewrite H.
  - reflexivity.
  - cbn [andb negb]. apply andb_false_r.
Qed.

Lemma settling_line (a : bool) (line : string) :
  terminal line = true -> (a = true -> preliminary line = false) ->
  resolving a line = true.
Proof.
  intros H1 H2. unfold resolving. rewrite H1. destruct a.
  - now rewrite H2.
  - now rewrite andb_false_r.
Qed.

(** C5.  A command sent on a quiet channel of a client that has logged
    in, whatever way the reply lines arrive in ['data'] events: as long as only lines that are not terminal
    or, with [allowPreliminary], terminal with a code in 100..199 have
    arrived, the command is pending and its handler listening; the first
    terminal line other than those settles it, resolving with
    [{code, message, raw}] for a code in 200..399 and rejecting with
    ["FTP Error <code>: <message>"] otherwise, in particular for every
    code >= 400. *)
Theorem first_final_reply_settles_command
    (c : client) (command : string) (a : bool) (before : list string)
    (line : string) :
  quiet c ->
  authenticated c = true ->
  Forall (fun l => terminal l = false \/ (a = true /\ preliminary l = true))
         before ->
  terminal line = true ->
  (a = true -> preliminary line = false) ->
  let '(p, c1) := _sendCommand command a c in
  (forall batches, List.concat batches = before ->
     outcome (run (map Responses batches) c1) p = None
     /\ In (responseHandler p (nextTimer c) a)
           (listeners (run (map Responses batches) c1)))
  /\ (forall batches, List.concat batches = (before ++ [line])%list ->
        outcome (run (map Responses batches) c1) p = Some (verdict line))
  /\ (geN (replyCode line) 200 && ltN (replyCode line) 400 = true ->
        verdict line
        = Resolve (VResponse (mkResponse (replyCode line) (replyMessage line) line)))
  /\ (geN (replyCode line) 400 = true ->
        verdict line
        = Reject ("FTP Error " ++ showNumber (replyCode line) ++ ": "
                  ++ replyMessage line)).
Proof.
  intros Hq _ Hbefore Hterm Hprel.
  pose proof (sendCommand_pending command a c Hq) as [J A].
  destruct Hq as (Hc & _). rewrite sendCommand_connected in * by exact Hc.
  cbn [snd] in J, A.
  apply waiting_lines in Hbefore. pose proof (settling_line a line Hterm Hprel) as Hline.
  repeat split.
  - rewrite (pending_resolution _ _ _ _ _ _ J (controlEvent_responses _)).
    rewrite resolution_responses, H. now rewrite (find_none_Forall _ _ Hbefore).
  - pose proof (pending_run _ _ _ _ _ _ J (controlEvent_responses batches)) as R.
    rewrite resolution_responses, H, (find_none_Forall _ _ Hbefore) in R.
    cbn [option_map] in R. apply R.
  - intros batches H.
    rewrite (pending_resolution _ _ _ _ _ _ J (controlEvent_responses _)).
    rewrite resolution_responses, H. now rewrite (find_first _ _ _ _ Hbefore Hline).
  - intros H. unfold verdict. now rewrite H.
  - intros H. unfold verdict. now rewrite (geN_400_not_lt _ H), andb_false_r.
Qed.

Lemma first_final_reply_settles_command_witness :
  quiet session
  /\ authenticated session = true
  /\ outcome (run [Responses ["150 Opening data connection"];
                   Responses ["226-Transfer"; "226 Transfer complete"]]
                  (snd (_sendCommand "RETR a.txt" true session))) 0
     = Some (Resolve (VResponse (mkResponse (Some 226%Z) "Transfer complete"
                                   "226 Transfer complete"))).
Proof.
  split; [exact quiet_session|]. split; [reflexivity|].
  assert (Hb : Forall (fun l => terminal l = false
                        \/ (true = true /\ preliminary l = true))
                 ["150 Opening data connection"; "226-Transfer"])
    by (constructor; [right; split; reflexivity|];
        constructor; [left; reflexivity | constructor]).
  pose proof (first_final_reply_settles_command session "RETR a.txt" true
                ["150 Opening data connection"; "226-Transfer"]
                "226 Transfer complete" quiet_session eq_refl Hb eq_refl
                (fun _ => eq_refl)) as H.
  rewrite (sendCommand_connected _ _ session eq_refl) in H. cbv iota beta in H.
  destruct H as (_ & H & _).
  exact (H [["150 Opening data connection"];
            ["226-Transfer"; "226 Transfer complete"]] eq_refl).
Defined.


(** *** A single pending command on an otherwise quiet channel *)

Lemma emit_single (h : listener) (line : string) (c : client) :
  listeners c = [h] -> emit line c = callListener h line c.
Proof. unfold emit. now intros ->. Qed.

Lemma emit_idle (line : string) (c : client) : listeners c = [] -> emit line c = c.
Proof. unfold emit. now intros ->. Qed.

Lemma deliver_idle (lines : list string) (c : client) :
  listeners c = [] -> fold_left (fun c line => emit line c) lines c = c.
Proof.
  intros H. induction lines as [|l ls IH]; cbn [fold_left]; [reflexivity|].
  now rewrite (emit_idle _ _ H).
Qed.

Lemma run_responses_idle (batches : list (list string)) (c : client) :
  listeners c = [] -> catchers c = [] -> run (map Responses batches) c = c.
Proof.
  intros Hl Hk. induction batches as [|b bs IH]; [reflexivity|].
  cbn [map]. change (run (Responses b :: map Responses bs) c)
    with (run (map Responses bs) (step (Responses b) c)).
  unfold step. cbn [task]. rewrite (deliver_idle _ _ Hl), (microtasks_quiet _ Hk).
  exact IH.
Qed.

Lemma single_deliver_waiting (p t : nat) (a : bool) (lines : list string) :
  forall c,
    listeners c = [responseHandler p t a] ->
    Forall (fun l => resolving a l = false) lines ->
    let c' := fold_left (fun c line => emit line c) lines c in
    listeners c' = [responseHandler p t a]
    /\ settled c' = settled c /\ catchers c' = catchers c
    /\ connected c' = connected c /\ nextPromise c' = nextPromise c.
Proof.
  induction lines as [|l ls IH]; intros c Hl Hls; cbn [fold_left].
  - now repeat split.
  - inversion Hls as [|? ? Hx Hrest]; subst.
    rewrite (emit_single _ _ _ Hl). cbn [callListener].
    rewrite callResponseHandler_waiting by exact Hx.
    destruct (IH (clearTimeout t c) Hl Hrest) as (H1 & H2 & H3 & H4 & H5).
    now repeat split.
Qed.

Lemma single_emit_settling (p t : nat) (a : bool) (line : string) (c : client) :
  listeners c = [responseHandler p t a] ->
  resolving a line = true ->
  listeners (emit line c) = []
  /\ settled (emit line c) = (settled c ++ [(p, verdict line)])%list
  /\ catchers (emit line c) = catchers c.
Proof.
  intros Hl Hx. rewrite (emit_single _ _ _ Hl). cbn [callListener].
  rewrite callResponseHandler_settling by exact Hx. fields. rewrite Hl.
  cbn [rev app removeFirst].
  rewrite (proj2 (listener_eqb_eq _ _) eq_refl). now repeat split.
Qed.

Lemma settleCalls_once (p : nat) (s : settlement) (l : list (nat * settlement)) :
  (forall e, In e l -> fst e <> p) ->
  List.length (filter (fun e => Nat.eqb (fst e) p) (l ++ [(p, s)])%list) = 1.
Proof.
  induction l as [|x xs IH]; intros H; cbn [filter app fst].
  - now rewrite Nat.eqb_refl.
  - destruct (Nat.eqb (fst x) p) eqn:E.
    + apply Nat.eqb_eq in E. exfalso. apply (H x); [now left | exact E].
    + apply IH. intros e He. apply H. now right.
Qed.

Lemma settleCalls_none (p : nat) (l : list (nat * settlement)) :
  (forall e, In e l -> fst e <> p) ->
  List.length (filter (fun e => Nat.eqb (fst e) p) l) = 0.
Proof.
  induction l as [|x xs IH]; intros H; cbn [filter]; [reflexivity|].
  destruct (Nat.eqb (fst x) p) eqn:E.
  - apply Nat.eqb_eq in E. exfalso. apply (H x); [now left | exact E].
  - apply IH. intros e He. apply H. now right.
Qed.

Lemma continuation_not_terminal (line : string) :
  continuation line = true -> terminal line = false.
Proof.
  unfold continuation, terminal. intros H. apply String.eqb_eq in H. now rewrite H.
Qed.

Lemma continuation_waiting (a : bool) (lines : list string) :
  Forall (fun l => continuation l = true) lines ->
  Forall (fun l => resolving a l = false) lines.
Proof.
  apply Forall_impl. intros l H. unfold resolving.
  now rewrite (continuation_not_terminal _ H).
Qed.

Lemma Forall_firstn_keep {A : Type} (P : A -> Prop) (l : list A) :
  Forall P l -> forall k, Forall P (firstn k l).
Proof.
  induction 1 as [|x l Hx _ IH]; intros [|k]; cbn [firstn]; constructor;
    [exact Hx | apply IH].
Qed.

(** C6, as amended.  A reply of one or more hyphen lines followed by a
    space line, delivered to a command pending on a quiet channel of a
    client that has logged in: the
    hyphen lines settle nothing; the space line settles the command with
    its own code and message, by a single call of [resolve] or [reject],
    and nothing delivered later calls them again -- unless the command was
    sent with [allowPreliminary] and the code of the space line is in
    100..199, in which case the whole reply settles nothing and the handler
    keeps listening. *)
Theorem multiline_reply_settles_at_final_line
    (c : client) (command : string) (a : bool) (lines : list string)
    (final : string) :
  quiet c ->
  authenticated c = true ->
  lines <> [] ->
  Forall (fun l => continuation l = true) lines ->
  terminal final = true ->
  let '(p, c1) := _sendCommand command a c in
  let c' := run [Responses (lines ++ [final])%list] c1 in
  (forall k, outcome (run [Responses (firstn k lines)] c1) p = None
             /\ settleCalls (run [Responses (firstn k lines)] c1) p = 0)
  /\ (if preliminary final && a
      then outcome c' p = None
           /\ settleCalls c' p = 0
           /\ listeners c' = [responseHandler p (nextTimer c) a]
      else outcome c' p = Some (verdict final)
           /\ settleCalls c' p = 1
           /\ forall later, settleCalls (run (map Responses later) c') p = 1).
Proof.
  intros Hq _ Hne Hlines Hfinal.
  pose proof Hq as (Hc & Hl & Ht & Hk & Hs).
  rewrite sendCommand_connected by exact Hc. cbv zeta.
  set (p := nextPromise c). set (t := nextTimer c).
  match goal with |- context [run _ ?x] => set (c1 := x) end.
  assert (Hl1 : listeners c1 = [responseHandler p t a])
    by (unfold c1; fields; now rewrite Hl).
  assert (Hk1 : catchers c1 = []) by exact Hk.
  assert (Hfresh : forall e, In e (settled c1) -> fst e <> p)
    by (intros e He; apply Hs in He; unfold p; lia).
  pose proof (continuation_waiting a _ Hlines) as Hwait.
  split.
  - intros k.
    pose proof (Forall_firstn_keep _ _ Hwait k) as Hk'.
    destruct (single_deliver_waiting p t a _ c1 Hl1 Hk') as (_ & H2 & H3 & _).
    unfold run. cbn [fold_left]. unfold step. cbn [task].
    rewrite microtasks_quiet by (now rewrite H3).
    unfold outcome, settleCalls. rewrite H2. split.
    + now apply outcome_fresh.
    + now apply settleCalls_none.
  - destruct (single_deliver_waiting p t a _ c1 Hl1 Hwait) as (H1 & H2 & H3 & _).
    cbv zeta in H1, H2, H3.
    assert (Hrun : run [Responses (lines ++ [final])%list] c1
                   = microtasks (emit final
                       (fold_left (fun c line => emit line c) lines c1))).
    { unfold run, step. cbn [fold_left task]. now rewrite fold_left_app. }
    rewrite Hrun. clear Hrun.
    set (c2 := fold_left (fun c line => emit line c) lines c1) in *.
    destruct (preliminary final && a) eqn:E.
    + assert (Hx : resolving a final = false)
        by (unfold resolving; now rewrite E, andb_false_r).
      rewrite (emit_single _ _ _ H1). cbn [callListener].
      rewrite callResponseHandler_waiting by exact Hx.
      rewrite microtasks_quiet by (fields; now rewrite H3).
      unfold outcome, settleCalls. fields. rewrite H2. repeat split.
      * now apply outcome_fresh.
      * now apply settleCalls_none.
      * exact H1.
    + assert (Hx : resolving a final = true)
        by (unfold resolving; now rewrite E, Hfinal).
      destruct (single_emit_settling p t a final c2 H1 Hx) as (E1 & E2 & E3).
      rewrite microtasks_quiet by (now rewrite E3, H3).
      assert (Hcalls : settleCalls (emit final c2) p = 1).
      { unfold settleCalls. rewrite E2, H2. now apply settleCalls_once. }
      repeat split.
      * unfold outcome. rewrite E2, H2. now apply outcome_settle_fresh.
      * exact Hcalls.
      * intros later.
        rewrite run_responses_idle; [exact Hcalls | exact E1 | now rewrite E3, H3].
Qed.

Lemma multiline_reply_settles_at_final_line_witness :
  quiet session
  /\ authenticated session = true
  /\ outcome (run [Responses ["211-Features:"; "211- SIZE"; "211 End"]]
                  (snd (_sendCommand "FEAT" false session))) 0
     = Some (Resolve (VResponse (mkResponse (Some 211%Z) "End" "211 End"))).
Proof.
  split; [exact quiet_session|]. split; [reflexivity|].
  assert (Hl : Forall (fun l => continuation l = true) ["211-Features:"; "211- SIZE"])
    by (repeat constructor).
  assert (Hne : ["211-Features:"; "211- SIZE"] <> []) by discriminate.
  pose proof (multiline_reply_settles_at_final_line session "FEAT" false
                ["211-Features:"; "211- SIZE"] "211 End"
                quiet_session eq_refl Hne Hl eq_refl) as H.
  rewrite (sendCommand_connected _ _ session eq_refl) in H. cbv iota beta zeta in H.
  destruct H as (_ & H). exact (proj1 H).
Defined.

(** C6, counterexample to the statement as made: sent with
    [allowPreliminary], a command is not settled by the two-line reply
    [150-...], [150 ...]. *)
Lemma multiline_preliminary_reply_settles_nothing : ~ multilineReplySettlesOnce.
Proof.
  intros H.
  specialize (H session "STOR a.txt" true ["150-Opening"] "150 Opening data connection"
                quiet_session eq_refl).
  assert (Hne : ["150-Opening"] <> []) by discriminate.
  assert (Hl : Forall (fun l => continuation l = true) ["150-Opening"])
    by (repeat constructor).
  specialize (H Hne Hl eq_refl). vm_compute in H. discriminate H.
Qed.


(** *** Lines that do not start with a status code *)

Lemma not_three_digits_code (line : string) :
  threeDigits (substring line 0 3) = false -> geN (replyCode line) 100 = false.
Proof.
  intros H. unfold replyCode. destruct (parseInt (substring line 0 3)) as [n|] eqn:E;
    [|reflexivity].
  cbn [geN]. destruct (100 <=? n)%Z eqn:L; [|reflexivity].
  apply Z.leb_le in L.
  pose proof (parseInt_ge_100 _ _ (substring_0_3_length line) E L). congruence.
Qed.

Lemma geN_mono (n : option Z) (j k : Z) :
  (j <= k)%Z -> geN n j = false -> geN n k = false.
Proof.
  destruct n as [z|]; cbn [geN]; [|reflexivity].
  intros Hjk H. apply Z.leb_gt in H. apply Z.leb_gt. lia.
Qed.

(** C9, as amended.  A line whose first three characters are not three
    decimal digits, delivered to a command pending on a quiet channel, is
    never taken for a success or a preliminary reply: what [parseInt] makes
    of the three characters is [NaN] or a number below 100; when the fourth
    character is a space the command is rejected with the ordinary error
    ["FTP Error <n>: <message>"] and its listener removed; otherwise the
    line is ignored and the command stays pending. *)
Theorem malformed_line_is_rejected_or_ignored
    (c : client) (command : string) (a : bool) (line : string) :
  quiet c ->
  threeDigits (substring line 0 3) = false ->
  let '(p, c1) := _sendCommand command a c in
  let c' := run [Responses [line]] c1 in
  geN (replyCode line) 100 = false
  /\ (terminal line = true ->
        outcome c' p
        = Some (Reject ("FTP Error " ++ showNumber (replyCode line) ++ ": "
                        ++ replyMessage line))
        /\ listeners c' = [])
  /\ (terminal line = false ->
        outcome c' p = None
        /\ listeners c' = [responseHandler p (nextTimer c) a]).
Proof.
  intros Hq Hline. pose proof (not_three_digits_code line Hline) as Hcode.
  pose proof Hq as (Hc & Hl & Ht & Hk & Hs).
  rewrite sendCommand_connected by exact Hc. cbv zeta.
  set (p := nextPromise c). set (t := nextTimer c).
  match goal with |- context [run _ ?x] => set (c1 := x) end.
  assert (Hl1 : listeners c1 = [responseHandler p t a])
    by (unfold c1; fields; now rewrite Hl).
  assert (Hfresh : forall e, In e (settled c1) -> fst e <> p)
    by (intros e He; apply Hs in He; unfold p; lia).
  assert (Hrun : run [Responses [line]] c1 = microtasks (emit line c1)) by reflexivity.
  rewrite Hrun. clear Hrun.
  assert (Hres : resolving a line = terminal line).
  { unfold resolving, preliminary. rewrite Hcode. cbn [andb negb]. apply andb_true_r. }
  assert (Hverdict : verdict line = Reject (ftpError (replyCode line) (replyMessage line))).
  { unfold verdict. now rewrite (geN_mono _ 100 200 ltac:(lia) Hcode). }
  split; [exact Hcode|]. split; intros Hterm; rewrite Hterm in Hres.
  - destruct (single_emit_settling p t a line c1 Hl1 Hres) as (E1 & E2 & E3).
    rewrite microtasks_quiet by (rewrite E3; exact Hk). split; [|exact E1].
    unfold outcome. rewrite E2, Hverdict. now apply outcome_settle_fresh.
  - rewrite (emit_single _ _ _ Hl1). cbn [callListener].
    rewrite callResponseHandler_waiting by exact Hres.
    rewrite microtasks_quiet by exact Hk. split; [|exact Hl1].
    now apply outcome_fresh.
Qed.

Lemma malformed_line_is_rejected_or_ignored_witness :
  quiet session
  /\ threeDigits (substring "ab  hello" 0 3) = false
  /\ outcome (run [Responses ["ab  hello"]] (snd (_sendCommand "NOOP" false session))) 0
     = Some (Reject "FTP Error NaN: hello").
Proof.
  split; [exact quiet_session|]. split; [reflexivity|].
  pose proof (malformed_line_is_rejected_or_ignored session "NOOP" false "ab  hello"
                quiet_session eq_refl) as H.
  rewrite (sendCommand_connected _ _ session eq_refl) in H. cbv iota beta zeta in H.
  destruct H as (_ & H & _). exact (proj1 (H eq_refl)).
Defined.

(** C9, counterexample to the statement as made: the line [hello world]
    has no status code, and the pending command neither fails nor settles
    in any other way. *)
Lemma line_without_code_is_ignored : ~ nonNumericLineFails.
Proof.
  intros H. specialize (H session "NOOP" false "hello world" quiet_session eq_refl).
  vm_compute in H. destruct H as [msg H]. discriminate H.
Qed.

(** *** Two commands at once *)

(** C2, as amended.  On a channel of a client that has logged in, with
    one command pending, a second send is accepted: its promise is
    pending, its listener is registered after the first and its command
    line is written, so two commands are pending at once; under every
    sequence of ['data'] and timer events the outcome of the first command
    is what it is without the second send; and a line that settles the
    first is handed to the second listener too: it settles the second
    command with the same verdict, unless the second was sent with
    [allowPreliminary] and the code of the line is in 100..199, in which
    case the second command stays pending with its listener. *)
Theorem second_send_is_accepted_and_harmless
    (c : client) (command1 : string) (a1 : bool) (command2 : string) (a2 : bool) :
  quiet c ->
  authenticated c = true ->
  let '(p1, c1) := _sendCommand command1 a1 c in
  let '(p2, c2) := _sendCommand command2 a2 c1 in
  outcome c2 p2 = None
  /\ listeners c2 = [responseHandler p1 (nextTimer c) a1;
                     responseHandler p2 (S (nextTimer c)) a2]
  /\ written c2 = (written c ++ [(command1 ++ CRLF)%string;
                                 (command2 ++ CRLF)%string])%list
  /\ (forall es, Forall controlEvent es ->
        outcome (run es c2) p1 = outcome (run es c1) p1)
  /\ (forall line, resolving a1 line = true ->
        outcome (run [Responses [line]] c2) p1 = Some (verdict line)
        /\ if preliminary line && a2
           then outcome (run [Responses [line]] c2) p2 = None
                /\ In (responseHandler p2 (S (nextTimer c)) a2)
                      (listeners (run [Responses [line]] c2))
           else outcome (run [Responses [line]] c2) p2 = Some (verdict line)).
Proof.
  intros Hq _. pose proof (sendCommand_pending command1 a1 c Hq) as [J1 A1].
  pose proof Hq as (Hc & Hl & Ht & Hk & Hs).
  rewrite sendCommand_connected in * by exact Hc. cbn [snd] in J1, A1.
  set (p1 := nextPromise c) in *. set (t1 := nextTimer c) in *.
  match type of J1 with pendingCommand _ _ _ _ ?x => set (c1 := x) in * end.
  assert (Hc1 : connected c1 = true) by exact Hc.
  pose proof (sendCommand_keeps_pending p1 t1 a1 (timeoutError command1)
                command2 a2 c1 Hc1 (Nat.lt_succ_diag_r _) (Nat.lt_succ_diag_r _) J1)
    as [J12 A12].
  rewrite sendCommand_connected in * by exact Hc1. cbn [snd] in J12, A12.
  match type of J12 with pendingCommand _ _ _ _ ?x => set (c2 := x) in * end.
  assert (J2 : pendingCommand (S p1) (S t1) a2 (timeoutError command2) c2).
  { unfold pendingCommand, c2, c1. fields. rewrite Hl, Ht, Hk. cbn [app].
    repeat split.
    - right. now left.
    - intros h' [<-|[<-|[]]] Hne; [|now contradiction Hne].
      exists p1, t1, a1. repeat split; lia.
    - intros e He. apply Hs in He. fold p1 in He. lia.
    - intros id act [H|[H|[]]]; inversion H; subst.
      + right. split; [lia|]. eexists _, _, _. split; [reflexivity|].
        split; [|lia]. intros E. inversion E. lia.
      + now left. }
  assert (Hfresh2 : forall e, In e (settled c2) -> fst e <> S p1)
    by (intros e He; apply Hs in He; fold p1 in He; lia).
  split; [now apply outcome_fresh|].
  split; [unfold c2, c1; fields; now rewrite Hl|].
  split; [unfold c2, c1; fields; now rewrite <- app_assoc|].
  split.
  - intros es Hes.
    rewrite (pending_resolution _ _ _ _ _ _ J12 Hes),
      (pending_resolution _ _ _ _ _ _ J1 Hes), A12. reflexivity.
  - intros line H. split.
    + rewrite (pending_resolution _ _ _ _ [Responses [line]] _ J12
                 (Forall_cons (Responses [line]) I (Forall_nil _))).
      cbn [resolution find]. now rewrite H.
    + change (nextPromise c1) with (S p1).
      pose proof (pending_run _ _ _ _ [Responses [line]] c2 J2
                    (Forall_cons (Responses [line]) I (Forall_nil _))) as R.
      cbn [resolution find] in R.
      assert (Ht' : terminal line = true)
        by (unfold resolving in H; now apply andb_true_iff in H as [? _]).
      unfold resolving in R. rewrite Ht' in R. cbn [andb] in R.
      destruct (preliminary line && a2); cbn [negb] in R.
      * split; [apply outcome_fresh; apply R | apply R].
      * exact R.
Qed.

Lemma second_send_is_accepted_and_harmless_witness :
  quiet session
  /\ authenticated session = true
  /\ outcome (run [Responses ["257 /home"]]
                (snd (_sendCommand "NOOP" false (snd (_sendCommand "PWD" false session)))))
             0
     = outcome (run [Responses ["257 /home"]] (snd (_sendCommand "PWD" false session))) 0.
Proof.
  split; [exact quiet_session|]. split; [reflexivity|].
  pose proof (second_send_is_accepted_and_harmless session "PWD" false "NOOP" false
                quiet_session eq_refl) as H.
  rewrite (sendCommand_connected _ _ session eq_refl) in H. cbv iota beta in H.
  match type of H with context [_sendCommand "NOOP" false ?x] =>
    rewrite (sendCommand_connected "NOOP" false x eq_refl) in H end.
  cbv iota beta in H.
  destruct H as (_ & _ & _ & H & _).
  exact (H [Responses ["257 /home"]]
           (Forall_cons (Responses ["257 /home"]) I (Forall_nil _))).
Defined.

(** C2, counterexample to the statement as made: the second send is not
    refused, its promise is simply pending. *)
Lemma second_send_is_not_refused : ~ secondSendIsRefused.
Proof.
  intros H. specialize (H session "PWD" false "NOOP" false quiet_session eq_refl).
  vm_compute in H. destruct H as [msg H]. discriminate H.
Qed.


(** *** The deadline of a command *)

Lemma resolution_disarmed (a : bool) (t : nat) (msg : string) (ids : list nat) :
  resolution a t msg false (map TimerFires ids) = None.
Proof. induction ids as [|id ids IH]; [reflexivity | exact IH]. Qed.

Lemma controlEvent_timers (ids : list nat) : Forall controlEvent (map TimerFires ids).
Proof. induction ids; constructor; [exact I | assumption]. Qed.

(** Once any line that does not settle the command has arrived, no timer
    can reject it any more. *)
Lemma deadline_lost_after_a_line
    (c : client) (command : string) (a : bool) (line : string) (ids : list nat) :
  quiet c ->
  resolving a line = false ->
  outcome (run (Responses [line] :: map TimerFires ids)
               (snd (_sendCommand command a c))) (nextPromise c) = None.
Proof.
  intros Hq Hline. destruct (sendCommand_pending command a c Hq) as [J A].
  rewrite (pending_resolution _ _ _ _ _ _ J
             (Forall_cons (Responses [line]) I (controlEvent_timers ids))).
  cbn [resolution find]. rewrite Hline, A. cbn [andb].
  apply resolution_disarmed.
Qed.

(** When no line at all arrives before the deadline, the command is
    rejected with the timeout error naming it (a password masked), its
    listener is removed, and the channel is quiet again, so that the next
    command is sent and pending like the first. *)
Lemma command_times_out_and_channel_is_free
    (c : client) (command : string) (a : bool) :
  quiet c ->
  let '(p, c1) := _sendCommand command a c in
  let c2 := run [TimerFires (nextTimer c)] c1 in
  outcome c2 p = Some (Reject (timeoutError command))
  /\ listeners c2 = []
  /\ quiet c2.
Proof.
  intros Hq. pose proof Hq as (Hc & Hl & Ht & Hk & Hs).
  rewrite sendCommand_connected by exact Hc. cbv zeta.
  destruct c. cbn [connected listeners timers catchers settled nextPromise] in *.
  subst. clear Hq.
  unfold run, step. cbn [fold_left task]. unfold lookup.
  cbn [timers nextTimer app find fst]. rewrite Nat.eqb_refl.
  cbn [option_map snd runTimer]. rewrite microtasks_quiet by reflexivity.
  unfold outcome, quiet. fields. cbn [app rev removeFirst filter fst].
  rewrite (proj2 (listener_eqb_eq _ _) eq_refl), Nat.eqb_refl. cbn [negb rev app].
  repeat split.
  - apply outcome_settle_fresh. intros e He. apply Hs in He. lia.
  - intros e He. apply in_app_or in He as [He|[<-|[]]]; [apply Hs in He|]; cbn [fst]; lia.
Qed.

(** C3, the failing input.  [FEAT] is sent on a fresh session and its
    timer is armed; the continuation line [211-Features:] arrives and
    nothing else; the deadline passes.  [responseHandler] has cancelled
    the timer at the line, so the promise is not rejected with the timeout
    error: it stays pending with its listener registered, whatever timers
    fire afterwards. *)
Theorem continuation_line_cancels_command_timeout :
  let '(p, c1) := _sendCommand "FEAT" false session in
  let c2 := run [Responses ["211-Features:"]; TimerFires 0] c1 in
  armed 0 c1 = true
  /\ timers (run [Responses ["211-Features:"]] c1) = []
  /\ outcome c2 p = None
  /\ listeners c2 = [responseHandler 0 0 false]
  /\ (forall ids,
        outcome (run (Responses ["211-Features:"] :: map TimerFires ids) c1) p
        = None).
Proof.
  cbv beta iota zeta. repeat split.
  intros ids.
  exact (deadline_lost_after_a_line session "FEAT" false "211-Features:" ids
           quiet_session eq_refl).
Qed.

End Correlator.

(* ================================================================== *)
(** ** Transfers: the data socket closes, then the control channel
       delivers [550 No such file] *)
(* ================================================================== *)

Module Transfers.
Import JS Client ClientFacts.

(** C1, as amended.  A transfer is started on a fresh session, its data
    socket connects and closes without a byte, and the control channel
    then delivers [550 No such file] before any timer fires.  In the
    transfer code of releases 1.0 and 2.1, which listens for the final
    reply once the data socket has closed, the transfer is rejected with
    an error that carries code 550 and the text [No such file], and stays
    rejected whatever happens later.  In the transfer code of release 2.2,
    which listens to nothing after the close, the reply changes nothing:
    the transfer is pending until the timer armed at the close fires and
    then resolves successfully with the empty payload. *)
Theorem empty_transfer_then_550 (k : kind) (path data : string) :
  (forall r, r = R1_0 \/ r = R2_1 ->
     let '(p, s, c) := startTransfer r k path data session in
     let c' := run [DataConnected s; DataClosed s;
                    Responses ["550 No such file"]] c in
     let msg :=
       match r, k with
       | R2_1, Upload =>
           "Upload failed - FTP Error 550: No such file (path: " ++ path ++ ")"
       | R2_1, Download =>
           "Download failed - FTP Error 550: No such file (path: " ++ path ++ ")"
       | _, _ => "FTP Error 550: No such file"
       end in
     includes msg "FTP Error 550: No such file" = true
     /\ outcome c' p = Some (Reject msg)
     /\ forall later, outcome (run later c') p = Some (Reject msg))
  /\ (let '(p, s, c) := startTransfer R2_2 k path data session in
      let c' := run [DataConnected s; DataClosed s;
                     Responses ["550 No such file"]] c in
      listeners c' = []
      /\ outcome c' p = None
      /\ outcome (run [TimerFires 0] c') p = Some (Resolve (transferResult k ""))
      /\ forall later,
           outcome (run (TimerFires 0 :: later) c') p
           = Some (Resolve (transferResult k ""))).
Proof.
  split.
  - intros r [-> | ->]; destruct k; cbv beta iota zeta delta [startTransfer newPromise];
      (split; [reflexivity|]);
      (match goal with
       | |- ?A /\ _ => assert (H : A) by (vm_compute; reflexivity)
       end; split; [exact H|]; intros later; now apply outcome_stable).
  - destruct k; cbv beta iota zeta delta [startTransfer newPromise];
      (split; [reflexivity|]); (split; [reflexivity|]);
      (match goal with
       | |- ?A /\ _ => assert (H : A) by (vm_compute; reflexivity)
       end; split; [exact H|]; intros later;
       change (run (TimerFires 0 :: later) ?x) with (run later (run [TimerFires 0] x));
       now apply outcome_stable).
Qed.

Lemma empty_transfer_then_550_witness :
  (R2_1 = R1_0 \/ R2_1 = R2_1)
  /\ outcome (run [DataConnected 0; DataClosed 0; Responses ["550 No such file"]]
                 (snd (startTransfer R2_1 Download "/missing.txt" "" session))) 0
     = Some (Reject "Download failed - FTP Error 550: No such file (path: /missing.txt)").
Proof.
  split; [right; reflexivity|].
  pose proof (proj1 (empty_transfer_then_550 Download "/missing.txt" "")
                R2_1 (or_intror eq_refl)) as H.
  cbv beta iota zeta delta [startTransfer newPromise] in H.
  exact (proj1 (proj2 H)).
Defined.

(** C1, counterexample to the statement as made: with the transfer code
    of release 2.2 a download whose data socket closed without a byte
    resolves with the empty buffer although [550 No such file] arrived. *)
Lemma empty_download_resolves_despite_550 : ~ emptyTransferWith550Fails.
Proof.
  intros H. specialize (H R2_2 Download "/missing.txt" "").
  cbv beta iota zeta delta [startTransfer newPromise] in H.
  specialize (H [TimerFires 0]). vm_compute in H.
  destruct H as [msg H]. discriminate H.
Qed.

End Transfers.

(* ================================================================== *)
(** ** Passive mode: decoding the reply to [PASV] *)
(* ================================================================== *)

Module PassiveFacts.
Import JS Client Passive JSFacts.

Lemma digitRun_sound (s : string) :
  forall d r, digitRun s = (d, r) -> s = (d ++ r)%string /\ allDigits d = true.
Proof.
  induction s as [|c s IH]; intros d r H; cbn [digitRun] in H.
  - inversion H. now split.
  - destruct (isDigit c) eqn:E.
    + destruct (digitRun s) as [d' r']. inversion H; subst.
      destruct (IH d' r eq_refl) as [-> Hd]. cbn [allDigits String.append].
      now rewrite E, Hd.
    + inversion H. now split.
Qed.

Lemma digitRun_app (d : string) (c : ascii) (r : string) :
  allDigits d = true -> isDigit c = false ->
  digitRun (d ++ String c r) = (d, String c r).
Proof.
  intros Hd Hc. induction d as [|x d IH]; cbn [String.append digitRun].
  - now rewrite Hc.
  - cbn [allDigits] in Hd. apply andb_true_iff in Hd as [Hx Hd].
    now rewrite Hx, (IH Hd).
Qed.

Lemma group_complete (stop : ascii) (d r : string) :
  number d = true -> isDigit stop = false ->
  group stop (d ++ String stop r) = Some (d, r).
Proof.
  unfold number, group. intros H Hs. apply andb_true_iff in H as [Hne Hd].
  rewrite (digitRun_app _ _ _ Hd Hs). destruct d as [|x d]; [discriminate|].
  now rewrite Ascii.eqb_refl.
Qed.

Lemma group_sound (stop : ascii) (s d r : string) :
  group stop s = Some (d, r) -> s = (d ++ String stop r)%string /\ number d = true.
Proof.
  unfold group, number. destruct (digitRun s) as [d' r'] eqn:E.
  apply digitRun_sound in E as [-> Hd].
  destruct d' as [|x d']; [discriminate|]. destruct r' as [|c r']; [discriminate|].
  destruct (Ascii.eqb c stop) eqn:Ec; [|discriminate].
  apply Ascii.eqb_eq in Ec. subst c. intros H. inversion H; subst.
  split; [reflexivity | exact Hd].
Qed.

Lemma sixGroups_app (g1 g2 g3 g4 g5 g6 post : string) :
  (sixGroups g1 g2 g3 g4 g5 g6 ++ post)%string
  = String "("%char
      (g1 ++ String ","%char (g2 ++ String ","%char (g3 ++ String ","%char
      (g4 ++ String ","%char (g5 ++ String ","%char (g6 ++ String ")"%char post)))))).
Proof.
  unfold sixGroups. cbn [String.append]. f_equal.
  repeat (rewrite append_assoc; cbn [String.append]; f_equal).
Qed.

Lemma matchHere_complete (g1 g2 g3 g4 g5 g6 post : string) :
  forallb number [g1; g2; g3; g4; g5; g6] = true ->
  matchHere (sixGroups g1 g2 g3 g4 g5 g6 ++ post) = Some [g1; g2; g3; g4; g5; g6].
Proof.
  cbn [forallb]. intros H.
  repeat (apply andb_true_iff in H; destruct H as [?H H]).
  rewrite sixGroups_app. cbn [matchHere]. rewrite Ascii.eqb_refl.
  now rewrite !group_complete by (assumption || reflexivity).
Qed.

Lemma matchHere_sound (s : string) (g : list string) :
  matchHere s = Some g -> exists post, occurrence s EmptyString g post.
Proof.
  unfold matchHere. destruct s as [|c r0]; [discriminate|].
  destruct (Ascii.eqb c "("%char) eqn:Ec.
  - apply Ascii.eqb_eq in Ec. subst c.
    destruct (group ","%char r0) as [[g1 r1]|] eqn:E1; [|discriminate].
    destruct (group ","%char r1) as [[g2 r2]|] eqn:E2; [|discriminate].
    destruct (group ","%char r2) as [[g3 r3]|] eqn:E3; [|discriminate].
    destruct (group ","%char r3) as [[g4 r4]|] eqn:E4; [|discriminate].
    destruct (group ","%char r4) as [[g5 r5]|] eqn:E5; [|discriminate].
    destruct (group ")"%char r5) as [[g6 r6]|] eqn:E6; [|discriminate].
    intros H. inversion H; subst. exists r6.
    apply group_sound in E1 as [-> N1], E2 as [-> N2], E3 as [-> N3],
      E4 as [-> N4], E5 as [-> N5], E6 as [-> N6].
    unfold occurrence. cbn [String.append forallb].
    rewrite sixGroups_app, N1, N2, N3, N4, N5, N6. now split.
  - discriminate.
Qed.


Lemma occurrence_inv (s pre : string) (g : list string) (post : string) :
  occurrence s pre g post ->
  exists g1 g2 g3 g4 g5 g6,
    g = [g1; g2; g3; g4; g5; g6]
    /\ s = (pre ++ sixGroups g1 g2 g3 g4 g5 g6 ++ post)%string
    /\ forallb number g = true.
Proof.
  destruct g as [|g1 [|g2 [|g3 [|g4 [|g5 [|g6 [|x g]]]]]]]; try contradiction.
  intros [H1 H2]. now exists g1, g2, g3, g4, g5, g6.
Qed.

Lemma occurrence_here (s : string) (g : list string) (post : string) :
  occurrence s EmptyString g post -> matchHere s = Some g.
Proof.
  intros H. apply occurrence_inv in H as (g1 & g2 & g3 & g4 & g5 & g6 & -> & -> & N).
  cbn [String.append]. now apply matchHere_complete.
Qed.

Lemma occurrence_cons (c : ascii) (s pre : string) (g : list string) (post : string) :
  occurrence s pre g post <-> occurrence (String c s) (String c pre) g post.
Proof.
  destruct g as [|g1 [|g2 [|g3 [|g4 [|g5 [|g6 [|x g]]]]]]]; try (split; contradiction).
  unfold occurrence. cbn [String.append]. split; intros [H1 H2]; split; try assumption.
  - now rewrite H1.
  - now inversion H1.
Qed.

Lemma occurrence_head (c d : ascii) (s pre : string) (g : list string) (post : string) :
  occurrence (String c s) (String d pre) g post -> d = c.
Proof.
  intros H. apply occurrence_inv in H as (g1 & g2 & g3 & g4 & g5 & g6 & _ & H & _).
  cbn [String.append] in H. now inversion H.
Qed.

(** What [matchPassive] finds is an occurrence of the pattern, and no
    occurrence starts before it. *)
Lemma matchPassive_sound (s : string) :
  forall g, matchPassive s = Some g ->
    exists pre post,
      occurrence s pre g post
      /\ forall pre2 g2 post2, occurrence s pre2 g2 post2 ->
           String.length pre <= String.length pre2.
Proof.
  induction s as [|c s IH]; intros g H.
  - discriminate H.
  - cbn [matchPassive] in H. destruct (matchHere (String c s)) as [g0|] eqn:E.
    + inversion H; subst g0. destruct (matchHere_sound _ _ E) as [post Hocc].
      exists EmptyString, post. split; [exact Hocc|]. intros; cbn [String.length]; lia.
    + destruct (IH g H) as (pre & post & Hocc & Hmin).
      exists (String c pre), post. split; [now apply occurrence_cons|].
      intros pre2 g2 post2 H2. destruct pre2 as [|d pre2].
      * apply occurrence_here in H2. congruence.
      * pose proof (occurrence_head _ _ _ _ _ _ H2). subst d.
        apply occurrence_cons in H2. specialize (Hmin _ _ _ H2).
        cbn [String.length]. lia.
Qed.

Lemma matchPassive_complete (pre : string) :
  forall s g post, occurrence s pre g post -> exists g', matchPassive s = Some g'.
Proof.
  induction pre as [|c pre IH]; intros s g post H.
  - apply occurrence_here in H. exists g.
    destruct s as [|x s]; [discriminate H|]. cbn [matchPassive]. now rewrite H.
  - destruct s as [|x s].
    + apply occurrence_inv in H as (g1 & g2 & g3 & g4 & g5 & g6 & _ & H & _).
      discriminate H.
    + pose proof (occurrence_head _ _ _ _ _ _ H). subst x.
      apply occurrence_cons in H. destruct (IH _ _ _ H) as [g' Hg'].
      cbn [matchPassive]. destruct (matchHere (String c s)) as [g0|];
        [now exists g0 | now exists g'].
Qed.

Lemma append_same_length (a b a' b' : string) :
  (a ++ b)%string = (a' ++ b')%string -> String.length a = String.length a' ->
  a = a' /\ b = b'.
Proof.
  revert a'. induction a as [|x a IH]; intros [|y a'] H Hl; try discriminate Hl.
  - now split.
  - cbn [String.append] in H. inversion H; subst.
    cbn [String.length] in Hl. destruct (IH a' H2 ltac:(lia)) as [-> ->]. now split.
Qed.

(** The leftmost occurrence of the pattern is the one matched. *)
Lemma matchPassive_leftmost (s pre : string) (g : list string) (post : string) :
  occurrence s pre g post ->
  (forall pre2 g2 post2, occurrence s pre2 g2 post2 ->
     String.length pre <= String.length pre2) ->
  matchPassive s = Some g.
Proof.
  intros H Hmin. destruct (matchPassive_complete _ _ _ _ H) as [g' Hg'].
  rewrite Hg'. f_equal.
  destruct (matchPassive_sound _ _ Hg') as (pre' & post' & H' & Hmin').
  pose proof (Hmin _ _ _ H'). pose proof (Hmin' _ _ _ H).
  apply occurrence_inv in H as (g1 & g2 & g3 & g4 & g5 & g6 & -> & Hs & N).
  apply occurrence_inv in H' as (h1 & h2 & h3 & h4 & h5 & h6 & -> & Hs' & N').
  rewrite Hs in Hs'. apply append_same_length in Hs' as [_ Hrest]; [|lia].
  pose proof (matchHere_complete _ _ _ _ _ _ post N) as M.
  pose proof (matchHere_complete _ _ _ _ _ _ post' N') as M'.
  rewrite Hrest in M. congruence.
Qed.

(** *** [parseInt] on a string of digits *)

Lemma digit_facts (c : ascii) :
  isDigit c = true ->
  isWhiteSpace c = false
  /\ Ascii.eqb c "-"%char = false /\ Ascii.eqb c "+"%char = false
  /\ Ascii.eqb c "x"%char = false /\ Ascii.eqb c "X"%char = false
  /\ digitValue c = Some (Z.of_nat (nat_of_ascii c - 48))
  /\ (Z.of_nat (nat_of_ascii c - 48) <? 10)%Z = true.
Proof.
  destruct c as [[] [] [] [] [] [] [] []]; intros H; vm_compute in H;
    try discriminate H; vm_compute; repeat split.
Qed.

Lemma readDigits_digits (g : string) :
  forall a, allDigits g = true -> readDigits 10 (Some a) g = Some (decimal a g).
Proof.
  induction g as [|c g IH]; intros a H; [reflexivity|].
  cbn [allDigits] in H. apply andb_true_iff in H as [Hc Hg].
  destruct (digit_facts c Hc) as (_ & _ & _ & _ & _ & Hv & Hlt).
  cbn [readDigits decimal]. rewrite Hv, Hlt. now apply IH.
Qed.

Lemma parseInt_number (g : string) :
  number g = true -> parseInt g = Some (decimal 0 g).
Proof.
  unfold number. destruct g as [|c g]; [discriminate|]. cbn [nonEmpty andb allDigits].
  intros H. apply andb_true_iff in H as [Hc Hg].
  destruct (digit_facts c Hc) as (Hw & Hm & Hp & _ & _ & Hv & Hlt).
  unfold parseInt. cbn [trimStart]. rewrite Hw. cbn [signOf]. rewrite Hm, Hp.
  assert (Hr : radixOf (String c g) = (10%Z, String c g)).
  { destruct g as [|x g]; [reflexivity|]. cbn [radixOf].
    cbn [allDigits] in Hg. apply andb_true_iff in Hg as [Hx _].
    destruct (digit_facts x Hx) as (_ & _ & _ & Hx1 & Hx2 & _).
    now rewrite Hx1, Hx2, andb_false_r. }
  rewrite Hr. cbn [readDigits]. rewrite Hv, Hlt.
  rewrite readDigits_digits by exact Hg. cbn [option_map decimal].
  f_equal. apply Z.mul_1_l.
Qed.

Lemma decimal_nonneg (g : string) :
  forall a, (0 <= a)%Z -> (0 <= decimal a g)%Z.
Proof.
  induction g as [|c g IH]; intros a Ha; [exact Ha|].
  cbn [decimal]. apply IH. lia.
Qed.

Lemma toDouble_safe (z : Z) :
  (0 <= z < 2 ^ 53)%Z -> toDouble (Some z) = Whole z.
Proof.
  intros H. cbn [toDouble]. unfold safe. rewrite Z.abs_eq by lia.
  destruct (Z.ltb_spec z (2 ^ 53)); [reflexivity | lia].
Qed.

(** The port of six groups of digits whose number a double holds. *)
Lemma port_exact (g5 g6 : string) :
  (decimal 0 g5 * 256 + decimal 0 g6 < 2 ^ 53)%Z ->
  addD (mulD (toDouble (Some (decimal 0 g5))) 256) (toDouble (Some (decimal 0 g6)))
  = Whole (decimal 0 g5 * 256 + decimal 0 g6).
Proof.
  intros H.
  pose proof (decimal_nonneg g5 0 ltac:(lia)).
  pose proof (decimal_nonneg g6 0 ltac:(lia)).
  rewrite (toDouble_safe (decimal 0 g5)), (toDouble_safe (decimal 0 g6)) by lia.
  cbn [mulD]. rewrite toDouble_safe by lia.
  cbn [addD]. now rewrite toDouble_safe by lia.
Qed.

Lemma enterPassiveMode_matched (response : response) (g : list string) (pre post : string) :
  occurrence (message response) pre g post ->
  matchPassive (message response) = Some g ->
  exists e,
    _enterPassiveMode (Ok response) = Ok e
    /\ host e = hostOf g
    /\ ((portOf g < 2 ^ 53)%Z -> e = endpointOf g).
Proof.
  intros H M. cbn [_enterPassiveMode]. rewrite M.
  apply occurrence_inv in H as (g1 & g2 & g3 & g4 & g5 & g6 & -> & _ & N).
  cbn [forallb] in N. repeat (apply andb_true_iff in N; destruct N as [?N N]).
  eexists. split; [reflexivity|]. split; [reflexivity|].
  unfold endpointOf. cbn [portOf hostOf]. intros B.
  rewrite (parseInt_number g5), (parseInt_number g6) by assumption.
  now rewrite port_exact.
Qed.

(** C7.  Applied to the reply of [PASV], [_enterPassiveMode] returns the
    endpoint [{host: "h1.h2.h3.h4", port: p1*256 + p2}] of the six groups
    of digits [(h1,h2,h3,h4,p1,p2)] in the message, the leftmost such
    pattern when there are several, as long as [p1*256 + p2] is below
    2^53, the integers that a number holds exactly (ports are below
    65536); whatever the digits, it returns an endpoint with that host
    whenever the message holds the pattern; it throws the parse error
    exactly when the message holds no such pattern; and the message
    [227 Entering Passive Mode (10,0,0,5,78,23)], with or without its
    code, gives [{host: "10.0.0.5", port: 19991}]. *)
Theorem passive_reply_decodes_endpoint (response : response) :
  (forall pre g post,
     occurrence (message response) pre g post ->
     (forall pre2 g2 post2, occurrence (message response) pre2 g2 post2 ->
        String.length pre <= String.length pre2) ->
     (portOf g < 2 ^ 53)%Z ->
     _enterPassiveMode (Ok response) = Ok (endpointOf g))
  /\ (forall pre g post,
        occurrence (message response) pre g post ->
        exists pre' g' post' e,
          occurrence (message response) pre' g' post'
          /\ _enterPassiveMode (Ok response) = Ok e
          /\ host e = hostOf g'
          /\ ((portOf g' < 2 ^ 53)%Z -> port e = Whole (portOf g')))
  /\ ((forall pre g post, ~ occurrence (message response) pre g post) <->
        _enterPassiveMode (Ok response) = Err "Failed to parse PASV response")
  /\ (message response = "Entering Passive Mode (10,0,0,5,78,23)"
      \/ message response = "227 Entering Passive Mode (10,0,0,5,78,23)" ->
        _enterPassiveMode (Ok response)
        = Ok (mkEndpoint "10.0.0.5" (Whole 19991))).
Proof.
  split; [|split; [|split]].
  - intros pre g post H Hmin B.
    destruct (enterPassiveMode_matched _ _ _ _ H
                (matchPassive_leftmost _ pre g post H Hmin)) as (e & E & _ & P).
    now rewrite E, (P B).
  - intros pre g post H. destruct (matchPassive_complete _ _ _ _ H) as [g' M].
    destruct (matchPassive_sound _ _ M) as (pre' & post' & H' & _).
    destruct (enterPassiveMode_matched _ _ _ _ H' M) as (e & E & Hh & P).
    exists pre', g', post', e. repeat split; try assumption.
    intros B. now rewrite (P B).
  - split.
    + intros Hnone. cbn [_enterPassiveMode].
      destruct (matchPassive (message response)) as [g|] eqn:M; [|reflexivity].
      destruct (matchPassive_sound _ _ M) as (pre & post & H & _).
      now apply Hnone in H.
    + intros E pre g post H.
      destruct (matchPassive_complete _ _ _ _ H) as [g' M].
      destruct (matchPassive_sound _ _ M) as (pre' & post' & H' & _).
      destruct (enterPassiveMode_matched _ _ _ _ H' M) as (e & E' & _).
      rewrite E in E'. discriminate E'.
  - intros [H|H]; cbn [_enterPassiveMode]; rewrite H; reflexivity.
Qed.

Lemma passive_reply_decodes_endpoint_witness :
  occurrence "Entering Passive Mode (10,0,0,5,78,23)" "Entering Passive Mode "
    ["10"; "0"; "0"; "5"; "78"; "23"] EmptyString
  /\ (portOf ["10"; "0"; "0"; "5"; "78"; "23"] < 2 ^ 53)%Z
  /\ _enterPassiveMode
       (Ok (mkResponse (Some 227%Z) "Entering Passive Mode (10,0,0,5,78,23)"
              "227 Entering Passive Mode (10,0,0,5,78,23)"))
     = Ok (mkEndpoint "10.0.0.5" (Whole 19991)).
Proof.
  split; [split; reflexivity|]. split; [reflexivity|].
  exact (proj2 (proj2 (proj2
           (passive_reply_decodes_endpoint
              (mkResponse (Some 227%Z) "Entering Passive Mode (10,0,0,5,78,23)"
                 "227 Entering Passive Mode (10,0,0,5,78,23)"))))
           (or_introl eq_refl)).
Defined.

End PassiveFacts.

(* ================================================================== *)
(** ** The command layer: [stat], [exists] and [ensureDir] *)
(* ================================================================== *)

Module CommandsFacts.
Import JS Utils Client Passive Commands JSFacts.

Lemma backslashesToSlashes_length (s : string) :
  String.length (backslashesToSlashes s) = String.length s.
Proof. induction s as [|c s IH]; cbn [backslashesToSlashes String.length]; congruence. Qed.

Lemma collapseSlashes_length (s : string) :
  String.length (collapseSlashes s) <= String.length s.
Proof.
  induction s as [|c s IH]; cbn [collapseSlashes String.length]; [lia|].
  destruct (Ascii.eqb c "/"%char); [|cbn [String.length]; lia].
  destruct s as [|d s]; [cbn [String.length]; lia|].
  destruct (Ascii.eqb d "/"%char); cbn [String.length] in *; lia.
Qed.

Lemma normalizePath_length (s : string) :
  String.length (normalizePath s) <= String.length s.
Proof.
  unfold normalizePath. pose proof (collapseSlashes_length (backslashesToSlashes s)).
  rewrite backslashesToSlashes_length in H. exact H.
Qed.

Lemma lastIndexOf_from_bound (c : ascii) (s : string) :
  forall i found, (found < i)%Z ->
    (lastIndexOf_from c s i found < i + Z.of_nat (String.length s))%Z.
Proof.
  induction s as [|d s IH]; intros i found H; cbn [lastIndexOf_from String.length].
  - lia.
  - rewrite Nat2Z.inj_succ.
    specialize (IH (i + 1)%Z (if Ascii.eqb d c then i else found)).
    destruct (Ascii.eqb d c); lia.
Qed.

Lemma lastIndexOf_bound (s : string) (c : ascii) :
  (lastIndexOf s c < Z.of_nat (String.length s))%Z.
Proof.
  unfold lastIndexOf. pose proof (lastIndexOf_from_bound c s 0 (-1) ltac:(lia)). lia.
Qed.

Lemma substring_0_length (s : string) (k : Z) :
  String.length (substring s 0 k) <= Z.to_nat k.
Proof.
  unfold substring, clamp. change (Z.to_nat 0) with 0.
  rewrite Nat.min_0_l, Nat.max_0_l, Nat.sub_0_r.
  pose proof (prefix_length (Nat.min (Z.to_nat k) (String.length s)) s). lia.
Qed.

(** A non-empty cut at the last slash is shorter than the path. *)
Lemma cut_shorter (s : string) :
  nonEmpty (substring s 0 (lastIndexOf s "/"%char)) = true ->
  String.length (substring s 0 (lastIndexOf s "/"%char)) < String.length s.
Proof.
  intros H. pose proof (substring_0_length s (lastIndexOf s "/"%char)).
  pose proof (lastIndexOf_bound s "/"%char).
  destruct (substring s 0 (lastIndexOf s "/"%char)) eqn:E; [discriminate|].
  cbn [String.length] in *. lia.
Qed.

Lemma getParentDir_length (s : string) :
  getParentDir s = "/" \/ String.length (getParentDir s) <= String.length s.
Proof.
  unfold getParentDir. destruct (lastIndexOf (normalizePath s) "/" <=? 0)%Z; [now left|].
  right. pose proof (substring_0_length (normalizePath s) (lastIndexOf (normalizePath s) "/"%char)).
  pose proof (lastIndexOf_bound (normalizePath s) "/"%char).
  pose proof (normalizePath_length s). lia.
Qed.

Section Layer.

Variable world : Type.
Variable sendCommand : string -> world -> result response * world.
Variable listDir : string -> world -> result string * world.

Local Abbreviation stat := (stat world sendCommand listDir).
Local Abbreviation exists_at := (exists_at world sendCommand listDir).
Local Abbreviation size := (size world sendCommand).
Local Abbreviation pwd := (pwd world sendCommand).
Local Abbreviation cd := (cd world sendCommand).
Local Abbreviation probeDirectory := (probeDirectory world sendCommand).
Local Abbreviation awaitList := (awaitList world listDir).
Local Abbreviation state := (state world).

Lemma stat_cases (path : string) (st : state) :
  match size path st with
  | (Ok sz, st1) =>
      stat path st = (Ok (mkInfo true (Some sz) (Some true) (Some false)), st1)
  | (Err _, st1) =>
      match probeDirectory path st1 with
      | (Ok _, st2) =>
          stat path st = (Ok (mkInfo true None (Some false) (Some true)), st2)
      | (Err _, st2) =>
          match awaitList (getParentDir path) st2 with
          | (Ok listing, st3) =>
              stat path st = (Ok (mkInfo (foundIn listing path) None None None), st3)
          | (Err _, st3) =>
              stat path st = (Ok (mkInfo false None None None), st3)
          end
      end
  end.
Proof.
  unfold Commands.stat, Commands.probeDirectory, tryCatch, bind, ret.
  destruct (size path st) as [[sz|e] st1]; [reflexivity|].
  destruct (pwd st1) as [[dir|e1] st2].
  - destruct (cd path st2) as [[u|e2] st3].
    + destruct (cd dir st3) as [[u'|e3] st4]; [reflexivity|].
      destruct (awaitList (getParentDir path) st4) as [[l|e4] st5]; reflexivity.
    + destruct (awaitList (getParentDir path) st3) as [[l|e4] st5]; reflexivity.
  - destruct (awaitList (getParentDir path) st2) as [[l|e4] st5]; reflexivity.
Qed.



Lemma ensureDir_fuel_enough (n : nat) :
  forall autoDetect path recursive isFilePath st,
    String.length path < n ->
    fst (ensureDir_fuel world sendCommand n autoDetect path recursive isFilePath st)
    <> Ok None.
Proof using world sendCommand.
  induction n as [|n IH]; intros autoDetect path recursive isFilePath st Hn; [lia|].
  cbn [ensureDir_fuel].
  set (isFile := if autoDetect then hasExtension path else isFilePath).
  set (target := if isFile then getParentDir path else path).
  destruct (negb (nonEmpty target) || String.eqb target "." || String.eqb target "/") eqn:Eearly;
    [discriminate|].
  destruct (String.eqb (normalizePath target) "/" || String.eqb (normalizePath target) ".");
    [discriminate|].
  assert (Htarget : String.length target <= String.length path).
  { unfold target. destruct isFile; [|lia].
    destruct (getParentDir_length path) as [E|E]; [|exact E].
    unfold target in Eearly. rewrite E in Eearly. discriminate Eearly. }
  unfold bind at 1. unfold attempt.
  destruct (Commands.cd world sendCommand (normalizePath target) st) as [[u|e] st1]; [discriminate|].
  set (cut := substring (normalizePath target) 0
                (lastIndexOf (normalizePath target) "/"%char)).
  match goal with |- fst (bind _ ?m _ _) <> _ => set (parents := m) end.
  assert (Hparents : fst (parents st1) <> Ok None).
  { unfold parents. destruct recursive; [|discriminate].
    destruct (nonEmpty cut) eqn:Ecut; [|discriminate].
    destruct (negb (String.eqb cut "/") && negb (String.eqb cut ".")); [|discriminate].
    apply IH. pose proof (cut_shorter _ Ecut). fold cut in H.
    pose proof (normalizePath_length target). lia. }
  unfold bind at 1. destruct (parents st1) as [[[u|]|e'] st2].
  - unfold bind. destruct (Commands.mkdir world sendCommand (normalizePath target) st2)
      as [[v|msg] st3]; [discriminate|].
    destruct (negb (includes msg "550") && negb (includes msg "exists")); discriminate.
  - now contradiction Hparents.
  - discriminate.
Qed.

(** The fuel [ensureDir] starts with is enough for every path. *)
Lemma ensureDir_total (autoDetect : bool) (path : string)
    (recursive isFilePath : bool) (st : Commands.state world) :
  fst (Commands.ensureDir world sendCommand autoDetect path recursive isFilePath st)
  <> Ok None.
Proof using world sendCommand. unfold Commands.ensureDir. apply ensureDir_fuel_enough. lia. Qed.

Local Abbreviation ensureDir := (ensureDir world sendCommand).

Lemma tolerated_continues (msg : string) :
  tolerated (A:=response) (Err msg) = true ->
  negb (includes msg "550") && negb (includes msg "exists") = false.
Proof using Type.
  cbn [tolerated]. destruct (includes msg "550"), (includes msg "exists");
    cbn; intros H; try reflexivity; discriminate H.
Qed.

(** One level of [ensureDir] on a path that is a plain, normalized
    directory path: the probe, then the parent, then the creation. *)
Lemma ensureDir_level (n : nat) (autoDetect : bool) (p parent : string)
    (st : Commands.state world) :
  (if autoDetect then hasExtension p else false) = false ->
  negb (nonEmpty p) || String.eqb p "." || String.eqb p "/" = false ->
  normalizePath p = p ->
  (if nonEmpty (substring p 0 (lastIndexOf p "/"%char))
   then substring p 0 (lastIndexOf p "/"%char) else "/") = parent ->
  ensureDir_fuel world sendCommand (S n) autoDetect p true false st
  = match sendCommand ("CWD " ++ p) (fst st) with
    | (Ok _, w) => (Ok (Some tt), (w, (snd st ++ [("CWD " ++ p)%string])%list))
    | (Err _, w) =>
        match (if negb (String.eqb parent "/") && negb (String.eqb parent ".")
               then ensureDir_fuel world sendCommand n autoDetect parent true false
               else ret world (Some tt))
                (w, (snd st ++ [("CWD " ++ p)%string])%list) with
        | (Ok (Some _), st2) =>
            match sendCommand ("MKD " ++ p) (fst st2) with
            | (Ok _, w') => (Ok (Some tt), (w', (snd st2 ++ [("MKD " ++ p)%string])%list))
            | (Err msg, w') =>
                (if negb (includes msg "550") && negb (includes msg "exists")
                 then Err msg else Ok (Some tt),
                 (w', (snd st2 ++ [("MKD " ++ p)%string])%list))
            end
        | (Ok None, st2) => (Ok None, st2)
        | (Err e, st2) => (Err e, st2)
        end
    end.
Proof using world sendCommand.
  intros Hfile Hearly Hnorm Hparent. cbn [ensureDir_fuel].
  assert (Hf : (if autoDetect then hasExtension p else false) = false) by exact Hfile.
  rewrite Hf. rewrite Hearly, Hnorm.
  assert (Hn2 : String.eqb p "/" || String.eqb p "." = false).
  { apply orb_false_iff in Hearly as [Hearly H1]. apply orb_false_iff in Hearly as [_ H2].
    now rewrite H1, H2. }
  rewrite Hn2, Hparent.
  unfold bind, attempt, Commands.cd, Commands.mkdir, send, bind, ret, throw.
  destruct (sendCommand ("CWD " ++ p) (fst st)) as [[v|e] w]; [reflexivity|].
  cbn [fst snd].
  destruct ((if negb (String.eqb parent "/") && negb (String.eqb parent ".")
             then ensureDir_fuel world sendCommand n autoDetect parent true false
             else (fun st0 => (Ok (Some tt), st0))) (w, (snd st ++ [("CWD " ++ p)%string])%list))
    as [[[u|]|e'] st2]; try reflexivity.
  destruct (sendCommand ("MKD " ++ p) (fst st2)) as [[v'|msg] w']; [reflexivity|].
  destruct (negb (includes msg "550") && negb (includes msg "exists")); reflexivity.
Qed.

(** C8, as amended.  On a server where entering each of [/a], [/a/b] and
    [/a/b/c] fails as long as nothing has been created, [ensureDir("/a/b/c")],
    in either text of the function, sends the three probes, deepest
    first, and then creation attempts, parents first.  As long as a
    creation succeeds or fails with an error that mentions [550] or
    [exists], the next directory is attempted, so that when this holds of
    [/a] and [/a/b] there are exactly three attempts, [/a], [/a/b],
    [/a/b/c] in this order; any other failure of a creation ends the
    operation with that error, and no further attempt is made. *)
Theorem ensureDir_creates_missing_ancestors_in_order
    (untouched : world -> Prop) (autoDetect : bool) (w : world)
    (sent : list string) :
  (forall w p, In p missingDirs -> untouched w ->
     exists e w', sendCommand ("CWD " ++ p) w = (Err e, w') /\ untouched w') ->
  untouched w ->
  exists w3,
    let probes := ["CWD /a/b/c"; "CWD /a/b"; "CWD /a"] in
    let made1 := sendCommand "MKD /a" w3 in
    let made2 := sendCommand "MKD /a/b" (snd made1) in
    let made3 := sendCommand "MKD /a/b/c" (snd made2) in
    ensureDir autoDetect "/a/b/c" true false (w, sent)
    = (if tolerated (fst made1) then
         if tolerated (fst made2) then
           (if tolerated (fst made3) then Ok (Some tt) else rethrown (fst made3),
            (snd made3,
             (sent ++ probes ++ ["MKD /a"; "MKD /a/b"; "MKD /a/b/c"])%list))
         else
           (rethrown (fst made2),
            (snd made2, (sent ++ probes ++ ["MKD /a"; "MKD /a/b"])%list))
       else
         (rethrown (fst made1), (snd made1, (sent ++ probes ++ ["MKD /a"])%list)))
    /\ (tolerated (fst made1) = false ->
        exists msg, rethrown (fst made1) = Err msg)
    /\ (tolerated (fst made2) = false ->
        exists msg, rethrown (fst made2) = Err msg)
    /\ (tolerated (fst made3) = false ->
        exists msg, rethrown (fst made3) = Err msg)
    /\ creations (probes ++ ["MKD /a"; "MKD /a/b"; "MKD /a/b/c"])
       = ["MKD /a"; "MKD /a/b"; "MKD /a/b/c"].
Proof using world sendCommand.
  intros Hcwd Hw.
  destruct (Hcwd w "/a/b/c" (or_intror (or_intror (or_introl eq_refl))) Hw) as (e1 & w1 & E1 & Hw1).
  destruct (Hcwd w1 "/a/b" (or_intror (or_introl eq_refl)) Hw1) as (e2 & w2 & E2 & Hw2).
  destruct (Hcwd w2 "/a" (or_introl eq_refl) Hw2) as (e3 & w3 & E3 & Hw3).
  exists w3. cbv zeta.
  assert (Hthrown : forall r : result response,
            tolerated r = false -> exists msg, rethrown r = Err msg).
  { intros [v|msg] H; [discriminate H | now exists msg]. }
  split; [|repeat split; try apply Hthrown].
  destruct (sendCommand "MKD /a" w3) as [r4 w4] eqn:E4. cbn [fst snd].
  destruct (sendCommand "MKD /a/b" w4) as [r5 w5] eqn:E5. cbn [fst snd].
  destruct (sendCommand "MKD /a/b/c" w5) as [r6 w6] eqn:E6. cbn [fst snd].
  cbn [String.append] in E1, E2, E3.
  assert (Hstep : forall (r : result response) (w' : world) (l : list string),
            (match r with
             | Ok _ => (Ok (Some tt), (w', l))
             | Err msg =>
                 (if negb (includes msg "550") && negb (includes msg "exists")
                  then Err msg else Ok (Some tt), (w', l))
             end : result (option unit) * Commands.state world)
            = (if tolerated r then Ok (Some tt) else rethrown r, (w', l))).
  { intros [v|msg] w' l; [reflexivity|]. cbn [tolerated rethrown].
    now destruct (includes msg "550"), (includes msg "exists"). }
  unfold Commands.ensureDir. change (S (String.length "/a/b/c")) with 7.
  assert (Hx : forall q, In q missingDirs ->
            (if autoDetect then hasExtension q else false) = false)
    by (intros q [<-|[<-|[<-|[]]]]; destruct autoDetect; reflexivity).
  rewrite (ensureDir_level 6 autoDetect "/a/b/c" "/a/b" (w, sent)
             (Hx _ (or_intror (or_intror (or_introl eq_refl))))
             eq_refl eq_refl eq_refl).
  cbn [fst snd String.append]. rewrite E1.
  change (negb (String.eqb "/a/b" "/") && negb (String.eqb "/a/b" ".")) with true.
  cbv iota.
  rewrite (ensureDir_level 5 autoDetect "/a/b" "/a" _
             (Hx _ (or_intror (or_introl eq_refl))) eq_refl eq_refl eq_refl).
  cbn [fst snd String.append]. rewrite E2.
  change (negb (String.eqb "/a" "/") && negb (String.eqb "/a" ".")) with true.
  cbv iota.
  rewrite (ensureDir_level 4 autoDetect "/a" "/" _
             (Hx _ (or_introl eq_refl)) eq_refl eq_refl eq_refl).
  cbn [fst snd String.append]. rewrite E3.
  change (negb (String.eqb "/" "/") && negb (String.eqb "/" ".")) with false.
  cbv iota. unfold ret. cbn [fst snd]. rewrite E4.
  rewrite Hstep, <- !app_assoc. cbn [app].
  destruct (tolerated r4) eqn:T4.
  - cbn [fst snd]. rewrite E5. rewrite Hstep, <- !app_assoc. cbn [app].
    destruct (tolerated r5) eqn:T5.
    + cbn [fst snd]. rewrite E6. rewrite Hstep, <- !app_assoc. cbn [app].
      reflexivity.
    + destruct (Hthrown _ T5) as [m5 ->]. reflexivity.
  - destruct (Hthrown _ T4) as [m4 ->]. reflexivity.
Qed.

End Layer.

Lemma ensureDir_creates_missing_ancestors_in_order_witness :
  (forall w p, In p missingDirs -> True ->
     exists e w', obligingServer ("CWD " ++ p) w = (Err e, w') /\ True)
  /\ Commands.ensureDir unit obligingServer true "/a/b/c" true false (tt, [])
     = (Ok (Some tt),
        (tt, ["CWD /a/b/c"; "CWD /a/b"; "CWD /a"; "MKD /a"; "MKD /a/b"; "MKD /a/b/c"]))
  /\ (forall w p, In p missingDirs -> True ->
        exists e w', refusingServer ("CWD " ++ p) w = (Err e, w') /\ True)
  /\ Commands.ensureDir unit refusingServer true "/a/b/c" true false (tt, [])
     = (Err "FTP Error 421: Service not available",
        (tt, ["CWD /a/b/c"; "CWD /a/b"; "CWD /a"; "MKD /a"])).
Proof.
  assert (Hcwd : forall w p, In p missingDirs -> True ->
            exists e w', obligingServer ("CWD " ++ p) w = (Err e, w') /\ True).
  { intros w p Hp _. exists "FTP Error 550: No such directory", tt.
    destruct Hp as [<-|[<-|[<-|[]]]]; split; reflexivity || exact I. }
  assert (Hcwd' : forall w p, In p missingDirs -> True ->
            exists e w', refusingServer ("CWD " ++ p) w = (Err e, w') /\ True).
  { intros w p Hp _. exists "FTP Error 550: No such directory", tt.
    destruct Hp as [<-|[<-|[<-|[]]]]; split; reflexivity || exact I. }
  split; [exact Hcwd|]. split; [|split; [exact Hcwd'|]].
  - destruct (ensureDir_creates_missing_ancestors_in_order unit obligingServer
                (fun _ => True) true tt [] Hcwd I) as ([] & H & _).
    exact H.
  - destruct (ensureDir_creates_missing_ancestors_in_order unit refusingServer
                (fun _ => True) true tt [] Hcwd' I) as ([] & H & _).
    exact H.
Defined.

(** C8, counterexample to the statement as made: on a server where the
    three probes fail and the creation of [/a] is refused with code 421,
    [ensureDir("/a/b/c")] throws after a single creation attempt. *)
Lemma ensureDir_stops_at_refused_creation : ~ ensureDirCreatesAllThree.
Proof.
  intros H. specialize (H unit refusingServer true tt).
  assert (Hcwd : forall w p, In p missingDirs ->
            exists e w', refusingServer ("CWD " ++ p) w = (Err e, w')).
  { intros w p Hp. exists "FTP Error 550: No such directory", tt.
    destruct Hp as [<-|[<-|[<-|[]]]]; reflexivity. }
  specialize (H Hcwd). vm_compute in H. discriminate H.
Qed.

End CommandsFacts.
(* ================================================================== *)
(** ** [stat] over the control channel *)
(* ================================================================== *)

Module StatCallFacts.
Import JS Utils Client Passive Commands StatCall.

Lemma drain_done (path : string) (r : release) (fuel : nat) (x : call) :
  nth_error (settled (theClient x)) (reacted x) = None ->
  drain path r (S fuel) x = Some x.
Proof. intros H. cbn [drain]. now rewrite H. Qed.

(** An invocation in which no timer is armed and every settle call has
    had its reaction: the firing of a timer changes nothing. *)
Lemma timer_changes_nothing (path : string) (r : release) (id : nat) (x : call) :
  timers (theClient x) = [] ->
  catchers (theClient x) = [] ->
  reacted x = List.length (settled (theClient x)) ->
  step path r (TimerFires id) x = Some x.
Proof.
  destruct x as [c w n i]. cbn [theClient reacted]. intros Ht Hk Hn.
  unfold step. cbn [theClient]. unfold Client.step. cbn [Client.task].
  rewrite Ht. cbn [lookup find option_map]. unfold microtasks. rewrite Hk.
  cbn [runCatchers]. unfold setClient, reactions.
  cbn [theClient waiting reacted returned].
  rewrite Nat.add_comm. apply (drain_done path r (7 + List.length (settled c))).
  cbn [theClient reacted]. apply nth_error_None. lia.
Qed.

Lemma timers_change_nothing (path : string) (r : release) (ids : list nat)
    (x : call) :
  timers (theClient x) = [] ->
  catchers (theClient x) = [] ->
  reacted x = List.length (settled (theClient x)) ->
  run path r (map TimerFires ids) x = Some x.
Proof.
  intros Ht Hk Hn. induction ids as [|id ids IH]; [reflexivity|].
  cbn [map run]. now rewrite timer_changes_nothing.
Qed.

(** The reply [213 1024] to [SIZE] makes [stat] resolve with the shape of
    a file. *)
Example stat_returns_file_shape :
  exists x0 x,
    called "a.txt" R2_2 session = Some x0
    /\ run "a.txt" R2_2 [Responses ["213 1024"]] x0 = Some x
    /\ returned x = Some (mkInfo true (Some (Whole 1024)) (Some true) (Some false)).
Proof.
  eexists _, _. split; [vm_compute; reflexivity|].
  split; [vm_compute; reflexivity|]. reflexivity.
Qed.

(** On a server that says nothing, the timers of [SIZE], [PWD] and [PASV]
    fire one after the other and [stat] resolves with [exists: false]. *)
Example stat_resolves_when_commands_time_out :
  exists x0 x,
    called "a.txt" R2_2 session = Some x0
    /\ written (theClient x0) = ["SIZE a.txt" ++ CRLF]
    /\ run "a.txt" R2_2 [TimerFires 0; TimerFires 1; TimerFires 2] x0 = Some x
    /\ written (theClient x)
       = ["SIZE a.txt" ++ CRLF; "PWD" ++ CRLF; "PASV" ++ CRLF]
    /\ returned x = Some notFound.
Proof.
  eexists _, _. split; [vm_compute; reflexivity|].
  split; [reflexivity|]. split; [vm_compute; reflexivity|].
  split; reflexivity.
Qed.

(** [SIZE] is answered by the single line [213-Status follows] and then
    nothing: the line disarms the timer of the command, so that [SIZE]
    never settles, and [stat], which waits for it, has not resolved
    however many timers fire afterwards. *)
Lemma stat_waits_for_size_without_end (path : string) (r : release)
    (ids : list nat) :
  exists x0 x,
    called path r session = Some x0
    /\ run path r (Responses ["213-Status follows"] :: map TimerFires ids) x0
       = Some x
    /\ returned x = None
    /\ waiting x = Some (0, afterSize)
    /\ timers (theClient x) = []
    /\ outcome (theClient x) 0 = None.
Proof.
  assert (C : exists x0, called path r session = Some x0
              /\ exists x1, step path r (Responses ["213-Status follows"]) x0 = Some x1
                 /\ timers (theClient x1) = [] /\ catchers (theClient x1) = []
                 /\ reacted x1 = List.length (settled (theClient x1))
                 /\ returned x1 = None /\ waiting x1 = Some (0, afterSize)
                 /\ outcome (theClient x1) 0 = None).
  { eexists. split; [cbv -[String.append]; reflexivity|].
    eexists. split; [cbv -[String.append]; reflexivity|].
    cbv -[String.append]. repeat split. }
  destruct C as (x0 & C & x1 & S1 & Ht & Hk & Hn & Hr & Hw & Ho).
  exists x0, x1. split; [exact C|]. split; [|now repeat split].
  cbn [run]. rewrite S1. now apply timers_change_nothing.
Qed.


End StatCallFacts.
(* ================================================================== *)
(** ** lib/utils.js: [normalizePath] and [getParentDir] *)
(* ================================================================== *)

Module UtilsFacts.
Import JS Utils JSFacts.

(** *** Searching for one character and for two slashes *)

Lemma includes_char_nil (a : ascii) :
  includes EmptyString (String a EmptyString) = false.
Proof. reflexivity. Qed.

Lemma includes_char_cons (a c : ascii) (s : string) :
  includes (String c s) (String a EmptyString)
  = Ascii.eqb a c || includes s (String a EmptyString).
Proof. cbn [includes startsWith]. now rewrite andb_true_r. Qed.

Lemma includes_char_app (a : ascii) (s t : string) :
  includes (s ++ t) (String a EmptyString)
  = includes s (String a EmptyString) || includes t (String a EmptyString).
Proof.
  induction s as [|c s IH]; [reflexivity|].
  change (String c s ++ t) with (String c (s ++ t)).
  rewrite !includes_char_cons, IH. apply orb_assoc.
Qed.

Lemma startsWith_char (a : ascii) (s : string) :
  startsWith s (String a EmptyString)
  = match s with String c _ => Ascii.eqb a c | EmptyString => false end.
Proof. destruct s as [|c s]; cbn [startsWith]; [reflexivity | apply andb_true_r]. Qed.

Lemma includes_slashes_cons (c : ascii) (s : string) :
  includes (String c s) "//"
  = (Ascii.eqb "/" c && startsWith s "/") || includes s "//".
Proof. reflexivity. Qed.

Lemma includes_slashes_short (c : ascii) : includes (String c EmptyString) "//" = false.
Proof. cbn [includes startsWith]. now rewrite andb_false_r. Qed.

(** *** [normalizePath] *)

Lemma backslashesToSlashes_clean (s : string) :
  includes (backslashesToSlashes s) "\" = false.
Proof.
  induction s as [|c s IH]; [reflexivity|].
  cbn [backslashesToSlashes]. rewrite includes_char_cons, IH, orb_false_r.
  destruct (Ascii.eqb c "\") eqn:E; [reflexivity|].
  rewrite Ascii.eqb_sym. exact E.
Qed.

Lemma backslashesToSlashes_fixed (s : string) :
  includes s "\" = false -> backslashesToSlashes s = s.
Proof.
  induction s as [|c s IH]; [reflexivity|].
  rewrite includes_char_cons. intros H. apply orb_false_iff in H as [H1 H2].
  cbn [backslashesToSlashes]. rewrite (IH H2), Ascii.eqb_sym, H1. reflexivity.
Qed.

Lemma collapseSlashes_cons (c d : ascii) (s : string) :
  collapseSlashes (String c (String d s))
  = if Ascii.eqb c "/" && Ascii.eqb d "/"
    then collapseSlashes (String d s)
    else String c (collapseSlashes (String d s)).
Proof.
  cbn [collapseSlashes].
  destruct (Ascii.eqb c "/"), (Ascii.eqb d "/"); reflexivity.
Qed.

Lemma collapseSlashes_single (c : ascii) :
  collapseSlashes (String c EmptyString) = String c EmptyString.
Proof. cbn [collapseSlashes]. now destruct (Ascii.eqb c "/"). Qed.

(** Collapsing keeps the first character. *)
Lemma collapseSlashes_head (s : string) (a : ascii) :
  startsWith (collapseSlashes s) (String a EmptyString)
  = startsWith s (String a EmptyString).
Proof.
  induction s as [|c|c d s _ IH] using FramerFacts.string_ind2.
  - reflexivity.
  - now rewrite collapseSlashes_single.
  - rewrite collapseSlashes_cons.
    destruct (Ascii.eqb c "/") eqn:Ec, (Ascii.eqb d "/") eqn:Ed; cbn [andb];
      try (rewrite !startsWith_char; reflexivity).
    rewrite IH. apply Ascii.eqb_eq in Ec, Ed. subst.
    now rewrite !startsWith_char.
Qed.

Lemma collapseSlashes_keeps_char (a : ascii) (s : string) :
  includes s (String a EmptyString) = false ->
  includes (collapseSlashes s) (String a EmptyString) = false.
Proof.
  induction s as [|c|c d s _ IH] using FramerFacts.string_ind2.
  - reflexivity.
  - now rewrite collapseSlashes_single.
  - intros H. pose proof H as H'. rewrite includes_char_cons in H'.
    apply orb_false_iff in H' as [H1 H2].
    rewrite collapseSlashes_cons.
    destruct (Ascii.eqb c "/" && Ascii.eqb d "/"); [exact (IH H2)|].
    rewrite includes_char_cons, H1, (IH H2). reflexivity.
Qed.

Lemma collapseSlashes_clean (s : string) :
  includes (collapseSlashes s) "//" = false.
Proof.
  induction s as [|c|c d s _ IH] using FramerFacts.string_ind2.
  - reflexivity.
  - rewrite collapseSlashes_single. apply includes_slashes_short.
  - rewrite collapseSlashes_cons.
    destruct (Ascii.eqb c "/" && Ascii.eqb d "/") eqn:E; [exact IH|].
    rewrite includes_slashes_cons, IH, orb_false_r, collapseSlashes_head.
    rewrite startsWith_char.
    destruct (Ascii.eqb "/" c) eqn:Ec; [|reflexivity].
    rewrite Ascii.eqb_sym in Ec. rewrite Ec in E. cbn [andb] in *.
    rewrite Ascii.eqb_sym. exact E.
Qed.

Lemma collapseSlashes_fixed (s : string) :
  includes s "//" = false -> collapseSlashes s = s.
Proof.
  induction s as [|c|c d s _ IH] using FramerFacts.string_ind2.
  - reflexivity.
  - intros _. apply collapseSlashes_single.
  - rewrite includes_slashes_cons, startsWith_char. intros H.
    apply orb_false_iff in H as [H1 H2].
    rewrite collapseSlashes_cons, (IH H2).
    rewrite (Ascii.eqb_sym c), (Ascii.eqb_sym d), H1. reflexivity.
Qed.

Lemma normalizePath_fixed (path : string) :
  includes path "\" = false -> includes path "//" = false ->
  normalizePath path = path.
Proof.
  intros H1 H2. unfold normalizePath.
  rewrite (backslashesToSlashes_fixed _ H1). exact (collapseSlashes_fixed _ H2).
Qed.

Lemma normalizePath_no_backslash (path : string) :
  includes (normalizePath path) "\" = false.
Proof. apply collapseSlashes_keeps_char, backslashesToSlashes_clean. Qed.

Lemma normalizePath_no_double_slash (path : string) :
  includes (normalizePath path) "//" = false.
Proof. apply collapseSlashes_clean. Qed.

(** *** The last slash *)

Lemma lastIndexOf_from_absent (c : ascii) (s : string) :
  forall i found,
    includes s (String c EmptyString) = false ->
    lastIndexOf_from c s i found = found.
Proof.
  induction s as [|d s IH]; intros i found H; [reflexivity|].
  rewrite includes_char_cons in H. apply orb_false_iff in H as [H1 H2].
  cbn [lastIndexOf_from]. rewrite Ascii.eqb_sym, H1. now apply IH.
Qed.

Lemma lastIndexOf_from_last (c : ascii) (a b : string) :
  forall i found,
    includes b (String c EmptyString) = false ->
    lastIndexOf_from c (a ++ String c b) i found
    = (i + Z.of_nat (String.length a))%Z.
Proof.
  induction a as [|d a IH]; intros i found H.
  - cbn [append lastIndexOf_from String.length]. rewrite Ascii.eqb_refl.
    rewrite (lastIndexOf_from_absent _ _ _ _ H). cbn. lia.
  - change (String d a ++ String c b) with (String d (a ++ String c b)).
    cbn [lastIndexOf_from String.length]. rewrite (IH _ _ H). lia.
Qed.

(** A string either holds no [c], or splits at its last [c]. *)
Lemma lastIndexOf_cases (c : ascii) (s : string) :
  (includes s (String c EmptyString) = false /\ lastIndexOf s c = (-1)%Z)
  \/ (exists a b,
        s = a ++ String c b
        /\ includes b (String c EmptyString) = false
        /\ lastIndexOf s c = Z.of_nat (String.length a)).
Proof.
  destruct (includes s (String c EmptyString)) eqn:E.
  - right.
    assert (H : exists a b, s = a ++ String c b
                            /\ includes b (String c EmptyString) = false).
    { induction s as [|d s IH]; [discriminate|].
      rewrite includes_char_cons in E.
      destruct (includes s (String c EmptyString)) eqn:Es.
      - destruct (IH eq_refl) as (a & b & -> & Hb).
        exists (String d a), b. now split.
      - rewrite orb_false_r in E. apply Ascii.eqb_eq in E. subst d.
        exists EmptyString, s. now split. }
    destruct H as (a & b & -> & Hb). exists a, b. repeat split; [exact Hb|].
    unfold lastIndexOf. rewrite (lastIndexOf_from_last _ _ _ _ _ Hb). lia.
  - left. split; [reflexivity|]. unfold lastIndexOf.
    now apply lastIndexOf_from_absent.
Qed.

Lemma substring_prefix (a b : string) :
  substring (a ++ b) 0 (Z.of_nat (String.length a)) = a.
Proof.
  unfold substring, clamp. change (Z.to_nat 0) with 0.
  rewrite Nat.min_0_l, Nat.max_0_l, Nat.sub_0_r, Nat2Z.id, append_length.
  rewrite Nat.min_l by lia. cbn [Nat.min].
  induction a as [|x a IH]; cbn [append String.length String.substring].
  - now destruct b.
  - now rewrite IH.
Qed.

(** *** Searching in a concatenation *)

Lemma startsWith_app_l (a b sub : string) :
  startsWith a sub = true -> startsWith (a ++ b) sub = true.
Proof.
  revert a. induction sub as [|x sub IH]; intros a H; [reflexivity|].
  destruct a as [|c a]; [discriminate|].
  cbn [append startsWith] in *. apply andb_true_iff in H as [H1 H2].
  now rewrite H1, (IH _ H2).
Qed.

Lemma includes_app_l (a b sub : string) :
  includes a sub = true -> includes (a ++ b) sub = true.
Proof.
  induction a as [|c a IH]; intros H.
  - cbn [includes] in H. rewrite orb_false_r in H.
    destruct sub; [|discriminate]. now destruct b.
  - change (String c a ++ b) with (String c (a ++ b)).
    cbn [includes] in *. apply orb_true_iff in H as [H|H].
    + change (String c (a ++ b)) with (String c a ++ b).
      now rewrite (startsWith_app_l _ b _ H).
    + rewrite (IH H). apply orb_true_r.
Qed.

Lemma includes_app_r (a b sub : string) :
  includes b sub = true -> includes (a ++ b) sub = true.
Proof.
  intros H. induction a as [|c a IH]; [exact H|].
  change (String c a ++ b) with (String c (a ++ b)).
  cbn [includes]. rewrite IH. apply orb_true_r.
Qed.

Lemma includes_prefix_false (a b sub : string) :
  includes (a ++ b) sub = false -> includes a sub = false.
Proof.
  intros H. destruct (includes a sub) eqn:E; [|reflexivity].
  now rewrite (includes_app_l _ b _ E) in H.
Qed.

Lemma no_slash_no_slashes (s : string) :
  includes s "/" = false -> includes s "//" = false.
Proof.
  induction s as [|c s IH]; [reflexivity|].
  rewrite includes_char_cons, includes_slashes_cons. intros H.
  apply orb_false_iff in H as [H1 H2]. now rewrite H1, (IH H2).
Qed.

(** Joining a clean directory and a name with a slash gives a clean path. *)
Lemma joined_no_double_slash (dir name : string) :
  includes dir "//" = false ->
  (forall q, dir <> q ++ "/") ->
  includes name "/" = false ->
  includes (dir ++ String "/" name) "//" = false.
Proof.
  intros Hd He Hn. induction dir as [|c dir IH].
  - cbn [append]. rewrite includes_slashes_cons, startsWith_char.
    rewrite (no_slash_no_slashes _ Hn), orb_false_r.
    destruct name as [|d name]; [reflexivity|].
    rewrite includes_char_cons in Hn. apply orb_false_iff in Hn as [Hn _].
    now rewrite Hn.
  - change (String c dir ++ String "/" name) with (String c (dir ++ String "/" name)).
    rewrite includes_slashes_cons in Hd |- *.
    apply orb_false_iff in Hd as [Hd1 Hd2].
    rewrite IH; [|exact Hd2|intros q E; apply (He (String c q)); now rewrite E].
    rewrite orb_false_r.
    destruct (Ascii.eqb "/" c) eqn:Ec; [|reflexivity]. cbn [andb] in *.
    destruct dir as [|d dir].
    + apply Ascii.eqb_eq in Ec. subst c. now specialize (He EmptyString).
    + rewrite startsWith_char in Hd1. cbn [append]. now rewrite startsWith_char.
Qed.

(** *** The theorems *)

(** X1.  Whatever the path, [normalizePath] returns a path that holds no
    backslash and no two slashes in a row, and normalising a second time
    changes nothing. *)
Theorem normalizePath_normal_form (path : string) :
  includes (normalizePath path) "\" = false
  /\ includes (normalizePath path) "//" = false
  /\ normalizePath (normalizePath path) = normalizePath path.
Proof.
  pose proof (normalizePath_no_backslash path) as H1.
  pose proof (normalizePath_no_double_slash path) as H2.
  repeat split; [exact H1 | exact H2 | exact (normalizePath_fixed _ H1 H2)].
Qed.

(** X2.  A path that holds no backslash and no two slashes in a row is
    returned unchanged by [normalizePath]: single slashes, and a slash at
    either end, are kept. *)
Theorem normalizePath_keeps_clean_path (path : string) :
  includes path "\" = false ->
  includes path "//" = false ->
  normalizePath path = path.
Proof. exact (normalizePath_fixed path). Qed.

Lemma normalizePath_keeps_clean_path_witness :
  normalizePath "/pub/incoming/" = "/pub/incoming/".
Proof.
  exact (normalizePath_keeps_clean_path "/pub/incoming/" eq_refl eq_refl).
Defined.

(** X3.  The parent of a path made of a directory, a slash and a name is
    the directory, whenever the directory is not empty, holds no backslash
    and no two slashes in a row and does not end with a slash, and the name
    holds neither a slash nor a backslash. *)
Theorem getParentDir_of_joined_path (dir name : string) :
  dir <> EmptyString ->
  includes dir "\" = false ->
  includes dir "//" = false ->
  (forall q, dir <> q ++ "/") ->
  includes name "/" = false ->
  includes name "\" = false ->
  getParentDir (dir ++ "/" ++ name) = dir.
Proof.
  intros Hne Hb Hs He Hn Hnb. unfold getParentDir.
  change (dir ++ "/" ++ name) with (dir ++ String "/" name).
  rewrite normalizePath_fixed.
  - unfold lastIndexOf. rewrite (lastIndexOf_from_last _ _ _ _ _ Hn).
    destruct dir as [|c dir]; [contradiction|].
    replace (0 + Z.of_nat (String.length (String c dir)))%Z
      with (Z.of_nat (String.length (String c dir))) by lia.
    destruct (Z.leb_spec (Z.of_nat (String.length (String c dir))) 0) as [L|_].
    + cbn [String.length] in L. lia.
    + apply substring_prefix.
  - rewrite includes_char_app, Hb, includes_char_cons, Hnb. reflexivity.
  - now apply joined_no_double_slash.
Qed.

Lemma getParentDir_of_joined_path_witness :
  getParentDir ("/srv/data" ++ "/" ++ "report.txt") = "/srv/data".
Proof.
  apply (getParentDir_of_joined_path "/srv/data" "report.txt");
    try reflexivity; try discriminate.
  intros q E.
  assert (L : String.length "/srv/data" = String.length (q ++ "/")) by now rewrite <- E.
  rewrite append_length in L. cbn [String.length] in L.
  do 9 (destruct q as [|? q]; [cbn in E; try discriminate E|]); cbn [String.length] in L; lia.
Defined.

(** X4.  The parent of a name that holds neither a slash nor a backslash,
    with or without one slash in front, is the root [/], not the current
    directory. *)
Theorem getParentDir_of_bare_name (name : string) :
  includes name "/" = false ->
  includes name "\" = false ->
  getParentDir name = "/" /\ getParentDir ("/" ++ name) = "/".
Proof.
  intros Hn Hb. unfold getParentDir. split.
  - rewrite normalizePath_fixed by (try exact Hb; now apply no_slash_no_slashes).
    unfold lastIndexOf. now rewrite (lastIndexOf_from_absent _ _ _ _ Hn).
  - change ("/" ++ name) with (EmptyString ++ String "/" name).
    rewrite normalizePath_fixed.
    + unfold lastIndexOf. now rewrite (lastIndexOf_from_last _ _ _ _ _ Hn).
    + cbn [append]. now rewrite includes_char_cons, Hb.
    + apply joined_no_double_slash; [reflexivity | | exact Hn].
      intros [|c q]; discriminate.
Qed.

Lemma getParentDir_of_bare_name_witness :
  getParentDir "notes.txt" = "/" /\ getParentDir ("/" ++ "notes.txt") = "/".
Proof. exact (getParentDir_of_bare_name "notes.txt" eq_refl eq_refl). Defined.

(** X5.  Whatever the path, [getParentDir] returns the root [/] or a
    non-empty path that holds no backslash and no two slashes in a row and
    does not end with a slash. *)
Theorem getParentDir_is_root_or_clean (filePath : string) :
  getParentDir filePath = "/"
  \/ (getParentDir filePath <> EmptyString
      /\ includes (getParentDir filePath) "\" = false
      /\ includes (getParentDir filePath) "//" = false
      /\ forall q, getParentDir filePath <> q ++ "/").
Proof.
  unfold getParentDir.
  pose proof (normalizePath_no_backslash filePath) as Hb.
  pose proof (normalizePath_no_double_slash filePath) as Hs.
  destruct (lastIndexOf_cases "/" (normalizePath filePath))
    as [[_ ->] | (a & b & E & Hb' & ->)]; [now left|].
  destruct (Z.leb_spec (Z.of_nat (String.length a)) 0) as [_|L]; [now left|].
  right. rewrite E in *. rewrite substring_prefix.
  repeat split.
  - destruct a; [cbn in L; lia | discriminate].
  - exact (includes_prefix_false _ _ _ Hb).
  - exact (includes_prefix_false _ _ _ Hs).
  - intros q ->. rewrite append_assoc in Hs.
    rewrite (includes_app_r q ("/" ++ String "/" b) "//" eq_refl) in Hs.
    discriminate.
Qed.

End UtilsFacts.
(* ================================================================== *)
(** ** The reply framer: what it hands on and what it keeps *)
(* ================================================================== *)

Module FramerInvariants.
Import JS Framer JSFacts FramerFacts.

Lemma complete_no_terminator (s : string) :
  Forall (fun x => includes x CRLF = false) (complete s).
Proof.
  pose proof (pieces_no_terminator s) as H.
  rewrite split_complete_carry in H. now apply Forall_app in H as [H _].
Qed.

Lemma frame_clean (buffer data : string) :
  Forall (fun line => line <> EmptyString /\ includes line CRLF = false)
         (fst (frame buffer data))
  /\ includes (snd (frame buffer data)) CRLF = false.
Proof.
  rewrite frame_eq. cbn [fst snd]. split; [|apply carry_no_terminator].
  apply Forall_forall. intros line H. apply filter_In in H as [H1 H2].
  split.
  - now destruct line.
  - exact (proj1 (Forall_forall _ _) (complete_no_terminator _) _ H1).
Qed.

(** X6.  Whatever the buffer carried over and however the data arrives,
    every line the framer hands on is non-empty and holds no terminator,
    and the buffer it keeps after a chunk holds no terminator either. *)
Theorem framer_lines_hold_no_terminator
    (buffer data : string) (rest : list string) :
  Forall (fun line => line <> EmptyString /\ includes line CRLF = false)
         (fst (feed buffer (data :: rest)))
  /\ includes (snd (feed buffer (data :: rest))) CRLF = false.
Proof.
  revert buffer data. induction rest as [|next rest IH]; intros buffer data.
  - cbn [feed]. destruct (frame buffer data) as [lines buffer'] eqn:E.
    pose proof (frame_clean buffer data) as H. rewrite E in H.
    cbn [fst snd] in *. now rewrite app_nil_r.
  - change (feed buffer (data :: next :: rest))
      with (let '(lines, buffer') := frame buffer data in
            let '(lines', buffer'') := feed buffer' (next :: rest) in
            ((lines ++ lines')%list, buffer'')).
    destruct (frame buffer data) as [lines buffer'] eqn:E.
    pose proof (frame_clean buffer data) as [H _]. rewrite E in H.
    specialize (IH buffer' next).
    destruct (feed buffer' (next :: rest)) as [lines' buffer''].
    cbn [fst snd] in *. split; [|exact (proj2 IH)].
    apply Forall_app. split; [exact H | exact (proj1 IH)].
Qed.

(** A piece in front of which a character is put. *)
Lemma complete_miss (c : ascii) (s : string) :
  startsWith (String c s) CRLF = false ->
  (complete (String c s) = [] /\ complete s = []
   /\ carry (String c s) = String c (carry s))
  \/ (exists x l,
        complete s = x :: l
        /\ complete (String c s) = String c x :: l
        /\ carry (String c s) = carry s).
Proof.
  intros E. unfold complete, carry. rewrite (split_crlf_miss _ _ E).
  destruct (split s CRLF) as [|x [|y l]] eqn:Es.
  - now apply split_nonempty in Es.
  - left. cbn [cons_head pop fst snd]. now repeat split.
  - right. cbn [cons_head].
    rewrite (pop_cons (String c x)), (pop_cons x) by discriminate.
    cbn [fst snd]. now exists x, (snd (pop (y :: l))).
Qed.

Lemma joinChunks_cons (x : string) (l : list string) :
  joinChunks (x :: l) = x ++ joinChunks l.
Proof. reflexivity. Qed.

Lemma rejoin (s : string) :
  joinChunks (map (fun line => line ++ CRLF) (complete s)) ++ carry s = s.
Proof.
  assert (Step : forall c s',
            joinChunks (map (fun line => line ++ CRLF) (complete s')) ++ carry s' = s' ->
            startsWith (String c s') CRLF = false ->
            joinChunks (map (fun line => line ++ CRLF) (complete (String c s')))
            ++ carry (String c s') = String c s').
  { intros c s' IH E.
    destruct (complete_miss c s' E) as [(-> & E1 & ->)|(x & l & E1 & -> & ->)];
      rewrite E1 in IH; cbn [map] in *.
    - change (joinChunks []) with EmptyString in *. cbn [append] in *.
      now rewrite IH.
    - rewrite joinChunks_cons, !append_assoc in *. cbn [append]. now rewrite IH. }
  induction s as [|c|c d s IHs IHd] using string_ind2.
  - reflexivity.
  - apply Step; [reflexivity|]. unfold CRLF. cbn [startsWith]. apply andb_false_r.
  - destruct (startsWith (String c (String d s)) CRLF) eqn:E.
    + apply startsWith_crlf_inv in E as [-> [s' Hs]]. inversion Hs; subst.
      rewrite complete_hit, carry_hit. cbn [map].
      rewrite joinChunks_cons, append_assoc, IHs. reflexivity.
    + now apply Step.
Qed.

(** X7.  One [data] event loses nothing but terminators and empty lines:
    the buffer carried over followed by the data is made of pieces, each
    followed by a terminator, and of the buffer the framer keeps; the
    lines handed on are the pieces that are not empty, in order. *)
Theorem framer_drops_only_empty_lines (buffer data : string) :
  exists pieces,
    fst (frame buffer data) = filter nonEmpty pieces
    /\ joinChunks (map (fun line => line ++ CRLF) pieces)
       ++ snd (frame buffer data) = buffer ++ data.
Proof.
  exists (complete (buffer ++ data)). rewrite frame_eq. cbn [fst snd].
  split; [reflexivity | apply rejoin].
Qed.

End FramerInvariants.
(* ================================================================== *)
(** ** [parseMdtmResponse]: the time stamp of an [MDTM] reply *)
(* ================================================================== *)

Module MdtmFacts.
Import JS Passive Mdtm JSFacts PassiveFacts UtilsFacts.

Lemma digitsHere_app (stamp post : string) :
  allDigits stamp = true ->
  digitsHere (String.length stamp) (stamp ++ post) = true.
Proof.
  induction stamp as [|c stamp IH]; [reflexivity|].
  cbn [allDigits String.length append digitsHere]. intros H.
  apply andb_true_iff in H as [H1 H2]. now rewrite H1, (IH H2).
Qed.

Lemma digitsHere_split (n : nat) :
  forall s, digitsHere n s = true ->
    exists stamp post,
      s = stamp ++ post /\ String.length stamp = n /\ allDigits stamp = true.
Proof.
  induction n as [|n IH]; intros s H.
  - exists EmptyString, s. now repeat split.
  - destruct s as [|c s]; [discriminate|]. cbn [digitsHere] in H.
    apply andb_true_iff in H as [H1 H2].
    destruct (IH _ H2) as (stamp & post & -> & L & D).
    exists (String c stamp), post. cbn [append String.length allDigits].
    now rewrite H1, D, L.
Qed.

Lemma digits_spec (n : nat) (s : string) :
  digits n s = true <-> String.length s = n /\ allDigits s = true.
Proof.
  unfold digits. rewrite andb_true_iff, Nat.eqb_eq. reflexivity.
Qed.

Lemma matchTimestamp_here (stamp post : string) :
  digits 14 stamp = true ->
  matchTimestamp (stamp ++ post) = Some stamp.
Proof.
  intros H. apply digits_spec in H as [L D].
  pose proof (digitsHere_app stamp post D) as E. rewrite L in E.
  destruct stamp as [|c stamp]; [discriminate L|].
  change (String c stamp ++ post) with (String c (stamp ++ post)) in *.
  unfold matchTimestamp at 1. fold matchTimestamp. rewrite E.
  change (String c (stamp ++ post)) with (String c stamp ++ post).
  change 14%Z with (Z.of_nat 14). rewrite <- L.
  now rewrite substring_prefix.
Qed.

Lemma matchTimestamp_skip (pre rest : string) :
  noDigit pre = true ->
  matchTimestamp (pre ++ rest) = matchTimestamp rest.
Proof.
  induction pre as [|c pre IH]; [reflexivity|].
  cbn [noDigit]. intros H. apply andb_true_iff in H as [H1 H2].
  change (String c pre ++ rest) with (String c (pre ++ rest)).
  unfold matchTimestamp at 1. fold matchTimestamp.
  cbn [digitsHere]. apply negb_true_iff in H1. rewrite H1. cbn [andb].
  now apply IH.
Qed.

Lemma matchTimestamp_none (message : string) :
  matchTimestamp message = None <->
  (forall pre stamp post,
     message = pre ++ stamp ++ post -> digits 14 stamp = false).
Proof.
  split.
  - intros H pre. revert message H.
    induction pre as [|c pre IH]; intros message H stamp post ->.
    + destruct (digits 14 stamp) eqn:D; [|reflexivity].
      cbn [append] in H. rewrite (matchTimestamp_here _ post D) in H. discriminate.
    + change (String c pre ++ stamp ++ post)
        with (String c (pre ++ stamp ++ post)) in H.
      unfold matchTimestamp in H. fold matchTimestamp in H.
      destruct (digitsHere 14 (String c (pre ++ stamp ++ post))); [discriminate|].
      exact (IH _ H stamp post eq_refl).
  - induction message as [|c message IH]; intros H; [reflexivity|].
    unfold matchTimestamp. fold matchTimestamp.
    destruct (digitsHere 14 (String c message)) eqn:E.
    + destruct (digitsHere_split _ _ E) as (stamp & post & Es & L & D).
      specialize (H EmptyString stamp post Es).
      unfold digits in H. now rewrite L, D in H.
    + apply IH. intros pre stamp post ->.
      exact (H (String c pre) stamp post eq_refl).
Qed.

(** A string of exactly four, or two, digits, character by character. *)
Lemma digits_four (s : string) :
  digits 4 s = true ->
  exists a b c d, s = String a (String b (String c (String d EmptyString))).
Proof.
  intros H. apply digits_spec in H as [L _].
  do 4 (destruct s as [|? s]; [discriminate L|]).
  destruct s; [|discriminate L]. now eexists _, _, _, _.
Qed.

Lemma digits_two (s : string) :
  digits 2 s = true -> exists a b, s = String a (String b EmptyString).
Proof.
  intros H. apply digits_spec in H as [L _].
  do 2 (destruct s as [|? s]; [discriminate L|]).
  destruct s; [|discriminate L]. now eexists _, _.
Qed.

Lemma digits_number (n : nat) (s : string) :
  digits (S n) s = true -> number s = true.
Proof.
  intros H. apply digits_spec in H as [L D]. unfold number. rewrite D.
  now destruct s.
Qed.

(** X8.  When a reply to [MDTM] holds fourteen digits in a row after text
    without a digit, [parseMdtmResponse] reads year, month, day, hour,
    minute and second off them, four digits for the year and two for each
    of the others, and hands them to [Date.UTC] with one subtracted from
    the month; whatever follows the fourteen digits is ignored. *)
Theorem mdtm_reply_decodes_timestamp (pre y mo d h mi s post : string) :
  noDigit pre = true ->
  digits 4 y = true ->
  digits 2 mo = true ->
  digits 2 d = true ->
  digits 2 h = true ->
  digits 2 mi = true ->
  digits 2 s = true ->
  parseMdtmResponse (pre ++ y ++ mo ++ d ++ h ++ mi ++ s ++ post)
  = Ok (mkUtc (Some (decimal 0 y)) (Some (decimal 0 mo - 1)%Z)
              (Some (decimal 0 d)) (Some (decimal 0 h))
              (Some (decimal 0 mi)) (Some (decimal 0 s))).
Proof.
  intros Hpre Hy Hmo Hd Hh Hmi Hs.
  pose proof (parseInt_number _ (digits_number _ _ Hy)) as Py.
  pose proof (parseInt_number _ (digits_number _ _ Hmo)) as Pmo.
  pose proof (parseInt_number _ (digits_number _ _ Hd)) as Pd.
  pose proof (parseInt_number _ (digits_number _ _ Hh)) as Ph.
  pose proof (parseInt_number _ (digits_number _ _ Hmi)) as Pmi.
  pose proof (parseInt_number _ (digits_number _ _ Hs)) as Ps.
  assert (Hstamp : digits 14 (y ++ mo ++ d ++ h ++ mi ++ s) = true).
  { apply digits_spec in Hy as [Ly Dy], Hmo as [Lmo Dmo], Hd as [Ld Dd],
      Hh as [Lh Dh], Hmi as [Lmi Dmi], Hs as [Ls Ds].
    apply digits_spec. split.
    - rewrite !append_length. lia.
    - clear - Dy Dmo Dd Dh Dmi Ds.
      assert (A : forall a b, allDigits a = true -> allDigits b = true ->
                              allDigits (a ++ b) = true).
      { intros a b Ha Hb. induction a as [|c a IH]; [exact Hb|].
        cbn [allDigits append] in *. apply andb_true_iff in Ha as [H1 H2].
        now rewrite H1, (IH H2). }
      now repeat apply A. }
  unfold parseMdtmResponse.
  rewrite (matchTimestamp_skip _ _ Hpre).
  replace (y ++ mo ++ d ++ h ++ mi ++ s ++ post)
    with ((y ++ mo ++ d ++ h ++ mi ++ s) ++ post)
    by (now rewrite !append_assoc).
  rewrite (matchTimestamp_here _ post Hstamp).
  destruct (digits_four _ Hy) as (y1 & y2 & y3 & y4 & ->).
  destruct (digits_two _ Hmo) as (m1 & m2 & ->).
  destruct (digits_two _ Hd) as (d1 & d2 & ->).
  destruct (digits_two _ Hh) as (h1 & h2 & ->).
  destruct (digits_two _ Hmi) as (i1 & i2 & ->).
  destruct (digits_two _ Hs) as (s1 & s2 & ->).
  cbn [append].
  change (substring _ 0 4) with (String y1 (String y2 (String y3 (String y4 EmptyString)))).
  change (substring _ 4 6) with (String m1 (String m2 EmptyString)).
  change (substring _ 6 8) with (String d1 (String d2 EmptyString)).
  change (substring _ 8 10) with (String h1 (String h2 EmptyString)).
  change (substring _ 10 12) with (String i1 (String i2 EmptyString)).
  change (substring _ 12 14) with (String s1 (String s2 EmptyString)).
  rewrite Py, Pmo, Pd, Ph, Pmi, Ps. reflexivity.
Qed.

Lemma mdtm_reply_decodes_timestamp_witness :
  parseMdtmResponse ("" ++ "2026" ++ "02" ++ "28" ++ "23" ++ "59" ++ "07" ++ ".250")
  = Ok (mkUtc (Some 2026%Z) (Some 1%Z) (Some 28%Z)
              (Some 23%Z) (Some 59%Z) (Some 7%Z)).
Proof.
  exact (mdtm_reply_decodes_timestamp "" "2026" "02" "28" "23" "59" "07" ".250"
           eq_refl eq_refl eq_refl eq_refl eq_refl eq_refl eq_refl).
Defined.

(** X9.  [parseMdtmResponse] throws [Failed to parse MDTM response]
    exactly when the reply holds no fourteen digits in a row; in every
    other case it returns a date. *)
Theorem mdtm_reply_fails_without_timestamp (message : string) :
  parseMdtmResponse message = Err "Failed to parse MDTM response"
  <-> (forall pre stamp post,
         message = pre ++ stamp ++ post -> digits 14 stamp = false).
Proof.
  rewrite <- matchTimestamp_none. unfold parseMdtmResponse.
  destruct (matchTimestamp message); split; intros H;
    try reflexivity; discriminate H.
Qed.

End MdtmFacts.
(* ================================================================== *)
(** ** The command layer: [pwd], [chmod] and [removeDir] *)
(* ================================================================== *)

Module FileCommandsFacts.
Import JS Utils Client Passive Commands Mdtm Listing FileCommands.
Import JSFacts UtilsFacts.

(** *** The pattern of [pwd] *)

Lemma beforeLastQuote_none (s : string) :
  includes s (String QUOTE EmptyString) = false -> beforeLastQuote s = None.
Proof.
  induction s as [|c s IH]; [reflexivity|].
  rewrite includes_char_cons. intros H. apply orb_false_iff in H as [H1 H2].
  cbn [beforeLastQuote]. rewrite (IH H2), (Ascii.eqb_sym c QUOTE), H1.
  now destruct (Ascii.eqb c LF || Ascii.eqb c CR).
Qed.

Lemma beforeLastQuote_closing (dir post : string) :
  allOf dot dir = true ->
  includes post (String QUOTE EmptyString) = false ->
  beforeLastQuote (dir ++ String QUOTE post) = Some dir.
Proof.
  intros Hd Hp. induction dir as [|c dir IH].
  - cbn [append beforeLastQuote]. rewrite (beforeLastQuote_none _ Hp).
    reflexivity.
  - cbn [allOf] in Hd. apply andb_true_iff in Hd as [H1 H2].
    change (String c dir ++ String QUOTE post)
      with (String c (dir ++ String QUOTE post)).
    cbn [beforeLastQuote]. unfold dot in H1. apply negb_true_iff in H1.
    now rewrite H1, (IH H2).
Qed.

Lemma matchQuoted_skip (pre rest : string) :
  includes pre (String QUOTE EmptyString) = false ->
  matchQuoted (pre ++ rest) = matchQuoted rest.
Proof.
  induction pre as [|c pre IH]; [reflexivity|].
  rewrite includes_char_cons. intros H. apply orb_false_iff in H as [H1 H2].
  change (String c pre ++ rest) with (String c (pre ++ rest)).
  cbn [matchQuoted]. rewrite (Ascii.eqb_sym c QUOTE), H1. now apply IH.
Qed.

Lemma beforeLastQuote_sound (s t : string) :
  beforeLastQuote s = Some t -> exists post, s = t ++ String QUOTE post.
Proof.
  revert t. induction s as [|c s IH]; intros t H; [discriminate|].
  cbn [beforeLastQuote] in H.
  destruct (Ascii.eqb c LF || Ascii.eqb c CR); [discriminate|].
  destruct (beforeLastQuote s) as [t'|].
  - some_inj H. subst t. destruct (IH _ eq_refl) as (post & ->).
    now exists post.
  - destruct (Ascii.eqb c QUOTE) eqn:E; [|discriminate].
    some_inj H. subst t. apply Ascii.eqb_eq in E. subst c. now exists s.
Qed.

Lemma matchQuoted_sound (s dir : string) :
  matchQuoted s = Some dir ->
  exists pre post, s = pre ++ String QUOTE (dir ++ String QUOTE post).
Proof.
  induction s as [|c s IH]; intros H; [discriminate|].
  cbn [matchQuoted] in H.
  assert (K : matchQuoted s = Some dir ->
              exists pre post,
                String c s = pre ++ String QUOTE (dir ++ String QUOTE post)).
  { intros E. destruct (IH E) as (pre & post & ->).
    now exists (String c pre), post. }
  destruct (Ascii.eqb c QUOTE) eqn:Ec; [|exact (K H)].
  destruct (beforeLastQuote s) as [[|a t]|] eqn:Eb; try exact (K H).
  some_inj H. subst dir. apply Ascii.eqb_eq in Ec. subst c.
  destruct (beforeLastQuote_sound _ _ Eb) as (post & ->).
  now exists EmptyString, post.
Qed.

Section Layer.

Variable world : Type.
Variable sendCommand : string -> world -> result response * world.
Variable listDir : string -> world -> result string * world.

Local Abbreviation pwd := (Commands.pwd world sendCommand).
Local Abbreviation chmod := (FileCommands.chmod world sendCommand).
Local Abbreviation removeDir_fuel :=
  (FileCommands.removeDir_fuel world sendCommand listDir).
Local Abbreviation forEach := (FileCommands.forEach world).
Local Abbreviation state := (Commands.state world).

(** X10.  When the reply to [PWD] holds a quoted text, [pwd] returns what
    stands between the first quote and the last one: text without a line
    break, which may hold quotes itself (a doubled quote is returned
    doubled). *)
Theorem pwd_returns_quoted_directory
    (w w' : world) (sent : list string) (r : response) (pre dir post : string) :
  sendCommand "PWD" w = (Ok r, w') ->
  message r = pre ++ String QUOTE (dir ++ String QUOTE post) ->
  includes pre (String QUOTE EmptyString) = false ->
  includes post (String QUOTE EmptyString) = false ->
  dir <> EmptyString ->
  allOf dot dir = true ->
  pwd (w, sent) = (Ok dir, (w', (sent ++ ["PWD"])%list)).
Proof using Type.
  intros Hs Hm Hpre Hpost Hne Hdot.
  unfold Commands.pwd, bind, send, ret. cbn [fst snd]. rewrite Hs, Hm.
  rewrite (matchQuoted_skip _ _ Hpre). cbn [matchQuoted].
  rewrite Ascii.eqb_refl, (beforeLastQuote_closing _ _ Hdot Hpost).
  destruct dir; [contradiction | reflexivity].
Qed.

(** X11.  When the reply to [PWD] holds no two quotes, [pwd] does not fail:
    it returns the root [/]. *)
Theorem pwd_defaults_to_root
    (w w' : world) (sent : list string) (r : response) :
  sendCommand "PWD" w = (Ok r, w') ->
  (forall a b c,
     message r <> a ++ String QUOTE (b ++ String QUOTE c)) ->
  pwd (w, sent) = (Ok "/", (w', (sent ++ ["PWD"])%list)).
Proof using Type.
  intros Hs Hm. unfold Commands.pwd, bind, send, ret. cbn [fst snd]. rewrite Hs.
  destruct (matchQuoted (message r)) as [dir|] eqn:E; [|reflexivity].
  destruct (matchQuoted_sound _ _ E) as (pre & post & E').
  now contradiction (Hm pre dir post).
Qed.

(** *** [chmod] *)

Lemma keepOctal_octal (s : string) : allOf isOctalDigit (keepOctal s) = true.
Proof.
  induction s as [|c s IH]; [reflexivity|]. cbn [keepOctal].
  destruct (isOctalDigit c) eqn:E; [|exact IH]. cbn [allOf]. now rewrite E.
Qed.


(** *** Octal digits of a number *)

Lemma octalDigit_char (d : Z) :
  (0 <= d < 8)%Z ->
  isOctalDigit (ascii_of_nat (48 + Z.to_nat d)) = true
  /\ digitValue (ascii_of_nat (48 + Z.to_nat d)) = Some d.
Proof.
  intros H.
  assert (E : (d = 0 \/ d = 1 \/ d = 2 \/ d = 3 \/ d = 4 \/ d = 5 \/ d = 6 \/ d = 7)%Z) by lia.
  destruct E as [->|[->|[->|[->|[->|[->|[->| ->]]]]]]]; now vm_compute.
Qed.

(** The value of a string of octal digits read after [acc]. *)
Lemma readDigits_octal_snoc (s : string) (d : Z) :
  forall acc,
    allOf isOctalDigit s = true ->
    (0 <= d < 8)%Z ->
    readDigits 8 acc (s ++ String (ascii_of_nat (48 + Z.to_nat d)) EmptyString)
    = Some (8 * accValue (readDigits 8 acc s) + d)%Z.
Proof.
  induction s as [|c s IH]; intros acc Hs Hd.
  - cbn [append readDigits]. destruct (octalDigit_char d Hd) as [_ ->].
    destruct (Z.ltb_spec d 8); [|lia]. reflexivity.
  - cbn [allOf] in Hs. apply andb_true_iff in Hs as [Hc Hs].
    change (String c s ++ ?x) with (String c (s ++ x)).
    cbn [readDigits].
    assert (Hv : exists v, digitValue c = Some v /\ (v <? 8)%Z = true).
    { destruct c as [[] [] [] [] [] [] [] []]; vm_compute in Hc;
        try discriminate Hc; eexists; vm_compute; split; reflexivity. }
    destruct Hv as (v & -> & ->). now apply IH.
Qed.

Lemma octalDigits_step (fuel : nat) (n : Z) :
  octalDigits (S fuel) n
  = if (n <? 8)%Z
    then String (ascii_of_nat (48 + Z.to_nat (n mod 8))) EmptyString
    else octalDigits fuel (n / 8)
         ++ String (ascii_of_nat (48 + Z.to_nat (n mod 8))) EmptyString.
Proof. reflexivity. Qed.

Lemma allOf_snoc (class : ascii -> bool) (s : string) (c : ascii) :
  allOf class s = true -> class c = true ->
  allOf class (s ++ String c EmptyString) = true.
Proof.
  intros A Hc. induction s as [|x s IH].
  - cbn [append allOf]. now rewrite Hc.
  - cbn [allOf append] in *. apply andb_true_iff in A as [A1 A2].
    now rewrite A1, (IH A2).
Qed.

(** With fuel for one digit more than the number needs, the digits are
    octal digits, they spell the number, and there are as many of them as
    the number has octal places. *)
Lemma octalDigits_spec (fuel : nat) :
  forall n, (0 <= n < 8 ^ Z.of_nat (S fuel))%Z ->
    allOf isOctalDigit (octalDigits (S fuel) n) = true
    /\ readDigits 8 None (octalDigits (S fuel) n) = Some n
    /\ (forall k, (8 ^ Z.of_nat k <= n)%Z ->
          k < String.length (octalDigits (S fuel) n))
    /\ (forall k, (n < 8 ^ Z.of_nat k)%Z -> 0 < k ->
          String.length (octalDigits (S fuel) n) <= k).
Proof.
  induction fuel as [|fuel IH]; intros n Hn; rewrite octalDigits_step;
    (assert (Hd : (0 <= n mod 8 < 8)%Z) by (apply Z.mod_pos_bound; lia));
    destruct (octalDigit_char _ Hd) as [Ho Hv];
    destruct (Z.ltb_spec n 8) as [Hlt|Hge].
  1, 3: rewrite Z.mod_small in * by lia; repeat split.
  1, 5: cbn [allOf]; now rewrite Ho.
  1, 4: cbn [readDigits]; rewrite Hv; destruct (Z.ltb_spec n 8); [|lia];
        f_equal; lia.
  1, 3: intros k Hk; cbn [String.length]; destruct k as [|k]; [lia|];
        assert (8 ^ 1 <= 8 ^ Z.of_nat (S k))%Z by (apply Z.pow_le_mono_r; lia);
        lia.
  1, 2: intros k _ Hk; cbn [String.length]; lia.
  - change (8 ^ Z.of_nat 1)%Z with 8%Z in Hn. lia.
  - assert (Hq : (0 <= n / 8 < 8 ^ Z.of_nat (S fuel))%Z).
    { split; [apply Z.div_pos; lia|].
      apply Z.div_lt_upper_bound; [lia|].
      rewrite (Nat2Z.inj_succ (S fuel)), Z.pow_succ_r in Hn by lia. lia. }
    destruct (IH _ Hq) as (A & R & Lo & Hi). repeat split.
    + now apply allOf_snoc.
    + rewrite (readDigits_octal_snoc _ _ _ A Hd), R. cbn [accValue].
      f_equal. pose proof (Z.div_mod n 8). lia.
    + intros k Hk. rewrite append_length. cbn [String.length].
      destruct k as [|k]; [lia|].
      assert (k < String.length (octalDigits (S fuel) (n / 8))); [|lia].
      apply Lo. apply Z.div_le_lower_bound; [lia|].
      rewrite Nat2Z.inj_succ, Z.pow_succ_r in Hk by lia. lia.
    + intros k Hk Hpos. rewrite append_length. cbn [String.length].
      destruct k as [|k]; [lia|].
      destruct k as [|k].
      { change (8 ^ Z.of_nat 1)%Z with 8%Z in Hk. lia. }
      assert (String.length (octalDigits (S fuel) (n / 8)) <= S k); [|lia].
      apply Hi; [|lia]. apply Z.div_lt_upper_bound; [lia|].
      rewrite (Nat2Z.inj_succ (S k)), Z.pow_succ_r in Hk by lia. lia.
Qed.

Lemma toOctal_spec (n : Z) :
  (0 <= n)%Z ->
  allOf isOctalDigit (toOctal n) = true
  /\ readDigits 8 None (toOctal n) = Some n
  /\ (forall k, (8 ^ Z.of_nat k <= n)%Z -> k < String.length (toOctal n))
  /\ (forall k, (n < 8 ^ Z.of_nat k)%Z -> 0 < k -> String.length (toOctal n) <= k).
Proof.
  intros Hn. unfold toOctal. destruct (Z.ltb_spec n 0); [lia|].
  apply octalDigits_spec. split; [lia|].
  destruct (Z.eq_dec n 0) as [->|Hz]; [now vm_compute|].
  pose proof (Z.log2_spec n ltac:(lia)) as [_ Hl].
  pose proof (Z.log2_nonneg n).
  rewrite Nat2Z.inj_succ, Z2Nat.id by lia.
  eapply Z.lt_le_trans; [exact Hl|].
  apply Z.pow_le_mono_l. lia.
Qed.

(** X13.  [chmod] with a number as mode, an integer of absolute value
    below 2^53, sends the number written in octal: a number from 64 to
    4095 (octal 100 to 7777) is accepted and the mode it sends, read as an
    octal numeral, is the number itself, so that the number 755 is sent as
    1363; every other such integer, negative ones included, is refused
    with [Invalid chmod mode] and nothing is sent. *)
Theorem chmod_number_mode_is_sent_in_octal
    (path : string) (n : Z) (held : safe n = true) (w : world)
    (sent : list string) :
  ((64 <= n <= 4095)%Z ->
     readDigits 8 None (toOctal n) = Some n
     /\ chmod path (NumberMode n held) (w, sent)
        = let command := "SITE CHMOD " ++ toOctal n ++ " " ++ path in
          (match fst (sendCommand command w) with
           | Ok _ => Ok tt
           | Err e => Err e
           end,
           (snd (sendCommand command w), (sent ++ [command])%list)))
  /\ ((n < 64 \/ 4095 < n)%Z ->
        chmod path (NumberMode n held) (w, sent)
        = (Err ("Invalid chmod mode: " ++ showNumber (Some n)
                ++ ". Use octal format like '755' or 0755"), (w, sent))).
Proof using Type.
  unfold FileCommands.chmod, isOctalMode. cbn [modeString]. split.
  - intros Hn. destruct (toOctal_spec n ltac:(lia)) as (A & R & Lo & Hi).
    split; [exact R|]. rewrite A.
    pose proof (Lo 2 ltac:(change (8 ^ Z.of_nat 2)%Z with 64%Z; lia)) as L1.
    pose proof (Hi 4 ltac:(change (8 ^ Z.of_nat 4)%Z with 4096%Z; lia) ltac:(lia)) as L2.
    destruct (Nat.leb_spec 3 (String.length (toOctal n))); [|lia].
    destruct (Nat.leb_spec (String.length (toOctal n)) 4); [|lia].
    cbn [andb negb]. unfold bind, send, ret. cbn [fst snd].
    now destruct (sendCommand ("SITE CHMOD " ++ toOctal n ++ " " ++ path) w)
      as [[v|e] w1].
  - intros Hn.
    assert (E : allOf isOctalDigit (toOctal n)
                && (3 <=? String.length (toOctal n))%nat
                && (String.length (toOctal n) <=? 4)%nat = false);
      [|now rewrite E].
    destruct (Z.ltb_spec n 0) as [Hneg|Hpos].
    + unfold toOctal. destruct (Z.ltb_spec n 0); [|lia]. reflexivity.
    + destruct (toOctal_spec n Hpos) as (A & R & Lo & Hi). rewrite A. cbn [andb].
      destruct Hn as [Hn|Hn].
      * pose proof (Hi 2 ltac:(change (8 ^ Z.of_nat 2)%Z with 64%Z; lia) ltac:(lia)).
        destruct (Nat.leb_spec 3 (String.length (toOctal n))); [lia|reflexivity].
      * pose proof (Lo 4 ltac:(change (8 ^ Z.of_nat 4)%Z with 4096%Z; lia)).
        destruct (Nat.leb_spec (String.length (toOctal n)) 4); [lia|].
        apply andb_false_r.
Qed.

End Layer.

Lemma chmod_number_mode_is_sent_in_octal_witness :
  FileCommands.chmod unit obligingServer "/srv/run.sh" (NumberMode 493 eq_refl)
    (tt, [])
  = (Ok tt, (tt, ["SITE CHMOD 755 /srv/run.sh"]))
  /\ FileCommands.chmod unit obligingServer "/srv/run.sh" (NumberMode 7 eq_refl)
       (tt, [])
     = (Err "Invalid chmod mode: 7. Use octal format like '755' or 0755", (tt, [])).
Proof.
  destruct (chmod_number_mode_is_sent_in_octal unit obligingServer
              "/srv/run.sh" 493 eq_refl tt []) as [H _].
  destruct (chmod_number_mode_is_sent_in_octal unit obligingServer
              "/srv/run.sh" 7 eq_refl tt []) as [_ K].
  split.
  - exact (proj2 (H ltac:(lia))).
  - exact (K ltac:(lia)).
Defined.

Lemma pwd_returns_quoted_directory_witness :
  Commands.pwd unit
    (fun _ w =>
       (Ok (mkResponse (Some 257%Z)
              (String QUOTE ("/home/ftp" ++ String QUOTE " is current"))
              EmptyString), w))
    (tt, [])
  = (Ok "/home/ftp", (tt, ["PWD"])).
Proof.
  exact (pwd_returns_quoted_directory unit
           (fun _ w =>
              (Ok (mkResponse (Some 257%Z)
                     (String QUOTE ("/home/ftp" ++ String QUOTE " is current"))
                     EmptyString), w))
           tt tt []
           (mkResponse (Some 257%Z)
              (String QUOTE ("/home/ftp" ++ String QUOTE " is current"))
              EmptyString)
           "" "/home/ftp" " is current"
           eq_refl eq_refl eq_refl eq_refl ltac:(discriminate) eq_refl).
Defined.

Lemma pwd_defaults_to_root_witness :
  Commands.pwd unit obligingServer (tt, []) = (Ok "/", (tt, ["PWD"])).
Proof.
  apply (pwd_defaults_to_root unit obligingServer tt tt [] _ eq_refl).
  intros a b c E. cbn [message] in E.
  assert (H : includes "Done" (String QUOTE EmptyString) = true).
  { rewrite E. apply includes_app_r. cbn [includes startsWith].
    now rewrite Ascii.eqb_refl. }
  discriminate H.
Defined.

End FileCommandsFacts.
(* ================================================================== *)
(** ** [removeDir] on a directory that holds no directory *)
(* ================================================================== *)

Module RemovalFacts.
Import JS Utils Client Passive Commands Listing FileCommands.

Section Layer.

Variable world : Type.
Variable sendCommand : string -> world -> result response * world.
Variable listDir : string -> world -> result string * world.

Local Abbreviation removeDir_fuel :=
  (FileCommands.removeDir_fuel world sendCommand listDir).
Local Abbreviation removeEntry := (FileCommands.removeEntry world sendCommand).
Local Abbreviation forEach := (FileCommands.forEach world).

(** A line that names no directory: passed over, or one [DELE] whose
    failure is ignored. *)
Lemma removeEntry_file
    (removeDir : string -> bool -> Commands.M world (option unit))
    (path line : string) (w : world) (sent : list string) :
  startsWith line "d" = false ->
  exists w',
    removeEntry removeDir path line (w, sent)
    = (Ok (Some tt), (w', (sent ++ deletions path [line])%list)).
Proof using Type.
  intros Hd. unfold FileCommands.removeEntry, deletions, skipped, entryName.
  cbn [filter].
  destruct (negb (nonEmpty line) || includes line " ." || includes line " ..");
    cbn [orb negb map].
  - exists w. unfold ret. now rewrite app_nil_r.
  - destruct (String.eqb (lastPart (splitSpaces (trim line))) "."
              || String.eqb (lastPart (splitSpaces (trim line))) "..") eqn:E.
    + exists w. cbn [negb filter map]. unfold ret. now rewrite app_nil_r.
    + rewrite Hd. cbn [negb filter map].
      unfold tryCatch, delete, bind, send, ret, fullPath. cbn [fst snd].
      destruct (sendCommand
                  ("DELE " ++ collapseSlashes
                     (path ++ "/" ++ lastPart (splitSpaces (trim line)))) w)
        as [[v|e] w1]; exists w1; reflexivity.
Qed.

Lemma deletions_cons (path line : string) (lines : list string) :
  deletions path (line :: lines)
  = (deletions path [line] ++ deletions path lines)%list.
Proof.
  unfold deletions. cbn [filter].
  destruct (negb (skipped line)); reflexivity.
Qed.

Lemma forEach_files
    (removeDir : string -> bool -> Commands.M world (option unit))
    (path : string) (lines : list string) :
  Forall (fun line => startsWith line "d" = false) lines ->
  forall w sent,
  exists w',
    forEach lines (removeEntry removeDir path) (w, sent)
    = (Ok (Some tt), (w', (sent ++ deletions path lines)%list)).
Proof using Type.
  induction 1 as [|line lines Hd _ IH]; intros w sent.
  - exists w. unfold deletions. cbn [forEach filter map]. unfold ret.
    now rewrite app_nil_r.
  - destruct (removeEntry_file removeDir path line w sent Hd) as (w1 & E1).
    destruct (IH w1 (sent ++ deletions path [line])%list) as (w2 & E2).
    exists w2. cbn [forEach]. unfold bind at 1. rewrite E1, E2.
    now rewrite (deletions_cons path line lines), app_assoc.
Qed.

(** X14.  [removeDir] with [recursive] on a directory whose listing shows
    no directory (no line starts with [d]) sends one [DELE] for each line
    that is not passed over, in the order of the listing, and then [RMD]
    for the directory, whatever the server answers to the [DELE]s: a file
    that cannot be deleted is ignored.  A line is passed over when it
    holds a space followed by a dot, so the entry of a name that begins
    with a dot is never deleted.  The removal succeeds when the final
    [RMD] does, and fails with [Failed to remove directory], the path and
    the server's error when it does not. *)
Theorem removeDir_deletes_files_then_directory
    (fuel : nat) (path listing : string) (w w1 : world) (sent : list string) :
  listDir path w = (Ok listing, w1) ->
  Forall (fun line => startsWith line "d" = false) (removalLines listing) ->
  exists w2,
    removeDir_fuel (S fuel) path true (w, sent)
    = (match fst (sendCommand ("RMD " ++ path) w2) with
       | Ok _ => Ok (Some tt)
       | Err e => Err ("Failed to remove directory " ++ path ++ ": " ++ e)
       end,
       (snd (sendCommand ("RMD " ++ path) w2),
        (sent ++ deletions path (removalLines listing)
              ++ [("RMD " ++ path)%string])%list)).
Proof using Type.
  intros Hl Hflat.
  destruct (forEach_files (removeDir_fuel fuel) path _ Hflat w1 sent)
    as (w2 & E).
  exists w2. cbn [FileCommands.removeDir_fuel negb].
  unfold tryCatch, bind at 1, awaitList. cbn [fst snd]. rewrite Hl.
  unfold bind at 1. rewrite E.
  unfold bind, send, ret, throw. cbn [fst snd].
  rewrite <- app_assoc.
  now destruct (sendCommand ("RMD " ++ path) w2) as [[v|e] w3].
Qed.

End Layer.

Lemma removeDir_deletes_files_then_directory_witness :
  let listing :=
    "-rw-r--r-- 1 ftp ftp 12 Jan 01 2026 a.txt" ++ String CR (String LF
    ("-rw-r--r-- 1 ftp ftp 40 Jan 01 2026 .htaccess" ++ String CR (String LF
    EmptyString))) in
  FileCommands.removeDir_fuel unit refusingServer (fun _ w => (Ok listing, w))
    1 "/old" true (tt, [])
  = (Err "Failed to remove directory /old: FTP Error 421: Service not available",
     (tt, ["DELE /old/a.txt"; "RMD /old"])).
Proof.
  intros listing.
  destruct (removeDir_deletes_files_then_directory unit refusingServer
              (fun _ w => (Ok listing, w)) 0 "/old" listing tt tt []
              eq_refl) as ([] & E).
  - vm_compute. repeat constructor.
  - exact E.
Defined.

End RemovalFacts.
(* ================================================================== *)
(** ** [listDetailed]: the pattern for a line of a listing *)
(* ================================================================== *)

Module ListingFacts.
Import JS Passive Listing JSFacts PassiveFacts.

(** *** Where the pattern cannot match *)

(** [k] fails on every suffix of [s]. *)
Local Abbreviation dead s k := (forall p s', s = p ++ s' -> k s' = None).

Lemma plus_dead {A : Type} (class : ascii -> bool) (k : string -> option A)
    (s : string) :
  dead s k -> dead s (plus class k).
Proof.
  intros H p s'. revert p. induction s' as [|c s' IH]; intros p E; [reflexivity|].
  cbn [plus]. destruct (class c); [|reflexivity].
  assert (E' : s = (p ++ String c EmptyString) ++ s')
    by (rewrite E, append_assoc; reflexivity).
  now rewrite (IH _ E'), (H _ _ E').
Qed.

Lemma times_dead {A : Type} (n : nat) (class : ascii -> bool)
    (k : string -> option A) (s : string) :
  dead s k -> dead s (times n class k).
Proof.
  intros H. induction n as [|n IH]; intros p s' E; [exact (H _ _ E)|].
  destruct s' as [|c s']; [reflexivity|]. cbn [times].
  destruct (class c); [|reflexivity].
  apply (IH (p ++ String c EmptyString)). rewrite E, append_assoc. reflexivity.
Qed.

Lemma capture_dead {A : Type}
    (pattern : (string -> option A) -> string -> option A)
    (k : string -> string -> option A) (s : string) :
  (forall k', dead s k' -> dead s (pattern k')) ->
  (forall x, dead s (k x)) ->
  dead s (capture pattern k).
Proof.
  intros Hp Hk p s' E. unfold capture.
  apply (Hp _ (fun q s'' E'' => Hk _ q s'' E'') p s' E).
Qed.

Lemma threeWords_dead {A : Type} (k : string -> option A) (s : string) :
  dead s k -> dead s (threeWords k).
Proof. intros H. unfold threeWords. now repeat apply plus_dead. Qed.

(** What is left of a line that ends with a carriage return is empty or
    ends with the carriage return. *)
Lemma suffix_of_cr_line (l : string) :
  forall p s', l ++ String CR EmptyString = p ++ s' ->
    s' = EmptyString \/ exists t, s' = t ++ String CR EmptyString.
Proof.
  induction l as [|c l IH]; intros p s' E.
  - destruct p as [|x p]; cbn [append] in E.
    + right. now exists EmptyString.
    + left. inversion E as [[Ex Ep]]. destruct p; [now cbn in Ep|discriminate].
  - destruct p as [|x p]; cbn [append] in E.
    + right. exists (String c l). now rewrite <- E.
    + inversion E as [[Ex Ep]]. exact (IH _ _ Ep).
Qed.

Lemma name_dead_before_cr {A : Type} (k : string -> option A) (t : string) :
  (forall c rest, k (String c rest) = None) ->
  plus dot k (t ++ String CR EmptyString) = None.
Proof.
  intros Hk. induction t as [|c t IH].
  - reflexivity.
  - change (String c t ++ String CR EmptyString)
      with (String c (t ++ String CR EmptyString)).
    cbn [plus]. rewrite IH. destruct (dot c); [|reflexivity].
    destruct t; apply Hk.
Qed.

Lemma matchListLine_cr (l : string) :
  matchListLine (l ++ String CR EmptyString) = None.
Proof.
  unfold matchListLine.
  assert (Hlast : forall (f : string -> list string),
            dead (l ++ String CR EmptyString)
                 (capture (plus dot) (fun name => atEnd (f name)))).
  { intros f p s' E. unfold capture.
    destruct (suffix_of_cr_line _ _ _ E) as [->|(t & ->)]; [reflexivity|].
    apply name_dead_before_cr. reflexivity. }
  refine (capture_dead _ _ (l ++ String CR EmptyString) _ _ EmptyString _ eq_refl).
  { intros k' Hk'. now apply times_dead. }
  intros perms. apply plus_dead. apply capture_dead; [intros k'; apply plus_dead|].
  intros links. apply plus_dead. apply capture_dead; [intros k'; apply plus_dead|].
  intros owner. apply plus_dead. apply capture_dead; [intros k'; apply plus_dead|].
  intros group. apply plus_dead. apply capture_dead; [intros k'; apply plus_dead|].
  intros size. apply plus_dead. apply capture_dead; [intros k'; apply threeWords_dead|].
  intros date. apply plus_dead.
  exact (Hlast (fun name => [perms; links; owner; group; size; date; name])).
Qed.

(** *** Where the pattern matches *)

Lemma prefix_cut (w rest : string) :
  String.substring 0 (String.length (w ++ rest) - String.length rest) (w ++ rest) = w.
Proof.
  rewrite append_length, Nat.add_sub.
  induction w as [|c w IH]; cbn [append String.length String.substring].
  - now destruct rest.
  - now rewrite IH.
Qed.

(** [rest] is empty or begins outside the class. *)
Local Abbreviation boundary class rest :=
  (match rest with
   | EmptyString => True
   | String c _ => class c = false
   end).

Lemma plus_exact {A : Type} (class : ascii -> bool) (k : string -> option A)
    (w rest : string) (r : A) :
  word class w = true ->
  boundary class rest ->
  k rest = Some r ->
  plus class k (w ++ rest) = Some r.
Proof.
  unfold word. destruct w as [|c w]; [discriminate|]. cbn [nonEmpty andb].
  revert c. induction w as [|d w IH]; intros c Hc B Hk;
    cbn [allOf] in Hc; apply andb_true_iff in Hc as [Hc Hw].
  - cbn [append plus]. rewrite Hc.
    destruct rest as [|x rest]; [exact Hk|]. cbn [plus]. now rewrite B.
  - change (String c (String d w) ++ rest) with (String c (String d w ++ rest)).
    cbn [plus]. rewrite Hc. now rewrite (IH d Hw B Hk).
Qed.

Lemma capture_plus_exact {A : Type} (class : ascii -> bool)
    (k : string -> string -> option A) (w rest : string) (r : A) :
  word class w = true ->
  boundary class rest ->
  k w rest = Some r ->
  capture (plus class) k (w ++ rest) = Some r.
Proof.
  intros Hw B Hk. unfold capture. apply plus_exact; [exact Hw | exact B|].
  now rewrite prefix_cut.
Qed.

Lemma capture_plus_end {A : Type} (class : ascii -> bool)
    (k : string -> string -> option A) (w : string) (r : A) :
  word class w = true ->
  k w EmptyString = Some r ->
  capture (plus class) k w = Some r.
Proof.
  intros Hw Hk. rewrite <- (append_empty_r w).
  apply capture_plus_exact; [exact Hw | exact I | exact Hk].
Qed.

Lemma times_exact {A : Type} (class : ascii -> bool) (k : string -> option A)
    (w rest : string) :
  allOf class w = true ->
  times (String.length w) class k (w ++ rest) = k rest.
Proof.
  induction w as [|c w IH]; [reflexivity|].
  cbn [allOf String.length append times]. intros H.
  apply andb_true_iff in H as [H1 H2]. now rewrite H1, (IH H2).
Qed.

Lemma word_head (class : ascii -> bool) (w : string) :
  word class w = true -> exists c w', w = String c w' /\ class c = true.
Proof.
  unfold word. destruct w as [|c w]; [discriminate|]. cbn [nonEmpty andb allOf].
  intros H. apply andb_true_iff in H as [H _]. now exists c, w.
Qed.

(** A word of one class makes a boundary for a class disjoint from it. *)
Lemma boundary_word (class other : ascii -> bool) (w rest : string) :
  word other w = true ->
  (forall c, other c = true -> class c = false) ->
  boundary class (w ++ rest).
Proof.
  intros Hw Hd. destruct (word_head _ _ Hw) as (c & w' & -> & Hc).
  cbn [append]. now apply Hd.
Qed.

Lemma digit_not_space (c : ascii) : isDigit c = true -> isWhiteSpace c = false.
Proof. intros H. now destruct (digit_facts c H). Qed.

Lemma space_not_digit (c : ascii) : isWhiteSpace c = true -> isDigit c = false.
Proof.
  intros H. destruct (isDigit c) eqn:E; [|reflexivity].
  now rewrite (digit_not_space _ E) in H.
Qed.

Lemma nonSpace_not_space (c : ascii) : nonSpace c = true -> isWhiteSpace c = false.
Proof. unfold nonSpace. now intros H%negb_true_iff. Qed.

Lemma space_not_nonSpace (c : ascii) : isWhiteSpace c = true -> nonSpace c = false.
Proof. unfold nonSpace. now intros ->. Qed.

Lemma untrimmed_head (name : string) :
  nonEmpty name = true -> trimStart name = name ->
  exists c n, name = String c n /\ isWhiteSpace c = false.
Proof.
  destruct name as [|c n]; [discriminate|]. intros _ H. exists c, n.
  split; [reflexivity|]. destruct (isWhiteSpace c) eqn:E; [|reflexivity].
  cbn [trimStart] in H. rewrite E in H.
  pose proof (trimStart_length n) as L. rewrite H in L. cbn [String.length] in L. lia.
Qed.

(** X15.  A line of a listing in the Unix format, ten permission
    characters, link count, owner, group, size, three words of date and a
    name, separated by white space, with no carriage return at its end,
    is read by [listDetailed] field by field: the name is everything after
    the date, spaces included, the size is the number written, as long as
    this is below 2^53 and so a number that is held exactly, and the type
    is read off the first permission character. *)
Theorem listDetailed_reads_unix_line
    (perms links owner group size month day time name : string)
    (s1 s2 s3 s4 s5 s6 s7 s8 : string) :
  String.length perms = 10 ->
  allOf permissionChar perms = true ->
  word isDigit links = true ->
  word nonSpace owner = true ->
  word nonSpace group = true ->
  word isDigit size = true ->
  (decimal 0 size < 2 ^ 53)%Z ->
  word nonSpace month = true ->
  word nonSpace day = true ->
  word nonSpace time = true ->
  word dot name = true ->
  trimStart name = name ->
  Forall (fun s => word isWhiteSpace s = true) [s1; s2; s3; s4; s5; s6; s7; s8] ->
  let line := perms ++ s1 ++ links ++ s2 ++ owner ++ s3 ++ group ++ s4
              ++ size ++ s5 ++ month ++ s6 ++ day ++ s7 ++ time ++ s8 ++ name in
  parseListLine line
  = mkEntry name
      (if String.eqb (charAt perms 0) "d" then directory
       else if String.eqb (charAt perms 0) "l" then symlink
       else file)
      (Some perms) (Some owner) (Some group) (Some (Whole (decimal 0 size)))
      (Some (month ++ s6 ++ day ++ s7 ++ time)) line.
Proof.
  intros Lp Hp Hlinks Howner Hgroup Hsize Hbound Hmonth Hday Htime Hname Htrim Hs line.
  repeat match goal with
         | H : Forall _ (_ :: _) |- _ =>
             let a := fresh "W" in inversion H as [|? ? a ?]; clear H; subst
         | H : Forall _ [] |- _ => clear H
         end.
  assert (Hn : nonEmpty name = true)
    by (unfold word in Hname; now apply andb_true_iff in Hname as [? _]).
  destruct (untrimmed_head _ Hn Htrim) as (n0 & n' & En & Hn0).
  assert (M : matchListLine line
              = Some [perms; links; owner; group; size;
                      month ++ s6 ++ day ++ s7 ++ time; name]).
  { unfold matchListLine, line, capture at 1.
    rewrite <- Lp at 1. rewrite times_exact by exact Hp. rewrite prefix_cut.
    apply plus_exact; [assumption | eapply boundary_word; eauto using digit_not_space|].
    apply capture_plus_exact;
      [assumption | eapply boundary_word; eauto using space_not_digit|].
    apply plus_exact; [assumption | eapply boundary_word; eauto using nonSpace_not_space|].
    apply capture_plus_exact;
      [assumption | eapply boundary_word; eauto using space_not_nonSpace|].
    apply plus_exact; [assumption | eapply boundary_word; eauto using nonSpace_not_space|].
    apply capture_plus_exact;
      [assumption | eapply boundary_word; eauto using space_not_nonSpace|].
    apply plus_exact; [assumption | eapply boundary_word; eauto using digit_not_space|].
    apply capture_plus_exact;
      [assumption | eapply boundary_word; eauto using space_not_digit|].
    apply plus_exact; [assumption | eapply boundary_word; eauto using nonSpace_not_space|].
    unfold capture at 1, threeWords.
    apply plus_exact; [assumption | eapply boundary_word; eauto using space_not_nonSpace|].
    apply plus_exact; [assumption | eapply boundary_word; eauto using nonSpace_not_space|].
    apply plus_exact; [assumption | eapply boundary_word; eauto using space_not_nonSpace|].
    apply plus_exact; [assumption | eapply boundary_word; eauto using nonSpace_not_space|].
    apply plus_exact; [assumption | eapply boundary_word; eauto using space_not_nonSpace|].
    replace (month ++ s6 ++ day ++ s7 ++ time ++ s8 ++ name)
      with ((month ++ s6 ++ day ++ s7 ++ time) ++ s8 ++ name)
      by (now rewrite !append_assoc).
    rewrite prefix_cut.
    apply plus_exact; [assumption | rewrite En; exact Hn0|].
    now apply capture_plus_end. }
  unfold parseListLine. rewrite M.
  rewrite (parseInt_number size)
    by (unfold number; unfold word in Hsize;
        apply andb_true_iff in Hsize as [-> Hd]; cbn [andb];
        clear - Hd; induction size as [|c s IH]; [reflexivity|];
        cbn [allOf allDigits] in *; apply andb_true_iff in Hd as [-> Hd];
        now apply IH).
  rewrite toDouble_safe
    by (split; [apply decimal_nonneg; lia | exact Hbound]).
  reflexivity.
Qed.

Lemma listDetailed_reads_unix_line_witness :
  parseListLine
    ("drwxr-xr-x" ++ "   " ++ "2" ++ " " ++ "ftp" ++ " " ++ "staff" ++ "     "
     ++ "4096" ++ " " ++ "Jan" ++ " " ++ "01" ++ " " ++ "12:00" ++ " "
     ++ "old files")
  = mkEntry "old files" directory (Some "drwxr-xr-x") (Some "ftp") (Some "staff")
      (Some (Whole 4096)) (Some "Jan 01 12:00")
      "drwxr-xr-x   2 ftp staff     4096 Jan 01 12:00 old files".
Proof.
  apply (listDetailed_reads_unix_line
           "drwxr-xr-x" "2" "ftp" "staff" "4096" "Jan" "01" "12:00" "old files"
           "   " " " " " "     " " " " " " " " ");
    try reflexivity.
  repeat constructor.
Defined.

(** *** A listing whose lines end with a carriage return *)

Lemma parseListLine_cr (l : string) :
  parseListLine (l ++ String CR EmptyString)
  = mkEntry (lastPart (splitSpaces (trim (l ++ String CR EmptyString))))
            unknown None None None None None (l ++ String CR EmptyString).
Proof. unfold parseListLine. now rewrite matchListLine_cr. Qed.

Section Layer.

Variable world : Type.
Variable listDir : string -> world -> result string * world.

Local Abbreviation listDetailed := (FileCommands.listDetailed world listDir).

(** X16.  On a listing whose lines end with a carriage return before the
    line feed, as the lines of an FTP listing do, the pattern of
    [listDetailed] matches no line, because its name group cannot cross
    the carriage return: every entry returned has the type [unknown], no
    permissions, owner, group, size or date, and as name the last word of
    the line. *)
Theorem listDetailed_of_crlf_listing
    (path listing : string) (w w' : world) (sent : list string) :
  listDir path w = (Ok listing, w') ->
  Forall endsWithCR (detailedLines listing) ->
  exists entries,
    listDetailed path (w, sent) = (Ok entries, (w', sent))
    /\ List.length entries <= List.length (detailedLines listing)
    /\ Forall (fun e =>
                 type e = unknown
                 /\ permissions e = None /\ owner e = None /\ group e = None
                 /\ size e = None /\ date e = None
                 /\ name e = lastPart (splitSpaces (trim (raw e)))
                 /\ In (raw e) (detailedLines listing)) entries.
Proof using Type.
  intros Hl Hcr. exists (detailedEntries listing).
  unfold FileCommands.listDetailed, Commands.bind, Commands.awaitList, Commands.ret.
  cbn [fst snd]. rewrite Hl. split; [reflexivity|].
  unfold detailedEntries. split.
  - etransitivity; [apply filter_length_le|]. now rewrite length_map.
  - apply Forall_forall. intros e He. apply filter_In in He as [He _].
    apply in_map_iff in He as (line & <- & Hline).
    pose proof (proj1 (Forall_forall _ _) Hcr _ Hline) as (l & ->).
    rewrite parseListLine_cr. cbn [type permissions owner group size date name raw].
    now repeat split.
Qed.

End Layer.

Lemma listDetailed_of_crlf_listing_witness :
  exists entries,
    FileCommands.listDetailed unit (fun _ w => (Ok crlfListing, w)) "/pub" (tt, [])
    = (Ok entries, (tt, []))
    /\ List.length entries <= List.length (detailedLines crlfListing)
    /\ Forall (fun e =>
                 type e = unknown
                 /\ permissions e = None /\ owner e = None /\ group e = None
                 /\ size e = None /\ date e = None
                 /\ name e = lastPart (splitSpaces (trim (raw e)))
                 /\ In (raw e) (detailedLines crlfListing)) entries.
Proof.
  apply (listDetailed_of_crlf_listing unit (fun _ w => (Ok crlfListing, w))
           "/pub" crlfListing tt tt [] eq_refl).
  vm_compute. repeat constructor.
  - now exists "drwxr-xr-x 2 ftp ftp 4096 Jan 01 2026 docs".
  - now exists "-rw-r--r-- 1 ftp ftp 12 Jan 01 2026 a.txt".
Defined.

End ListingFacts.
(* ================================================================== *)
(** ** Transfers: what is delivered, and when *)
(* ================================================================== *)

Module TransferFacts.
Import JS Client TransferTerms JSFacts ClientFacts Correlator.

Lemma run_cons (e : event) (es : list event) (c : client) :
  run (e :: es) c = run es (step e c).
Proof. reflexivity. Qed.

Lemma run_single (e : event) (c : client) : run [e] c = step e c.
Proof. reflexivity. Qed.

Lemma run_app (es1 es2 : list event) (c : client) :
  run (es1 ++ es2)%list c = run es2 (run es1 c).
Proof. unfold run. apply fold_left_app. Qed.

(** Reactions whose sources are all pending do nothing. *)
Lemma runCatchers_pending (l : list (nat * nat)) (c : client) :
  (forall x, In x l -> outcome c (fst x) = None) -> runCatchers l c = c.
Proof.
  induction l as [|[src tgt] l IH]; intros H; [reflexivity|].
  cbn [runCatchers]. pose proof (H (src, tgt) (or_introl eq_refl)) as E.
  cbn [fst] in E. rewrite E. apply IH. intros x Hx. apply H. now right.
Qed.

Lemma lookup_update {A : Type} (k : nat) (v v' : A) (l : list (nat * A)) :
  lookup k l = Some v -> lookup k (update k v' l) = Some v'.
Proof.
  unfold lookup. induction l as [|[k0 v0] l IH]; [discriminate|].
  cbn [update find fst]. destruct (Nat.eqb k0 k) eqn:E; intros H.
  - cbn [find fst]. now rewrite Nat.eqb_refl.
  - cbn [find fst]. rewrite E. now apply IH.
Qed.

Lemma update_update {A : Type} (k : nat) (v v' : A) (l : list (nat * A)) :
  update k v' (update k v l) = update k v' l.
Proof.
  induction l as [|[k0 v0] l IH]; [reflexivity|].
  cbn [update]. destruct (Nat.eqb k0 k) eqn:E; cbn [update].
  - now rewrite Nat.eqb_refl.
  - now rewrite E, IH.
Qed.

Lemma update_same {A : Type} (k : nat) (v : A) (l : list (nat * A)) :
  lookup k l = Some v -> update k v l = l.
Proof.
  unfold lookup. induction l as [|[k0 v0] l IH]; [reflexivity|].
  cbn [update find fst]. destruct (Nat.eqb k0 k) eqn:E; intros H.
  - apply Nat.eqb_eq in E. cbn in H. now inversion H; subst.
  - now rewrite IH.
Qed.

Lemma pushed_nil (t : transfer) : pushed [] t = t.
Proof. destruct t. unfold pushed. cbn. now rewrite app_nil_r. Qed.

Lemma pushed_pushed (a b : list string) (t : transfer) :
  pushed b (pushed a t) = pushed (a ++ b) t.
Proof. unfold pushed. cbn. now rewrite app_assoc. Qed.

(** The chunks of a download or a listing are collected in order, and
    nothing else changes while they arrive. *)
Lemma run_received (s : nat) (chunks : list string) :
  forall c t,
    lookup s (transfers c) = Some t ->
    t_kind t <> Upload ->
    (forall x, In x (catchers c) -> outcome c (fst x) = None) ->
    run (received s chunks) c
    = setTransfers (update s (pushed chunks t) (transfers c)) (nextSocket c) c.
Proof.
  induction chunks as [|chunk chunks IH]; intros c t Hl Hk Hc.
  - cbn [received map run fold_left]. rewrite pushed_nil, (update_same _ _ _ Hl).
    now destruct c.
  - cbn [received map]. rewrite run_cons.
    assert (E : step (DataReceived s chunk) c
                = setTransfers (update s (pushed [chunk] t) (transfers c))
                    (nextSocket c) c).
    { unfold step. cbn [task]. unfold onDataChunk, pushed. rewrite Hl.
      unfold microtasks.
      destruct (t_kind t); [contradiction | |];
        (rewrite runCatchers_pending; [reflexivity|]; exact Hc). }
    rewrite E. change (map (DataReceived s) chunks) with (received s chunks).
    rewrite (IH _ (pushed [chunk] t)).
    + fields. rewrite update_update, pushed_pushed. reflexivity.
    + fields. exact (lookup_update _ _ _ _ Hl).
    + exact Hk.
    + exact Hc.
Qed.

(** An upload installs no ['data'] callback. *)
Lemma run_received_upload (s : nat) (chunks : list string) (c : client)
    (t : transfer) :
  lookup s (transfers c) = Some t ->
  t_kind t = Upload ->
  (forall x, In x (catchers c) -> outcome c (fst x) = None) ->
  run (received s chunks) c = c.
Proof.
  intros Hl Hk Hc. induction chunks as [|chunk chunks IH]; [reflexivity|].
  cbn [received map]. rewrite run_cons.
  assert (E : step (DataReceived s chunk) c = c).
  { unfold step. cbn [task]. unfold onDataChunk. rewrite Hl, Hk.
    unfold microtasks. now apply runCatchers_pending. }
  rewrite E. exact IH.
Qed.

(** *** Lines with a completion code *)

Lemma completion_codes (line : string) :
  completion line = true ->
  geN (replyCode line) 100 && ltN (replyCode line) 200 = false
  /\ geN (replyCode line) 200 && ltN (replyCode line) 400 = true.
Proof.
  unfold completion. destruct (replyCode line) as [z|]; [|discriminate].
  cbn [eqN geN ltN]. intros H. apply orb_true_iff in H as [H|H];
    apply Z.eqb_eq in H; subst z; now vm_compute.
Qed.

Lemma completion_resolving (a : bool) (line : string) :
  terminal line = true -> completion line = true -> resolving a line = true.
Proof.
  intros Ht Hc. unfold resolving, preliminary.
  now rewrite Ht, (proj1 (completion_codes _ Hc)).
Qed.

Lemma completion_verdict (line : string) :
  completion line = true ->
  verdict line
  = Resolve (VResponse (mkResponse (replyCode line) (replyMessage line) line)).
Proof.
  intros Hc. unfold verdict. now rewrite (proj2 (completion_codes _ Hc)).
Qed.

(** [responseHandler] touches neither the transfers nor the promise of
    another. *)
Lemma callResponseHandler_frame (q tm : nat) (a : bool) (line : string)
    (c : client) (p : nat) :
  q <> p ->
  (forall e, In e (settled c) -> fst e <> p) ->
  transfers (callResponseHandler q tm a line c) = transfers c
  /\ (forall e, In e (settled (callResponseHandler q tm a line c)) -> fst e <> p).
Proof.
  intros Hq Hs. destruct (resolving a line) eqn:E.
  - rewrite callResponseHandler_settling by exact E. fields. split; [reflexivity|].
    intros e He. apply in_app_or in He as [He|[<-|[]]]; [now apply Hs | exact Hq].
  - rewrite callResponseHandler_waiting by exact E. fields. now split.
Qed.

(** The final handler resolves its transfer on a completion code,
    whatever the handler of the transfer's command makes of the line. *)
Lemma completion_resolves_transfer
    (c : client) (s q tm : nat) (a : bool) (t : transfer) (line : string) :
  listeners c = [responseHandler q tm a; finalHandler s] ->
  lookup s (transfers c) = Some t ->
  q <> t_promise t ->
  (forall e, In e (settled c) -> fst e <> t_promise t) ->
  completion line = true ->
  outcome (step (Responses [line]) c) (t_promise t)
  = Some (Resolve (transferResult (t_kind t) (concatChunks (t_chunks t)))).
Proof.
  intros Hl Ht Hq Hs Hc. unfold step, microtasks.
  eapply outcome_extends; [apply extends_runCatchers|].
  cbn [task fold_left]. unfold emit. rewrite Hl. cbn [fold_left callListener].
  destruct (callResponseHandler_frame q tm a line c _ Hq Hs) as [Et Es].
  unfold callFinalHandler. rewrite Et, Ht. cbv zeta.
  unfold completion, replyCode in Hc. rewrite Hc.
  unfold outcome. fields. now apply outcome_settle_fresh.
Qed.

(** The state of a transfer while its chunks arrive, computed, and the
    state after the close of the data socket. *)
Ltac started :=
  match goal with
  | |- context [startTransfer ?r ?k ?p ?d session] =>
      let v := eval vm_compute in (startTransfer r k p d session) in
      change (startTransfer r k p d session) with v
  end;
  cbv beta iota zeta.

Ltac through_the_data chunks :=
  started;
  rewrite run_cons, run_app;
  match goal with
  | |- context [step (DataConnected 0) ?c] =>
      let ca := eval vm_compute in (step (DataConnected 0) c) in
      change (step (DataConnected 0) c) with ca
  end;
  first
    [ erewrite run_received_upload;
      [ | reflexivity | reflexivity | intros x [<-|[]]; reflexivity ]
    | erewrite run_received_upload;
      [ | reflexivity | reflexivity | intros x [] ]
    | erewrite run_received;
      [ | reflexivity | discriminate | intros x [<-|[]]; reflexivity ]
    | erewrite run_received;
      [ | reflexivity | discriminate | intros x [] ] ];
  match goal with
  | |- context [run [DataClosed 0] ?c] =>
      let cb := eval vm_compute in (run [DataClosed 0] c) in
      change (run [DataClosed 0] c) with cb
  end.

(** X17.  A transfer whose data socket connects, delivers its chunks and
    closes is pending until its completion is noticed, and then resolves:
    a download with the received chunks joined in order, a listing with
    their text, an upload with nothing, its payload having been written
    to the data socket once.  The completion is a line with code 226 or
    250 in the two earlier texts of the transfer code, whether or not it
    is the last line of its reply, and the timer armed at the close in
    release 2.2. *)
Theorem transfer_delivers_received_chunks
    (r : release) (k : kind) (path data : string) (chunks : list string)
    (done : string) :
  completion done = true ->
  let '(p, s, c) := startTransfer r k path data session in
  let c1 := run (DataConnected s :: received s chunks ++ [DataClosed s]) c in
  let noticed :=
    match r with R2_2 => TimerFires 0 | _ => Responses [done] end in
  outcome c1 p = None
  /\ option_map t_dataWritten (lookup s (transfers c1))
     = Some (match k with Upload => [data] | _ => [] end)
  /\ outcome (run [noticed] c1) p
     = Some (Resolve (transferResult k (concatChunks (collected k chunks)))).
Proof.
  intros Hdone.
  destruct r, k; through_the_data chunks;
    (split; [reflexivity|]); (split; [reflexivity|]);
    match goal with
    | |- outcome (run [TimerFires 0] _) _ = _ => vm_compute; reflexivity
    | |- outcome (run [Responses [done]] ?cb) _ = _ =>
        rewrite (run_single (Responses [done]) cb);
        let t := eval vm_compute in (lookup 0 (transfers cb)) in
        match t with
        | Some ?t' =>
            let X := fresh in
            pose proof (completion_resolves_transfer cb 0 1 0 true t' done) as X;
            specialize (X eq_refl); specialize (X eq_refl);
            specialize (X ltac:(discriminate));
            specialize (X ltac:(intros e []));
            exact (X Hdone)
        end
    end.
Qed.

Lemma transfer_delivers_received_chunks_witness :
  outcome
    (run [DataConnected 0; DataReceived 0 "ab"; DataReceived 0 "cd";
          DataClosed 0; Responses ["226 Transfer complete"]]
       (snd (startTransfer R2_1 Download "/f.bin" "" session))) 0
  = Some (Resolve (VBuffer "abcd")).
Proof.
  pose proof (transfer_delivers_received_chunks R2_1 Download "/f.bin" ""
                ["ab"; "cd"] "226 Transfer complete" eq_refl) as H.
  vm_compute in H. vm_compute. exact (proj2 (proj2 H)).
Defined.

(** *** The completion reply read before the data socket has closed *)

Lemma completed_command (c : client) (q tm : nat) (a : bool) (line : string) :
  listeners c = [responseHandler q tm a] ->
  terminal line = true ->
  completion line = true ->
  step (Responses [line]) c
  = microtasks
      (settle q
         (Resolve (VResponse (mkResponse (replyCode line) (replyMessage line) line)))
         (removeListener (responseHandler q tm a)
            (clearTimeout tm (clearTimeout tm c)))).
Proof.
  intros Hl Ht Hc. unfold step. cbn [task fold_left].
  rewrite (emit_single _ _ _ Hl). cbn [callListener].
  rewrite callResponseHandler_settling by (now apply completion_resolving).
  now rewrite completion_verdict.
Qed.

(** With no listener, no timer and no reaction left, the control channel
    changes nothing. *)
Lemma run_control_idle (es : list event) (c : client) :
  listeners c = [] -> timers c = [] -> catchers c = [] ->
  Forall controlEvent es ->
  run es c = c.
Proof.
  intros Hl Ht Hk H. induction H as [|e es He _ IH]; [reflexivity|].
  rewrite run_cons.
  assert (E : step e c = c).
  { unfold step. destruct e as [lines|id| | | |]; try contradiction; cbn [task].
    - now rewrite (deliver_idle _ _ Hl), (microtasks_quiet _ Hk).
    - unfold lookup. rewrite Ht. cbn [find option_map].
      now apply microtasks_quiet. }
  now rewrite E.
Qed.

Ltac through_the_early_reply done Hterm Hdone :=
  started;
  rewrite run_cons;
  match goal with
  | |- context [step (DataConnected 0) ?c] =>
      let ca := eval vm_compute in (step (DataConnected 0) c) in
      change (step (DataConnected 0) c) with ca
  end;
  rewrite run_cons;
  match goal with
  | |- context [step (Responses [done]) ?ca] =>
      rewrite (completed_command ca 1 0 true done eq_refl Hterm Hdone)
  end;
  generalize (VResponse (mkResponse (replyCode done) (replyMessage done) done));
  intros reply;
  match goal with
  | |- context [microtasks ?x] =>
      let cb := eval vm_compute in (microtasks x) in
      change (microtasks x) with cb
  end;
  rewrite run_app;
  first
    [ erewrite run_received_upload;
      [ | reflexivity | reflexivity | intros x [] ]
    | erewrite run_received;
      [ | reflexivity | discriminate | intros x [] ] ];
  match goal with
  | |- context [run [DataClosed 0] ?c] =>
      let cc := eval vm_compute in (run [DataClosed 0] c) in
      change (run [DataClosed 0] c) with cc
  end.

(** X18.  In the two earlier texts of the transfer code (releases 1.0 and
    2.1) the final handler is registered only when the data socket
    closes.  When the completion reply, a last line with code 226 or 250,
    is read before that, it settles the transfer's command and is gone:
    after the close the transfer is pending, with its final handler
    waiting and one timer armed.  When that timer fires and no line has
    been read in between, it resolves an upload, a listing and a download
    that has received something, and leaves a download that has received
    nothing unsettled. *)
Theorem early_completion_reply_leaves_transfer_to_timer
    (r : release) (k : kind) (path data : string) (chunks : list string)
    (done : string) :
  r = R1_0 \/ r = R2_1 ->
  terminal done = true ->
  completion done = true ->
  let '(p, s, c) := startTransfer r k path data session in
  let c1 := run (DataConnected s :: Responses [done]
                 :: received s chunks ++ [DataClosed s])%list c in
  outcome c1 p = None
  /\ listeners c1 = [finalHandler s]
  /\ map fst (timers c1) = [1]
  /\ outcome (run [TimerFires 1] c1) p
     = match k, chunks with
       | Download, [] => None
       | _, _ =>
           Some (Resolve (transferResult k (concatChunks (collected k chunks))))
       end.
Proof.
  intros Hr Hterm Hdone.
  destruct Hr as [-> | ->]; destruct k; destruct chunks as [|chunk chunks];
    through_the_early_reply done Hterm Hdone;
    repeat split; vm_compute; reflexivity.
Qed.

Lemma early_completion_reply_leaves_transfer_to_timer_witness :
  outcome
    (run [DataConnected 0; Responses ["226 Transfer complete"];
          DataReceived 0 "ab"; DataClosed 0]
       (snd (startTransfer R1_0 List "/pub" "" session))) 0 = None
  /\ outcome
       (run [DataConnected 0; Responses ["226 Transfer complete"];
             DataReceived 0 "ab"; DataClosed 0; TimerFires 1]
          (snd (startTransfer R1_0 List "/pub" "" session))) 0
     = Some (Resolve (VText "ab")).
Proof.
  pose proof (early_completion_reply_leaves_transfer_to_timer R1_0 List "/pub" ""
                ["ab"] "226 Transfer complete" (or_introl eq_refl)
                eq_refl eq_refl) as H.
  vm_compute in H. vm_compute.
  exact (conj (proj1 H) (proj2 (proj2 (proj2 H)))).
Defined.

(** X19.  In releases 1.0 and 2.1, a download that receives nothing and
    whose completion reply is read before the data socket closes never
    settles: once the timer armed at the close has fired, no listener and
    no timer is left, and no line and no timer of the control channel can
    resolve or reject it. *)
Theorem empty_download_after_early_reply_never_settles
    (r : release) (path : string) (done : string) (later : list event) :
  r = R1_0 \/ r = R2_1 ->
  terminal done = true ->
  completion done = true ->
  Forall controlEvent later ->
  let '(p, s, c) := startTransfer r Download path "" session in
  outcome
    (run (DataConnected s :: Responses [done] :: DataClosed s
          :: TimerFires 1 :: later) c) p
  = None.
Proof.
  intros Hr Hterm Hdone Hlater.
  destruct Hr as [-> | ->];
    (started;
     change (DataConnected 0 :: Responses [done] :: DataClosed 0
             :: TimerFires 1 :: later)
       with (DataConnected 0 :: Responses [done]
             :: (received 0 [] ++ [DataClosed 0]) ++ TimerFires 1 :: later)%list;
     rewrite !app_comm_cons, run_app;
     cbn [app];
     match goal with
     | |- outcome (run _ (run ?es ?c)) _ = _ =>
         let X := fresh in
         assert (X : exists reply c1,
                     run es c = c1 /\ outcome (step (TimerFires 1) c1) 0 = None
                     /\ listeners (step (TimerFires 1) c1) = []
                     /\ timers (step (TimerFires 1) c1) = []
                     /\ catchers (step (TimerFires 1) c1) = []
                     /\ reply = VResponse (mkResponse (replyCode done)
                                             (replyMessage done) done));
         [ rewrite run_cons;
           match goal with
           | |- context [step (DataConnected 0) ?c0] =>
               let ca := eval vm_compute in (step (DataConnected 0) c0) in
               change (step (DataConnected 0) c0) with ca
           end;
           rewrite run_cons;
           match goal with
           | |- context [step (Responses [done]) ?ca] =>
               rewrite (completed_command ca 1 0 true done eq_refl Hterm Hdone)
           end;
           generalize (VResponse (mkResponse (replyCode done)
                                    (replyMessage done) done));
           intros reply;
           match goal with
           | |- context [microtasks ?x] =>
               let cb := eval vm_compute in (microtasks x) in
               change (microtasks x) with cb
           end;
           cbn [received map app];
           match goal with
           | |- context [run [DataClosed 0] ?c0] =>
               let cc := eval vm_compute in (run [DataClosed 0] c0) in
               change (run [DataClosed 0] c0) with cc
           end;
           eexists _, _; split; [reflexivity|];
           repeat split; vm_compute; reflexivity
         | destruct X as (reply & c1 & -> & Ho & Hl & Ht & Hk & _);
           rewrite run_cons, run_control_idle by assumption;
           exact Ho ]
     end).
Qed.

Lemma empty_download_after_early_reply_never_settles_witness :
  outcome
    (run [DataConnected 0; Responses ["226 Transfer complete"]; DataClosed 0;
          TimerFires 1; Responses ["226 Transfer complete"]; TimerFires 0]
       (snd (startTransfer R2_1 Download "/empty.txt" "" session))) 0
  = None.
Proof.
  exact (empty_download_after_early_reply_never_settles R2_1 "/empty.txt"
           "226 Transfer complete"
           [Responses ["226 Transfer complete"]; TimerFires 0]
           (or_intror eq_refl) eq_refl eq_refl
           (Forall_cons (Responses ["226 Transfer complete"]) I
              (Forall_cons (TimerFires 0) I (Forall_nil _)))).
Defined.

End TransferFacts.
(* ================================================================== *)
(** ** [_sendCommand]: a closed connection, and a password that times out *)
(* ================================================================== *)

Module CorrelatorEdges.
Import JS Utils Client JSFacts ClientFacts Correlator.

(** X20.  On a client that is not connected [_sendCommand] rejects at once
    with [Not connected]: nothing is written to the socket, no listener
    and no timer is registered, and neither the command count nor the
    last command changes. *)
Theorem sendCommand_needs_connection
    (c : client) (command : string) (allowPreliminary : bool) :
  connected c = false ->
  (forall e, In e (settled c) -> fst e < nextPromise c) ->
  let '(p, c') := _sendCommand command allowPreliminary c in
  outcome c' p = Some (Reject "Not connected")
  /\ written c' = written c
  /\ listeners c' = listeners c
  /\ timers c' = timers c
  /\ commandCount c' = commandCount c
  /\ lastCommand c' = lastCommand c.
Proof.
  intros Hc Hs. unfold _sendCommand. cbn [newPromise]. fields.
  rewrite Hc. cbn [negb]. fields. repeat split.
  unfold outcome. fields. apply outcome_settle_fresh.
  intros e He. apply Hs in He. lia.
Qed.

Lemma sendCommand_needs_connection_witness :
  outcome
    (snd (_sendCommand "NOOP" false
            (mkClient EmptyString false false 0 None [] [] 0 0 [] [] [] [] 0))) 0
  = Some (Reject "Not connected").
Proof.
  exact (proj1 (sendCommand_needs_connection
                  (mkClient EmptyString false false 0 None [] [] 0 0 [] [] [] [] 0)
                  "NOOP" false eq_refl (fun e (H : In e []) => match H with end))).
Defined.

(** X21.  A [PASS] command is written to the socket as it is, but the
    error it is rejected with when its timer fires does not hold the
    password: whatever the password, the message is
    [Command timeout: PASS ********]. *)
Theorem password_is_masked_in_timeout_error (c : client) (password : string) :
  quiet c ->
  let '(p, c1) := _sendCommand ("PASS " ++ password) false c in
  written c1 = (written c ++ [("PASS " ++ password ++ CRLF)%string])%list
  /\ outcome (run [TimerFires (nextTimer c)] c1) p
     = Some (Reject "Command timeout: PASS ********").
Proof.
  intros Hq.
  pose proof (command_times_out_and_channel_is_free c ("PASS " ++ password) false Hq) as H.
  pose proof Hq as (Hc & _).
  rewrite sendCommand_connected in * by exact Hc. cbv zeta in H.
  split.
  - fields. now rewrite append_assoc.
  - exact (proj1 H).
Qed.

Lemma password_is_masked_in_timeout_error_witness :
  outcome
    (run [TimerFires 0] (snd (_sendCommand ("PASS " ++ "hunter2") false session))) 0
  = Some (Reject "Command timeout: PASS ********").
Proof.
  pose proof (password_is_masked_in_timeout_error session "hunter2" quiet_session) as H.
  rewrite (sendCommand_connected _ _ session eq_refl) in H |- *.
  exact (proj2 H).
Defined.

End CorrelatorEdges.
(* ================================================================== *)
(** ** [ensureDir]: probes towards the root, creations back from it *)
(* ================================================================== *)

Module EnsureDirFacts.
Import JS Utils Client Passive Commands EnsureDirTerms.
Import JSFacts UtilsFacts CommandsFacts.

(** A non-empty cut at the last slash of a clean path is an ancestor of
    the path, and clean. *)
Lemma cut_is_ancestor (s : string) :
  includes s "\" = false ->
  includes s "//" = false ->
  nonEmpty (substring s 0 (lastIndexOf s "/")) = true ->
  ancestorOf (substring s 0 (lastIndexOf s "/")) s
  /\ includes (substring s 0 (lastIndexOf s "/")) "\" = false
  /\ includes (substring s 0 (lastIndexOf s "/")) "//" = false.
Proof.
  intros Hb Hs Hn.
  destruct (lastIndexOf_cases "/" s) as [[_ E] | (a & b & E & _ & L)].
  - rewrite E in Hn. now destruct s.
  - rewrite L in *. rewrite E in *. rewrite substring_prefix in *.
    repeat split.
    + now exists b.
    + exact (includes_prefix_false _ _ _ Hb).
    + exact (includes_prefix_false _ _ _ Hs).
Qed.

(** The parent of a path is the root, or a clean ancestor of the
    normalised path. *)
Lemma parent_is_ancestor (p : string) :
  getParentDir p = "/"
  \/ (ancestorOf (getParentDir p) (normalizePath p)
      /\ includes (getParentDir p) "\" = false
      /\ includes (getParentDir p) "//" = false).
Proof.
  unfold getParentDir.
  pose proof (normalizePath_no_backslash p) as Hb.
  pose proof (normalizePath_no_double_slash p) as Hs.
  destruct (lastIndexOf_cases "/" (normalizePath p))
    as [[_ ->] | (a & b & E & _ & ->)]; [now left|].
  destruct (Z.leb_spec (Z.of_nat (String.length a)) 0) as [_|L]; [now left|].
  right. rewrite E in *. rewrite substring_prefix. repeat split.
  - now exists b.
  - exact (includes_prefix_false _ _ _ Hb).
  - exact (includes_prefix_false _ _ _ Hs).
Qed.

Lemma ancestorOf_trans (a b c : string) :
  ancestorOf a b -> ancestorOf b c -> ancestorOf a c.
Proof.
  intros [x ->] [y ->]. exists (x ++ String "/" y).
  now rewrite append_assoc.
Qed.

Lemma startOf_nil (l : list string) : startOf [] l.
Proof. now exists l. Qed.

Lemma startOf_refl (l : list string) : startOf l l.
Proof. exists []. now rewrite app_nil_r. Qed.

Lemma startOf_app (made l more : list string) :
  startOf made l -> startOf made (l ++ more)%list.
Proof. intros [rest ->]. exists (rest ++ more)%list. now rewrite app_assoc. Qed.

Lemma tl_app (l more : list string) :
  l <> [] -> tl (l ++ more)%list = (tl l ++ more)%list.
Proof. destruct l; [contradiction | reflexivity]. Qed.

(** *** The test for a file name in the second text of [ensureDir] *)

Lemma hasExtension_here (ext : string) :
  ext <> EmptyString -> extensionChars ext = true ->
  hasExtension (String "." ext) = true.
Proof.
  intros Hne Hx. cbn [hasExtension]. rewrite Ascii.eqb_refl, Hx.
  destruct ext; [contradiction | reflexivity].
Qed.

Lemma hasExtension_app (stem s : string) :
  hasExtension s = true -> hasExtension (stem ++ s) = true.
Proof.
  intros H. induction stem as [|c stem IH]; [exact H|].
  cbn [append hasExtension]. rewrite IH. apply orb_true_r.
Qed.

Lemma hasExtension_sound (s : string) :
  hasExtension s = true ->
  exists stem ext,
    s = stem ++ String "." ext /\ ext <> EmptyString /\ extensionChars ext = true.
Proof.
  induction s as [|c s IH]; [discriminate|].
  cbn [hasExtension]. intros H. apply orb_true_iff in H as [H|H].
  - apply andb_true_iff in H as [H Hx]. apply andb_true_iff in H as [Hc Hn].
    apply Ascii.eqb_eq in Hc. subst c. exists EmptyString, s.
    repeat split; [|exact Hx]. now destruct s.
  - destruct (IH H) as (stem & ext & -> & Hne & Hx).
    exists (String c stem), ext. now repeat split.
Qed.

(** X22.  The second text of [ensureDir] takes a path for the path of a
    file, and ensures its parent directory only, exactly when the path
    ends with a dot followed by one or more characters none of which is a
    dot, a slash or a backslash; every other path is ensured as a
    directory itself.  A directory whose name has such an ending is
    therefore never created, and a file whose name has none is taken for
    a directory. *)
Theorem ensureDir_takes_dotted_ending_for_file (path : string) (isFilePath : bool) :
  ((exists stem ext,
      path = stem ++ String "." ext
      /\ ext <> EmptyString /\ extensionChars ext = true)
   -> ensureTarget true path isFilePath = getParentDir path)
  /\ ((forall stem ext,
         path = stem ++ String "." ext ->
         ext = EmptyString \/ extensionChars ext = false)
      -> ensureTarget true path isFilePath = path).
Proof.
  unfold ensureTarget. split.
  - intros (stem & ext & -> & Hne & Hx).
    now rewrite (hasExtension_app stem _ (hasExtension_here ext Hne Hx)).
  - intros H. destruct (hasExtension path) eqn:E; [|reflexivity].
    destruct (hasExtension_sound _ E) as (stem & ext & Hp & Hne & Hx).
    destruct (H stem ext Hp) as [K|K]; [contradiction|].
    rewrite K in Hx. discriminate Hx.
Qed.

Lemma ensureDir_takes_dotted_ending_for_file_witness :
  ensureTarget true ("/srv/releases/v1" ++ String "." "2") false = "/srv/releases"
  /\ ensureTarget true "/srv/README" true = "/srv/README".
Proof.
  destruct (ensureDir_takes_dotted_ending_for_file
              ("/srv/releases/v1" ++ String "." "2") false) as [H _].
  destruct (ensureDir_takes_dotted_ending_for_file "/srv/README" true) as [_ K].
  split.
  - apply H. exists "/srv/releases/v1", "2". repeat split; discriminate.
  - apply K. intros stem ext E.
    assert (X : includes "/srv/README" "." = true).
    { rewrite E. apply includes_app_r. cbn [includes startsWith].
      now rewrite Ascii.eqb_refl. }
    discriminate X.
Defined.

Section Layer.

Variable world : Type.
Variable sendCommand : string -> world -> result response * world.

Local Abbreviation ensureDir_fuel := (Commands.ensureDir_fuel world sendCommand).
Local Abbreviation ensureDir := (Commands.ensureDir world sendCommand).

Lemma cd_run (p : string) (w : world) (sent : list string) :
  Commands.cd world sendCommand p (w, sent)
  = (match fst (sendCommand ("CWD " ++ p) w) with
     | Ok _ => Ok tt
     | Err e => Err e
     end,
     (snd (sendCommand ("CWD " ++ p) w), (sent ++ [CWD p])%list)).
Proof using Type.
  unfold Commands.cd, bind, send, ret, CWD. cbn [fst snd].
  now destruct (sendCommand ("CWD " ++ p) w) as [[v|e] w1].
Qed.

Lemma mkdir_run (p : string) (w : world) (sent : list string) :
  Commands.mkdir world sendCommand p (w, sent)
  = (match fst (sendCommand ("MKD " ++ p) w) with
     | Ok _ => Ok tt
     | Err e => Err e
     end,
     (snd (sendCommand ("MKD " ++ p) w), (sent ++ [MKD p])%list)).
Proof using Type.
  unfold Commands.mkdir, bind, send, ret, MKD. cbn [fst snd].
  now destruct (sendCommand ("MKD " ++ p) w) as [[v|e] w1].
Qed.

Ltac nothing_sent :=
  exists [], []; cbn [fst snd map app rev tl List.length]; rewrite app_nil_r;
  repeat split;
  [ left; apply startOf_nil | intros _; now left | lia
  | discriminate | discriminate ].

Lemma startOf_snoc (made l : list string) (x : string) :
  startOf made l \/ startOf made (tl l) ->
  startOf made (l ++ [x]) \/ startOf made (tl (l ++ [x])).
Proof using Type.
  intros [C|C]; [left; now apply startOf_app|].
  destruct l as [|y l].
  - cbn [tl] in C. destruct C as [rest C]. symmetry in C.
    apply app_eq_nil in C as [-> _]. left. apply startOf_nil.
  - right. cbn [tl app] in *. now apply startOf_app.
Qed.

(** The creation of [t0], once its parents are there. *)
Lemma creation_climbed (target : string) (recursive : bool)
    (w2 : world) (sent sent2 probes made : list string) :
  let t0 := normalizePath target in
  t0 <> "/" ->
  sent2 = ((sent ++ [CWD t0]) ++ map CWD probes ++ map MKD made)%list ->
  descending (t0 :: probes) ->
  (made = rev probes \/ made = tl (rev probes)) ->
  (recursive = false -> probes = []) ->
  climbed sent target recursive
    (bind world (attempt world (Commands.mkdir world sendCommand t0))
       (fun made0 =>
          match made0 with
          | Ok _ => ret world (Some tt)
          | Err msg =>
              if negb (includes msg "550") && negb (includes msg "exists")
              then throw world msg
              else ret world (Some tt)
          end) (w2, sent2)).
Proof using Type.
  intros t0 Hroot -> Hd Hfull Hrec.
  exists (t0 :: probes), (made ++ [t0])%list.
  assert (Full : (made ++ [t0])%list = rev (t0 :: probes)
                 \/ (made ++ [t0])%list = tl (rev (t0 :: probes))).
  { cbn [rev]. destruct Hfull as [-> | ->]; [now left|].
    destruct probes as [|p1 probes]; [now left|]. right.
    rewrite tl_app; [reflexivity|]. cbn [rev].
    intros E. now apply app_eq_nil in E as [_ E]. }
  unfold bind at 1. unfold attempt. rewrite mkdir_run.
  assert (Sent : forall r : result (option unit),
            snd (snd (r, (snd (sendCommand ("MKD " ++ t0) w2),
                          (((sent ++ [CWD t0]) ++ map CWD probes ++ map MKD made)
                           ++ [MKD t0])%list)))
            = (sent ++ map CWD (t0 :: probes) ++ map MKD (made ++ [t0]))%list).
  { intros r. cbn [snd map]. rewrite map_app. cbn [map].
    rewrite <- !app_assoc. reflexivity. }
  repeat split.
  - destruct (sendCommand ("MKD " ++ t0) w2) as [[v2|m2] w3]; cbn [fst snd];
      [apply (Sent (Ok (Some tt)))|].
    destruct (negb (includes m2 "550") && negb (includes m2 "exists"));
      [apply (Sent (Err m2)) | apply (Sent (Ok (Some tt)))].
  - exact Hd.
  - destruct Full as [-> | ->]; [left | right]; apply startOf_refl.
  - intros _. exact Full.
  - intros Hr. rewrite (Hrec Hr). cbn. lia.
  - now inversion H.
  - inversion H. now subst.
Qed.

(** What [ensureDir] has sent, for any fuel. *)
Lemma ensureDir_fuel_climbed (n : nat) :
  forall autoDetect path recursive isFilePath w sent,
    climbed sent (ensureTarget autoDetect path isFilePath) recursive
      (ensureDir_fuel n autoDetect path recursive isFilePath (w, sent)).
Proof using Type.
  induction n as [|n IH]; intros autoDetect path recursive isFilePath w sent.
  { unfold Commands.ensureDir_fuel, ret. nothing_sent. }
  cbn [Commands.ensureDir_fuel].
  change (if (if autoDetect then hasExtension path else isFilePath)
          then getParentDir path else path)
    with (ensureTarget autoDetect path isFilePath).
  set (target := ensureTarget autoDetect path isFilePath).
  destruct (negb (nonEmpty target) || String.eqb target "." || String.eqb target "/").
  { unfold ret. nothing_sent. }
  destruct (String.eqb (normalizePath target) "/" || String.eqb (normalizePath target) ".")
    eqn:Eroot.
  { unfold ret. nothing_sent. }
  assert (Hroot : normalizePath target <> "/").
  { intros E. rewrite E in Eroot. discriminate Eroot. }
  pose proof (normalizePath_no_backslash target) as Hb.
  pose proof (normalizePath_no_double_slash target) as Hs.
  pose proof (creation_climbed target recursive) as Create. cbv zeta in Create.
  set (t0 := normalizePath target) in *.
  unfold bind at 1. unfold attempt. rewrite cd_run.
  destruct (sendCommand ("CWD " ++ t0) w) as [[v|e] w1]; cbn [fst snd].
  { (* the directory exists *)
    exists [t0], []. unfold ret. cbn [fst snd map app rev tl List.length].
    repeat split.
    - right. apply startOf_nil.
    - intros _. now right.
    - lia.
    - now inversion H.
    - inversion H. now subst. }
  destruct recursive.
  2: { (* no recursion *)
    unfold bind at 1, ret.
    apply (Create w1 sent _ [] []); try easy.
    - cbn. now rewrite app_nil_r.
    - now left. }
  set (cut := substring t0 0 (lastIndexOf t0 "/")).
  destruct (nonEmpty cut) eqn:Hcut.
  2: { (* nothing is left of the path before its last slash *)
    cbn [String.eqb Ascii.eqb Bool.eqb negb andb].
    unfold bind at 1, ret.
    apply (Create w1 sent _ [] []); try easy.
    - cbn. now rewrite app_nil_r.
    - now left. }
  destruct (negb (String.eqb cut "/") && negb (String.eqb cut ".")).
  2: { (* the parent is the root or the current directory *)
    unfold bind at 1, ret.
    apply (Create w1 sent _ [] []); try easy.
    - cbn. now rewrite app_nil_r.
    - now left. }
  (* the parent is ensured first *)
  destruct (cut_is_ancestor t0 Hb Hs Hcut) as (Hanc & Hcb & Hcs).
  fold cut in Hanc, Hcb, Hcs.
  destruct (IH autoDetect cut true false w1 (sent ++ [CWD t0])%list)
    as (probes & made & A & B & C & D & _ & F).
  assert (Hd : descending (t0 :: probes)).
  { destruct probes as [|p1 probes]; [exact I|]. split; [|exact B].
    destruct (F p1 probes eq_refl) as [-> Hp1]. unfold ensureTarget in *.
    destruct (if autoDetect then hasExtension cut else false).
    - destruct (parent_is_ancestor cut) as [E | (G1 & G2 & G3)].
      + rewrite E in Hp1. now contradiction Hp1.
      + rewrite (normalizePath_fixed _ G2 G3).
        rewrite (normalizePath_fixed _ Hcb Hcs) in G1.
        exact (ancestorOf_trans _ _ _ G1 Hanc).
    - now rewrite (normalizePath_fixed _ Hcb Hcs). }
  unfold bind at 1.
  destruct (ensureDir_fuel n autoDetect cut true false (w1, (sent ++ [CWD t0])%list))
    as [[[u|]|e'] [w2 sent2]] eqn:En; cbn [fst snd] in A, D |- *.
  - destruct u.
    exact (Create w2 sent sent2 probes made Hroot A Hd (D eq_refl)
             ltac:(discriminate)).
  - exists (t0 :: probes), made. unfold ret. cbn [fst snd]. repeat split.
    + rewrite A. cbn [map]. rewrite <- !app_assoc. reflexivity.
    + exact Hd.
    + cbn [rev]. now apply startOf_snoc.
    + discriminate.
    + discriminate.
    + now inversion H.
    + inversion H. now subst.
  - exists (t0 :: probes), made. cbn [fst snd]. repeat split.
    + rewrite A. cbn [map]. rewrite <- !app_assoc. reflexivity.
    + exact Hd.
    + cbn [rev]. now apply startOf_snoc.
    + discriminate.
    + discriminate.
    + now inversion H.
    + inversion H. now subst.
Qed.

(** X23.  Whatever the path and whatever the server answers, [ensureDir]
    comes to an end and sends nothing but probes ([CWD]) followed by
    creations ([MKD]).  The probes start with the normalised target and
    each further probe is the one before it cut at one of its slashes.
    The creations retrace the probes backwards, from the last directory
    probed or, when entering it succeeded, from the one before it: all of
    them when [ensureDir] succeeds, the first of them when it fails.
    Without [recursive] one directory at most is probed. *)
Theorem ensureDir_probes_climb_and_creations_retrace
    (autoDetect : bool) (path : string) (recursive isFilePath : bool)
    (w : world) (sent : list string) :
  let out := ensureDir autoDetect path recursive isFilePath (w, sent) in
  fst out <> Ok None
  /\ exists probes made,
       snd (snd out) = (sent ++ map CWD probes ++ map MKD made)%list
       /\ descending probes
       /\ (forall p0 rest, probes = p0 :: rest ->
             p0 = normalizePath (ensureTarget autoDetect path isFilePath))
       /\ (startOf made (rev probes) \/ startOf made (tl (rev probes)))
       /\ (fst out = Ok (Some tt) ->
           made = rev probes \/ made = tl (rev probes))
       /\ (recursive = false -> List.length probes <= 1).
Proof using Type.
  cbv zeta. split; [apply ensureDir_total|].
  destruct (ensureDir_fuel_climbed (S (String.length path)) autoDetect path
              recursive isFilePath w sent)
    as (probes & made & A & B & C & D & E & F).
  exists probes, made.
  split; [exact A|]. split; [exact B|].
  split; [intros p0 rest H; exact (proj1 (F _ _ H))|].
  split; [exact C|]. split; [exact D | exact E].
Qed.

End Layer.

End EnsureDirFacts.
(* ================================================================== *)
(** ** [connect] and [close] of the single-file client *)
(* ================================================================== *)

Module LoginFacts.
Import JS Client Login JSFacts ClientFacts.

(** What a handler looks at in a line. *)
Lemma accepted_inv (line : string) :
  accepted line = true ->
  nonEmpty line = true
  /\ String.eqb (charAt line 3) " " = true
  /\ geN (parseInt (substring line 0 3)) 100 = true
  /\ ltN (parseInt (substring line 0 3)) 200 = false
  /\ geN (parseInt (substring line 0 3)) 200 = true
  /\ ltN (parseInt (substring line 0 3)) 400 = true
  /\ eqN (parseInt (substring line 0 3)) 220 = false.
Proof.
  unfold accepted, terminal, isGreeting, replyCode. intros H.
  apply andb_true_iff in H as [H Hg]. apply andb_true_iff in H as [H Hlt].
  apply andb_true_iff in H as [Ht Hge]. apply negb_true_iff in Hg.
  assert (Hn : nonEmpty line = true) by (destruct line; [discriminate Ht | reflexivity]).
  destruct (parseInt (substring line 0 3)) as [z|]; [|discriminate].
  cbn [geN ltN eqN] in *. apply Z.leb_le in Hge. apply Z.ltb_lt in Hlt.
  repeat split; try assumption.
  - apply Z.leb_le. lia.
  - apply Z.ltb_ge. lia.
  - apply Z.leb_le. lia.
  - apply Z.ltb_lt. lia.
Qed.

Lemma refused_inv (line : string) :
  refused line = true ->
  nonEmpty line = true
  /\ String.eqb (charAt line 3) " " = true
  /\ eqN (parseInt (substring line 0 3)) 220 = false
  /\ (geN (parseInt (substring line 0 3)) 200 = false
      \/ (geN (parseInt (substring line 0 3)) 200 = true
          /\ ltN (parseInt (substring line 0 3)) 400 = false)).
Proof.
  unfold refused, terminal, replyCode. intros H.
  apply andb_true_iff in H as [Ht H]. apply negb_true_iff in H.
  repeat split; try assumption.
  - destruct line; [discriminate Ht | reflexivity].
  - destruct (parseInt (substring line 0 3)) as [z|]; [|reflexivity].
    cbn [geN ltN eqN] in *. destruct (Z.eqb_spec z 220); [|reflexivity].
    subst z. discriminate H.
  - destruct (geN (parseInt (substring line 0 3)) 200); [right | now left].
    now split.
Qed.

Lemma greeting_inv (line : string) :
  isGreeting line = true ->
  nonEmpty line = true
  /\ eqN (parseInt (substring line 0 3)) 220 = true.
Proof.
  unfold isGreeting. intros H. split; [|exact H].
  destruct line; [discriminate H | reflexivity].
Qed.

Lemma terminal_inv (line : string) :
  terminal line = true ->
  nonEmpty line = true /\ String.eqb (charAt line 3) " " = true.
Proof.
  unfold terminal. intros H. split; [|exact H].
  destruct line; [discriminate H | reflexivity].
Qed.

(** Evaluation that leaves what is looked at in a line as it is. *)
Ltac evaluate :=
  cbv -[parseInt JS.substring substringFrom charAt String.eqb geN ltN eqN
        showNumber nonEmpty].

Ltac comparisons l :=
  destruct (geN (parseInt (substring l 0 3)) 100) eqn:?;
  destruct (ltN (parseInt (substring l 0 3)) 200) eqn:?.

Ltac look H :=
  lazymatch type of H with
  | accepted _ = true =>
      destruct (accepted_inv _ H) as (? & ? & ? & ? & ? & ? & ?)
  | refused ?l = true =>
      destruct (refused_inv _ H) as (? & ? & ? & [? | [? ?]]);
      comparisons l
  | isGreeting _ = true =>
      destruct (greeting_inv _ H) as (? & ?)
  | terminal ?l = true =>
      destruct (terminal_inv _ H) as (? & ?);
      comparisons l;
      destruct (geN (parseInt (substring l 0 3)) 200) eqn:?;
      destruct (ltN (parseInt (substring l 0 3)) 400) eqn:?;
      destruct (eqN (parseInt (substring l 0 3)) 220) eqn:?
  end.

Ltac execute :=
  repeat (evaluate;
          repeat match goal with
                 | E : _ = true |- _ => rewrite E
                 | E : _ = false |- _ => rewrite E
                 end).

Lemma run_step (user password : string) (e : event) (es : list event)
    (x y z : connection) :
  task user e x = y ->
  drain user password (reactions y) y = Some z ->
  run user password (e :: es) x = run user password es z.
Proof.
  intros T D. cbn [run]. unfold step. rewrite T, D. reflexivity.
Qed.

(** The listeners of an [emit] are called one after the other. *)
Lemma emit_listeners (line : string) (c y : client) :
  fold_left (fun c h => callListener h line c) (listeners c) c = y ->
  emit line c = y.
Proof. intros E. exact E. Qed.

Lemma fold_step {A B : Type} (f : A -> B -> A) (h : B) (l : list B)
    (c c' y : A) :
  f c h = c' -> fold_left f l c' = y -> fold_left f (h :: l) c = y.
Proof. intros <- <-. reflexivity. Qed.

Lemma fold_done {A B : Type} (f : A -> B -> A) (c : A) :
  fold_left f [] c = c.
Proof. reflexivity. Qed.

(** One turn of the loop of the ['data'] handler. *)
Lemma loop_step (user line : string) (rest : list string) (x : connection)
    (c : client) (y : connection) :
  nonEmpty line = true ->
  emit line (theClient x) = c ->
  (if eqN (parseInt (substring line 0 3)) 220 && negb (authenticated c)
   then setWaiting
          (waiting x
           ++ [(fst (_sendCommand ("USER " ++ user) false c), afterUser rest)])%list
          (setClient (snd (_sendCommand ("USER " ++ user) false c)) x)
   else loop user rest (setClient c x)) = y ->
  loop user (line :: rest) x = y.
Proof.
  intros N E <-. cbn [loop]. rewrite N, E.
  destruct (_sendCommand ("USER " ++ user) false c). reflexivity.
Qed.

Ltac emitted :=
  apply emit_listeners; cbn [listeners theClient];
  repeat (eapply fold_step; [execute; reflexivity|]);
  apply fold_done.

Ltac received :=
  lazymatch goal with
  | |- task ?u (Lines (?line :: ?rest)) ?x = _ =>
      change (task u (Lines (line :: rest)) x) with (loop u (line :: rest) x);
      eapply loop_step; [assumption | emitted | execute; reflexivity]
  end.

(** One callback of a run, with the state after it worked out. *)
Ltac advance :=
  match goal with
  | |- context [run ?u ?p (?e :: ?es) ?x] =>
      let T := fresh "T" in
      let D := fresh "D" in
      eassert (T : task u e x = _) by first [received | execute; reflexivity];
      match type of T with
      | _ = ?y =>
          eassert (D : drain u p (reactions y) y = Some _)
            by (execute; reflexivity);
          rewrite (run_step u p e es x y _ T D); clear T D
      end
  end.

Ltac from_connect :=
  let v := eval vm_compute in connect in change connect with v;
  cbn [fst snd]; unfold login.

Ltac through := repeat advance; reflexivity.

(** X24.  [connect] logs in: once the socket has connected and a line with
    code 220 has come, [USER] is sent; when its reply is accepted (a last
    line with a code from 200 to 399 other than 220), [PASS] is sent;
    when that reply is accepted too, the client is authenticated and the
    promise of [connect] resolves.  Nothing else is
    written, no listener is left, and the timer of ten seconds, which is
    never cancelled, changes nothing when it fires afterwards. *)
Theorem connect_logs_in (user password greeting reply1 reply2 : string) :
  isGreeting greeting = true ->
  accepted reply1 = true ->
  accepted reply2 = true ->
  exists x',
    run user password (login greeting reply1 reply2 ++ [Deadline]) (snd connect)
    = Some x'
    /\ outcome (theClient x') (fst connect) = Some (Resolve VUndefined)
    /\ connected (theClient x') = true
    /\ authenticated (theClient x') = true
    /\ written (theClient x')
       = [("USER " ++ user ++ CRLF)%string; ("PASS " ++ password ++ CRLF)%string]
    /\ listeners (theClient x') = []
    /\ timers (theClient x') = []
    /\ waiting x' = [].
Proof.
  intros Hg H1 H2. look Hg. look H1. look H2.
  from_connect. cbn [app].
  eexists. split; [through|].
  evaluate. repeat split.
Qed.

Lemma connect_logs_in_witness :
  exists x',
    run "anonymous" "anonymous@"
      (login "220 ready" "331 password required" "230 logged in" ++ [Deadline])
      (snd connect)
    = Some x'
    /\ outcome (theClient x') (fst connect) = Some (Resolve VUndefined)
    /\ connected (theClient x') = true
    /\ authenticated (theClient x') = true
    /\ written (theClient x')
       = [("USER " ++ "anonymous" ++ CRLF)%string;
          ("PASS " ++ "anonymous@" ++ CRLF)%string]
    /\ listeners (theClient x') = []
    /\ timers (theClient x') = []
    /\ waiting x' = [].
Proof.
  exact (connect_logs_in "anonymous" "anonymous@"
           "220 ready" "331 password required" "230 logged in"
           eq_refl eq_refl eq_refl).
Defined.

(** X25.  When the reply to [USER] is a last line with a code outside
    200 to 399, [connect] is rejected with the FTP error of that reply
    and [PASS] is never sent.  The socket is not ended: the client stays
    connected, without being authenticated. *)
Theorem connect_rejects_when_user_is_refused
    (user password greeting reply1 : string) :
  isGreeting greeting = true ->
  refused reply1 = true ->
  exists x',
    run user password [Established; Lines [greeting]; Lines [reply1]]
      (snd connect)
    = Some x'
    /\ outcome (theClient x') (fst connect)
       = Some (Reject (ftpError (replyCode reply1) (replyMessage reply1)))
    /\ written (theClient x') = [("USER " ++ user ++ CRLF)%string]
    /\ connected (theClient x') = true
    /\ authenticated (theClient x') = false
    /\ ended x' = false
    /\ listeners (theClient x') = []
    /\ waiting x' = [].
Proof.
  intros Hg H1. look Hg. look H1; from_connect;
    (eexists; split; [through|]); evaluate; repeat split.
Qed.

Lemma connect_rejects_when_user_is_refused_witness :
  exists x',
    run "nobody" "secret"
      [Established; Lines ["220 ready"]; Lines ["530 no such user"]]
      (snd connect)
    = Some x'
    /\ outcome (theClient x') (fst connect)
       = Some (Reject (ftpError (replyCode "530 no such user")
                                (replyMessage "530 no such user")))
    /\ written (theClient x') = [("USER " ++ "nobody" ++ CRLF)%string]
    /\ connected (theClient x') = true
    /\ authenticated (theClient x') = false
    /\ ended x' = false
    /\ listeners (theClient x') = []
    /\ waiting x' = [].
Proof.
  exact (connect_rejects_when_user_is_refused "nobody" "secret"
           "220 ready" "530 no such user" eq_refl eq_refl).
Defined.

(** X26.  When the reply to [USER] is accepted and the reply to [PASS] is
    a last line with a code outside 200 to 399, [connect] is rejected
    with the FTP error of that reply; the client is not authenticated
    and the socket is not ended. *)
Theorem connect_rejects_when_password_is_refused
    (user password greeting reply1 reply2 : string) :
  isGreeting greeting = true ->
  accepted reply1 = true ->
  refused reply2 = true ->
  exists x',
    run user password (login greeting reply1 reply2) (snd connect) = Some x'
    /\ outcome (theClient x') (fst connect)
       = Some (Reject (ftpError (replyCode reply2) (replyMessage reply2)))
    /\ written (theClient x')
       = [("USER " ++ user ++ CRLF)%string; ("PASS " ++ password ++ CRLF)%string]
    /\ connected (theClient x') = true
    /\ authenticated (theClient x') = false
    /\ ended x' = false
    /\ listeners (theClient x') = []
    /\ waiting x' = [].
Proof.
  intros Hg H1 H2. look Hg. look H1. look H2; from_connect;
    (eexists; split; [through|]); evaluate; repeat split.
Qed.

Lemma connect_rejects_when_password_is_refused_witness :
  exists x',
    run "anonymous" "wrong"
      (login "220 ready" "331 password required" "530 login incorrect")
      (snd connect)
    = Some x'
    /\ outcome (theClient x') (fst connect)
       = Some (Reject (ftpError (replyCode "530 login incorrect")
                                (replyMessage "530 login incorrect")))
    /\ written (theClient x')
       = [("USER " ++ "anonymous" ++ CRLF)%string;
          ("PASS " ++ "wrong" ++ CRLF)%string]
    /\ connected (theClient x') = true
    /\ authenticated (theClient x') = false
    /\ ended x' = false
    /\ listeners (theClient x') = []
    /\ waiting x' = [].
Proof.
  exact (connect_rejects_when_password_is_refused "anonymous" "wrong"
           "220 ready" "331 password required" "530 login incorrect"
           eq_refl eq_refl eq_refl).
Defined.

(** X27.  The timer of ten seconds rejects [connect] with
    [Connection timeout] when it fires before the login is over, and
    does nothing else: the socket is not ended and the login goes on.
    Accepted replies that come afterwards still have [PASS] sent and the
    client authenticated, while the promise of [connect] stays
    rejected. *)
Theorem connect_times_out_but_login_goes_on
    (user password greeting reply1 reply2 : string) :
  isGreeting greeting = true ->
  accepted reply1 = true ->
  accepted reply2 = true ->
  exists x1 x2,
    run user password [Established; Lines [greeting]; Deadline] (snd connect)
    = Some x1
    /\ outcome (theClient x1) (fst connect) = Some (Reject "Connection timeout")
    /\ ended x1 = false
    /\ written (theClient x1) = [("USER " ++ user ++ CRLF)%string]
    /\ run user password [Lines [reply1]; Lines [reply2]] x1 = Some x2
    /\ outcome (theClient x2) (fst connect) = Some (Reject "Connection timeout")
    /\ authenticated (theClient x2) = true
    /\ written (theClient x2)
       = [("USER " ++ user ++ CRLF)%string; ("PASS " ++ password ++ CRLF)%string].
Proof.
  intros Hg H1 H2. look Hg. look H1. look H2. from_connect.
  eexists. eexists. split; [through|].
  split; [reflexivity|]. split; [reflexivity|]. split; [reflexivity|].
  split; [through|].
  evaluate. repeat split.
Qed.

Lemma connect_times_out_but_login_goes_on_witness :
  exists x1 x2,
    run "anonymous" "anonymous@" [Established; Lines ["220 ready"]; Deadline]
      (snd connect)
    = Some x1
    /\ outcome (theClient x1) (fst connect) = Some (Reject "Connection timeout")
    /\ ended x1 = false
    /\ written (theClient x1) = [("USER " ++ "anonymous" ++ CRLF)%string]
    /\ run "anonymous" "anonymous@"
         [Lines ["331 password required"]; Lines ["230 logged in"]] x1
       = Some x2
    /\ outcome (theClient x2) (fst connect) = Some (Reject "Connection timeout")
    /\ authenticated (theClient x2) = true
    /\ written (theClient x2)
       = [("USER " ++ "anonymous" ++ CRLF)%string;
          ("PASS " ++ "anonymous@" ++ CRLF)%string].
Proof.
  exact (connect_times_out_but_login_goes_on "anonymous" "anonymous@"
           "220 ready" "331 password required" "230 logged in"
           eq_refl eq_refl eq_refl).
Defined.

(** X28.  A greeting of two lines with code 220 that come in two ['data']
    events, the second a last line, starts the login twice: the second
    line is taken as the reply to the first [USER], and [USER] and
    [PASS] are each sent twice.  One accepted reply is then enough for
    [connect] to resolve with the client authenticated, while a [PASS]
    is still waiting for its reply. *)
Theorem greeting_in_two_events_logs_in_early
    (user password greeting1 greeting2 reply : string) :
  isGreeting greeting1 = true ->
  isGreeting greeting2 = true ->
  terminal greeting2 = true ->
  accepted reply = true ->
  exists x',
    run user password
      [Established; Lines [greeting1]; Lines [greeting2]; Lines [reply]]
      (snd connect)
    = Some x'
    /\ outcome (theClient x') (fst connect) = Some (Resolve VUndefined)
    /\ authenticated (theClient x') = true
    /\ written (theClient x')
       = [("USER " ++ user ++ CRLF)%string; ("USER " ++ user ++ CRLF)%string;
          ("PASS " ++ password ++ CRLF)%string;
          ("PASS " ++ password ++ CRLF)%string]
    /\ List.length (listeners (theClient x')) = 1
    /\ List.length (waiting x') = 1.
Proof.
  intros Hg1 Hg2 Ht H. look Hg1. look H.
  destruct (greeting_inv _ Hg2) as [? G2]. destruct (terminal_inv _ Ht) as [_ ?].
  assert (geN (parseInt (substring greeting2 0 3)) 100 = true
          /\ ltN (parseInt (substring greeting2 0 3)) 200 = false
          /\ geN (parseInt (substring greeting2 0 3)) 200 = true
          /\ ltN (parseInt (substring greeting2 0 3)) 400 = true)
    as (? & ? & ? & ?).
  { destruct (parseInt (substring greeting2 0 3)) as [z|]; [|discriminate G2].
    cbn [geN ltN eqN] in *. apply Z.eqb_eq in G2. subst z. repeat split. }
  from_connect.
  eexists. split; [through|].
  evaluate. repeat split.
Qed.

Lemma greeting_in_two_events_logs_in_early_witness :
  exists x',
    run "anonymous" "anonymous@"
      [Established; Lines ["220-welcome"]; Lines ["220 ready"];
       Lines ["331 password required"]]
      (snd connect)
    = Some x'
    /\ outcome (theClient x') (fst connect) = Some (Resolve VUndefined)
    /\ authenticated (theClient x') = true
    /\ written (theClient x')
       = [("USER " ++ "anonymous" ++ CRLF)%string;
          ("USER " ++ "anonymous" ++ CRLF)%string;
          ("PASS " ++ "anonymous@" ++ CRLF)%string;
          ("PASS " ++ "anonymous@" ++ CRLF)%string]
    /\ List.length (listeners (theClient x')) = 1
    /\ List.length (waiting x') = 1.
Proof.
  exact (greeting_in_two_events_logs_in_early "anonymous" "anonymous@"
           "220-welcome" "220 ready" "331 password required"
           eq_refl eq_refl eq_refl eq_refl).
Defined.

(** X29.  [close] after a login sends [QUIT] and waits for its reply.
    Whatever last line of a reply comes, accepted or not, the promise of
    [close] resolves, the socket is ended, and the client is neither
    connected nor authenticated any more. *)
Theorem close_quits_and_ends_the_socket
    (user password greeting reply1 reply2 reply : string) :
  isGreeting greeting = true ->
  accepted reply1 = true ->
  accepted reply2 = true ->
  terminal reply = true ->
  exists x1 x2,
    run user password (login greeting reply1 reply2) (snd connect) = Some x1
    /\ run user password [CloseCalled; Lines [reply]] x1 = Some x2
    /\ outcome (theClient x2) (closing x1) = Some (Resolve VUndefined)
    /\ written (theClient x2)
       = (written (theClient x1) ++ [("QUIT" ++ CRLF)%string])%list
    /\ ended x1 = false
    /\ ended x2 = true
    /\ connected (theClient x2) = false
    /\ authenticated (theClient x2) = false
    /\ listeners (theClient x2) = []
    /\ timers (theClient x2) = [].
Proof.
  intros Hg H1 H2 Ht. look Hg. look H1. look H2.
  eassert (L : run user password (login greeting reply1 reply2) (snd connect)
               = Some _) by (from_connect; through).
  match type of L with _ = Some ?x1 => exists x1 end.
  look Ht; eexists; (split; [exact L|]); (split; [through|]);
    evaluate; repeat split.
Qed.

Lemma close_quits_and_ends_the_socket_witness :
  exists x1 x2,
    run "anonymous" "anonymous@"
      (login "220 ready" "331 password required" "230 logged in") (snd connect)
    = Some x1
    /\ run "anonymous" "anonymous@" [CloseCalled; Lines ["221 goodbye"]] x1
       = Some x2
    /\ outcome (theClient x2) (closing x1) = Some (Resolve VUndefined)
    /\ written (theClient x2)
       = (written (theClient x1) ++ [("QUIT" ++ CRLF)%string])%list
    /\ ended x1 = false
    /\ ended x2 = true
    /\ connected (theClient x2) = false
    /\ authenticated (theClient x2) = false
    /\ listeners (theClient x2) = []
    /\ timers (theClient x2) = [].
Proof.
  exact (close_quits_and_ends_the_socket "anonymous" "anonymous@"
           "220 ready" "331 password required" "230 logged in" "221 goodbye"
           eq_refl eq_refl eq_refl eq_refl).
Defined.

(** X30.  While [QUIT] waits for its reply the promise of [close] is
    pending.  When no reply comes and the timer of the command fires,
    the error is swallowed: the promise of [close] still resolves, and
    the socket is ended as after a reply. *)
Theorem close_resolves_when_quit_times_out
    (user password greeting reply1 reply2 : string) :
  isGreeting greeting = true ->
  accepted reply1 = true ->
  accepted reply2 = true ->
  exists x1 x2 x3,
    run user password (login greeting reply1 reply2) (snd connect) = Some x1
    /\ run user password [CloseCalled] x1 = Some x2
    /\ outcome (theClient x2) (closing x1) = None
    /\ map fst (timers (theClient x2)) = [2]
    /\ ended x2 = false
    /\ run user password [CommandTimer 2] x2 = Some x3
    /\ outcome (theClient x3) (closing x1) = Some (Resolve VUndefined)
    /\ ended x3 = true
    /\ connected (theClient x3) = false
    /\ authenticated (theClient x3) = false
    /\ listeners (theClient x3) = [].
Proof.
  intros Hg H1 H2. look Hg. look H1. look H2. from_connect.
  do 3 eexists. split; [through|]. split; [through|].
  split; [reflexivity|]. split; [reflexivity|]. split; [reflexivity|].
  split; [through|].
  evaluate. repeat split.
Qed.

Lemma close_resolves_when_quit_times_out_witness :
  exists x1 x2 x3,
    run "anonymous" "anonymous@"
      (login "220 ready" "331 password required" "230 logged in") (snd connect)
    = Some x1
    /\ run "anonymous" "anonymous@" [CloseCalled] x1 = Some x2
    /\ outcome (theClient x2) (closing x1) = None
    /\ map fst (timers (theClient x2)) = [2]
    /\ ended x2 = false
    /\ run "anonymous" "anonymous@" [CommandTimer 2] x2 = Some x3
    /\ outcome (theClient x3) (closing x1) = Some (Resolve VUndefined)
    /\ ended x3 = true
    /\ connected (theClient x3) = false
    /\ authenticated (theClient x3) = false
    /\ listeners (theClient x3) = [].
Proof.
  exact (close_resolves_when_quit_times_out "anonymous" "anonymous@"
           "220 ready" "331 password required" "230 logged in"
           eq_refl eq_refl eq_refl).
Defined.

End LoginFacts.
